(** * Cursor tools: draggable cursors and spans in matplotlib axes

    A shallow embedding of [cursortools.py].  Objects of the program
    ([DragCursor], [DragSpan]) live in a store indexed by handles, the axes
    keeps its [curlist] and [spanlist] of handles, the canvas keeps the
    connected callbacks, and every function of the module is a computation
    in a state-and-exception monad over that world.

    Conventions of the embedding:
    - positions on the x axis (Python floats) are integers of [Z]; the
      program only stores, compares and copies them;
    - the text of a tag is a [string]; the regular expression
      [\((\d+)\)] used throughout the module is the matcher [re_search];
    - Python's unbounded [int] for cursor IDs is [N] (the pattern only
      yields digit strings). *)

From Stdlib Require Import ZArith Ascii String Decimal DecimalString DecimalN DecimalPos.
From stdpp Require Import base strings list sorting.

Local Open Scope Z_scope.

(** ** Text: the pattern [\((\d+)\)], [int], [str] *)

Module Text.

(** [\d] on a byte string: the ten ASCII digits. *)
Definition is_digit (a : ascii) : bool :=
  match a with
  | "0" | "1" | "2" | "3" | "4" | "5" | "6" | "7" | "8" | "9" => true
  | _ => false
  end%char.

(** The longest prefix of digits of [s], and what follows it. *)
Fixpoint span_digits (s : string) : string * string :=
  match s with
  | String a s' =>
      if is_digit a
      then let '(ds, r) := span_digits s' in (String a ds, r)
      else (EmptyString, s)
  | EmptyString => (EmptyString, EmptyString)
  end.

(** A match of [\((\d+)\)] that starts at the first character of [s]:
    group 1 and the text after the match.  [\d+] is greedy, and giving a
    digit back never helps: the character after a shorter run is a digit,
    not the closing parenthesis. *)
Definition match_here (s : string) : option (string * string) :=
  match s with
  | String "(" s' =>
      match span_digits s' with
      | (String d ds, String ")" r) => Some (String d ds, r)
      | _ => None
      end
  | _ => None
  end.

(** [re.search(r'\((\d+)\)', s)]: the leftmost match, as the text before
    it, group 1, and the text after it; [None] when nothing matches. *)
Fixpoint re_search (s : string) : option (string * string * string) :=
  match match_here s with
  | Some (g, r) => Some (EmptyString, g, r)
  | None =>
      match s with
      | EmptyString => None
      | String a s' =>
          match re_search s' with
          | Some (p, g, r) => Some (String a p, g, r)
          | None => None
          end
      end
  end.

(** [match.group(0)]: the whole match, parentheses included. *)
Definition group0 (g : string) : string := "(" +:+ g +:+ ")".

(** [re.sub(r'\(\d+\)', '', s)]: every match, scanning left to right, is
    deleted.  [skip] counts the characters of the current match that are
    still to be dropped. *)
Fixpoint re_sub_from (skip : nat) (s : string) : string :=
  match s with
  | EmptyString => EmptyString
  | String a s' =>
      match skip with
      | S k => re_sub_from k s'
      | O =>
          match match_here s with
          | Some (g, _) => re_sub_from (S (String.length g)) s'
          | None => String a (re_sub_from 0 s')
          end
      end
  end.

Definition re_sub (s : string) : string := re_sub_from 0 s.

(** [str(n)] for a non-negative integer. *)
Definition py_str (n : N) : string := NilEmpty.string_of_uint (N.to_uint n).

(** [int(s)] on a string: the number for a non-empty string of digits,
    [None] (Python raises ValueError) otherwise. *)
Definition py_int (s : string) : option N :=
  match s with
  | EmptyString => None
  | _ => N.of_uint <$> NilEmpty.uint_of_string s
  end.

End Text.
Import Text.

(** ** Cursor orientation and argument types *)

(** [orient] of a cursor: the module supports ['vertical'] (a cursor of
    its own) and ['vertspan'] (one of the two cursors of a span). *)
Inductive orientation := vertical | vertspan.

Definition orient_name (o : orientation) : string :=
  match o with vertical => "vertical" | vertspan => "vertspan" end.

Definition is_vertspan (o : orientation) : bool :=
  match o with vertspan => true | vertical => false end.

(** A value handed over as a tag: a string, or something that is not one
    (a missing value read from a table, a number).  Only [+] with a string
    is ever applied to it. *)
Inductive pyval :=
  | PyStr (s : string)
  | PyOther.

(** The [ax] argument of the functions of the module: the default
    ['current'], or the axes object passed by the caller. *)
Inductive ax_arg := current | given_axes.

(** The [pos] argument of [placecursor] and [placespan]. *)
Inductive cursor_pos := center | at_x (x : Z).
Inductive span_pos :=
  | span_center
  | span_around (x : Z)
  | span_between (lo hi : Z).

(** ** The world: objects, axes, canvas *)

(** The line artist of a cursor ([ax.axvline]): its x position (read in
    the source as [cline._xy[0][0]], [cline._x[0]] and
    [cline.get_xdata()[0]], written through [set_xdata]; the canvas is
    redrawn between a write and the next read), line style and color. *)
Record Line2D := mkLine {
  line_x : Z;
  line_ls : string;
  line_color : string
}.

(** The text artist of a cursor ([ax.text]). *)
Record TextBox := mkText {
  text : string;
  text_x : Z;
  text_color : string
}.

(** A [DragCursor] object.  [tag] is absent while the constructor has not
    reached [initag]; [spanobj] is attached by [DragSpan]. *)
Record DragCursor := mkCursor {
  mode : string;
  orient : orientation;
  color : string;
  cline : Line2D;
  tag : option TextBox;
  _press : option (Z * Z * Z * Z);
  spanobj : option nat;
  cidpress : nat;
  cidrelease : nat;
  cidmotion : nat
}.

(** The polygon of a span ([ax.axvspan]): its vertices and edge color. *)
Record Polygon := mkPolygon {
  xy : list (Z * Z);
  edgecolor : string
}.

(** A [DragSpan] object; [span_low] and [span_high] are cursor handles. *)
Record DragSpan := mkSpan {
  span_color : string;
  span_low : nat;
  span_high : nat;
  vspan : Polygon;
  span_cidpress : nat
}.

(** What a connected callback calls. *)
Inductive callback :=
  | cursor_on_press (h : nat)
  | cursor_on_release (h : nat)
  | cursor_on_motion (h : nat)
  | span_on_press (s : nat)
  | curonclick_onclick
  | spanonclick_onclick.

(** The axes with its figure and canvas, and the object store.  [curlist]
    and [spanlist] are attributes the constructors hang on the axes on
    first use; [fig_cidpress] is the attribute [fig.cidpress]. *)
Record World := mkWorld {
  curlist : option (list nat);
  spanlist : option (list nat);
  cursors : list DragCursor;
  spans : list DragSpan;
  navigate_mode : option string;
  xlim : Z * Z;
  fig_cidpress : option nat;
  callbacks : list (nat * callback);
  next_cid : nat
}.

(** Where the pointer of an event is, seen from the modelled axes. *)
Inductive axes_ref := this_axes | other_axes.

(** A mouse event of the canvas.  [on_lines] and [on_spans] list the
    cursors and spans whose artist's [contains(event)] answers true (the
    pick test belongs to the host surface). *)
Record MouseEvent := mkEvent {
  inaxes : option axes_ref;
  button : Z;
  xdata : Z;
  ydata : Z;
  on_lines : list nat;
  on_spans : list nat
}.

(** The empty figure: one axes, nothing placed, no navigation tool. *)
Definition new_axes : World :=
  mkWorld None None [] [] None (0, 1) None [] 0.

(** Field updates. *)
Definition with_mode (m : string) (c : DragCursor) : DragCursor :=
  mkCursor m (orient c) (color c) (cline c) (tag c) (_press c) (spanobj c)
           (cidpress c) (cidrelease c) (cidmotion c).
Definition with_color (k : string) (c : DragCursor) : DragCursor :=
  mkCursor (mode c) (orient c) k (cline c) (tag c) (_press c) (spanobj c)
           (cidpress c) (cidrelease c) (cidmotion c).
Definition with_cline (l : Line2D) (c : DragCursor) : DragCursor :=
  mkCursor (mode c) (orient c) (color c) l (tag c) (_press c) (spanobj c)
           (cidpress c) (cidrelease c) (cidmotion c).
Definition with_tag (t : option TextBox) (c : DragCursor) : DragCursor :=
  mkCursor (mode c) (orient c) (color c) (cline c) t (_press c) (spanobj c)
           (cidpress c) (cidrelease c) (cidmotion c).
Definition with_press (p : option (Z * Z * Z * Z)) (c : DragCursor)
  : DragCursor :=
  mkCursor (mode c) (orient c) (color c) (cline c) (tag c) p (spanobj c)
           (cidpress c) (cidrelease c) (cidmotion c).
Definition with_spanobj (s : option nat) (c : DragCursor) : DragCursor :=
  mkCursor (mode c) (orient c) (color c) (cline c) (tag c) (_press c) s
           (cidpress c) (cidrelease c) (cidmotion c).
Definition with_cids (p r m : nat) (c : DragCursor) : DragCursor :=
  mkCursor (mode c) (orient c) (color c) (cline c) (tag c) (_press c)
           (spanobj c) p r m.

Definition with_line_x (x : Z) (l : Line2D) : Line2D :=
  mkLine x (line_ls l) (line_color l).
Definition with_line_ls (s : string) (l : Line2D) : Line2D :=
  mkLine (line_x l) s (line_color l).
Definition with_line_color (k : string) (l : Line2D) : Line2D :=
  mkLine (line_x l) (line_ls l) k.

Definition with_text (s : string) (t : TextBox) : TextBox :=
  mkText s (text_x t) (text_color t).
Definition with_text_x (x : Z) (t : TextBox) : TextBox :=
  mkText (text t) x (text_color t).
Definition with_text_color (k : string) (t : TextBox) : TextBox :=
  mkText (text t) (text_x t) k.

Definition with_span_color (k : string) (s : DragSpan) : DragSpan :=
  mkSpan k (span_low s) (span_high s) (vspan s) (span_cidpress s).
Definition with_vspan (p : Polygon) (s : DragSpan) : DragSpan :=
  mkSpan (span_color s) (span_low s) (span_high s) p (span_cidpress s).

Definition with_curlist (l : option (list nat)) (w : World) : World :=
  mkWorld l (spanlist w) (cursors w) (spans w) (navigate_mode w) (xlim w)
          (fig_cidpress w) (callbacks w) (next_cid w).
Definition with_spanlist (l : option (list nat)) (w : World) : World :=
  mkWorld (curlist w) l (cursors w) (spans w) (navigate_mode w) (xlim w)
          (fig_cidpress w) (callbacks w) (next_cid w).
Definition with_cursors (l : list DragCursor) (w : World) : World :=
  mkWorld (curlist w) (spanlist w) l (spans w) (navigate_mode w) (xlim w)
          (fig_cidpress w) (callbacks w) (next_cid w).
Definition with_spans (l : list DragSpan) (w : World) : World :=
  mkWorld (curlist w) (spanlist w) (cursors w) l (navigate_mode w) (xlim w)
          (fig_cidpress w) (callbacks w) (next_cid w).
Definition with_fig_cidpress (c : option nat) (w : World) : World :=
  mkWorld (curlist w) (spanlist w) (cursors w) (spans w) (navigate_mode w)
          (xlim w) c (callbacks w) (next_cid w).
Definition with_callbacks (l : list (nat * callback)) (n : nat) (w : World)
  : World :=
  mkWorld (curlist w) (spanlist w) (cursors w) (spans w) (navigate_mode w)
          (xlim w) (fig_cidpress w) l n.

(** ** Exceptions and the monad of the module's functions *)

(** The Python exceptions the module can raise.  [NoSuchObject] is not a
    Python exception: it marks a handle that denotes no object of the
    store, which no Python reference can do. *)
Inductive exn :=
  | AttributeError
  | ValueError
  | TypeError
  | KeyError
  | IndexError
  | UnboundLocalError
  | NoSuchObject.

Inductive outcome (A : Type) :=
  | Ok (a : A)
  | Raise (e : exn).
Arguments Ok {A} a.
Arguments Raise {A} e.

(** A computation returns or raises, and in both cases leaves the world
    it has mutated so far. *)
Definition M (A : Type) : Type := World → outcome A * World.

Global Instance M_ret : MRet M := λ A a w, (Ok a, w).
Global Instance M_bind : MBind M := λ A B f m w,
  match m w with
  | (Ok a, w') => f a w'
  | (Raise e, w') => (Raise e, w')
  end.

Definition raise {A} (e : exn) : M A := λ w, (Raise e, w).
Definition get_world : M World := λ w, (Ok w, w).
Definition modify (f : World → World) : M unit := λ w, (Ok tt, f w).

(** [try: m except e1, e2, ...: pass] for the listed exceptions. *)
Definition try_pass (catch : exn → bool) (m : M unit) : M unit := λ w,
  match m w with
  | (Raise e, w') => if catch e then (Ok tt, w') else (Raise e, w')
  | r => r
  end.

(** [for x in l: body x]. *)
Fixpoint for_each {A} (l : list A) (body : A → M unit) : M unit :=
  match l with
  | [] => mret tt
  | x :: l' => body x ;; for_each l' body
  end.

(** Object access. *)
Definition cursor_at (h : nat) : M DragCursor := λ w,
  match cursors w !! h with
  | Some c => (Ok c, w)
  | None => (Raise NoSuchObject, w)
  end.
Definition span_at (s : nat) : M DragSpan := λ w,
  match spans w !! s with
  | Some d => (Ok d, w)
  | None => (Raise NoSuchObject, w)
  end.
Definition update_cursor (h : nat) (f : DragCursor → DragCursor) : M unit :=
  cursor_at h ;; modify (λ w, with_cursors (alter f h (cursors w)) w).
Definition update_span (s : nat) (f : DragSpan → DragSpan) : M unit :=
  span_at s ;; modify (λ w, with_spans (alter f s (spans w)) w).

(** [ax.curlist] and [ax.spanlist]: AttributeError while nothing has hung
    the attribute on the axes. *)
Definition ax_curlist : M (list nat) := λ w,
  match curlist w with
  | Some l => (Ok l, w)
  | None => (Raise AttributeError, w)
  end.
Definition ax_spanlist : M (list nat) := λ w,
  match spanlist w with
  | Some l => (Ok l, w)
  | None => (Raise AttributeError, w)
  end.

(** [canvas.mpl_connect] and [canvas.mpl_disconnect]. *)
Definition mpl_connect (cb : callback) : M nat := λ w,
  (Ok (next_cid w),
   with_callbacks (callbacks w ++ [(next_cid w, cb)]) (S (next_cid w)) w).
Definition mpl_disconnect (cid : nat) : M unit :=
  modify (λ w, with_callbacks
                 (filter (λ p, p.1 ≠ cid) (callbacks w)) (next_cid w) w).

(** [list.remove(x)]: the first occurrence goes, ValueError without one. *)
Fixpoint list_remove (x : nat) (l : list nat) : option (list nat) :=
  match l with
  | [] => None
  | y :: l' =>
      if decide (x = y) then Some l'
      else cons y <$> list_remove x l'
  end.


(** ** Methods of [DragCursor] (first part) *)

(** [int(re.search(r'\((\d+)\)', s).group(1))]: [re.search] returns
    [None] without a match, and [None.group] is an AttributeError. *)
Definition id_of_text (s : string) : M N :=
  match re_search s with
  | None => raise AttributeError
  | Some (_, ID_str, _) =>
      match py_int ID_str with
      | Some n => mret n
      | None => raise ValueError
      end
  end.

(** [self.tag]: AttributeError while the cursor has no tag. *)
Definition tag_of (self : nat) : M TextBox :=
  c ← cursor_at self;
  match tag c with
  | Some t => mret t
  | None => raise AttributeError
  end.

(** [self.tag.get_text()] *)
Definition tag_get_text (self : nat) : M string :=
  t ← tag_of self; mret (text t).

(** [self.tag.set_text(s)] *)
Definition tag_set_text (self : nat) (s : string) : M unit :=
  t ← tag_of self;
  update_cursor self (with_tag (Some (with_text s t))).

Definition DragCursor_set_mode (self : nat) (m : string) : M unit :=
  update_cursor self (with_mode m) ;;
  (if String.eqb m "interact"
   then update_cursor self (λ c, with_cline (with_line_ls "--" (cline c)) c)
   else if String.eqb m "fixed"
   then update_cursor self (λ c, with_cline (with_line_ls "-." (cline c)) c)
   else mret tt).

Definition DragCursor_get_id (self : nat) : M N :=
  cur_tagstr ← tag_get_text self;
  id_of_text cur_tagstr.

Definition DragCursor_get_text (self : nat) : M string :=
  tag_get_text self.

Definition DragCursor_get_tag (self : nat) : M string :=
  full_str ← DragCursor_get_text self;
  mret (re_sub full_str).

Definition DragCursor_set_tag (self : nat) (tag_str : pyval) : M unit :=
  name_str ← tag_get_text self;
  match re_search name_str with
  | None => raise AttributeError
  | Some (_, g, _) =>
      let id_str := group0 g in
      let new_tag :=
        match tag_str with
        | PyStr s => s +:+ id_str
        | PyOther => id_str      (* except TypeError *)
        end in
      tag_set_text self new_tag
  end.

Definition DragCursor_get_color (self : nat) : M string :=
  c ← cursor_at self; mret (color c).

Definition DragCursor_set_color (self : nat) (k : string) : M unit :=
  update_cursor self (with_color k) ;;
  update_cursor self (λ c, with_cline (with_line_color k (cline c)) c) ;;
  t ← tag_of self;
  update_cursor self (with_tag (Some (with_text_color k t))).

Definition DragCursor_get_xpos (self : nat) : M Z :=
  c ← cursor_at self; mret (line_x (cline c)).

Definition DragCursor_connect (self : nat) : M unit :=
  p ← mpl_connect (cursor_on_press self);
  r ← mpl_connect (cursor_on_release self);
  m ← mpl_connect (cursor_on_motion self);
  update_cursor self (with_cids p r m).

(** ** [initag] *)

Definition max_id (ID_list : list N) : N := foldr N.max 0%N ID_list.

(** The tag string of a new cursor, from the IDs found in the axes. *)
Definition new_tagstr (ID_list : list N) : string :=
  match ID_list with
  | [] => "(1)"
  | _ => "(" +:+ py_str (max_id ID_list + 1) +:+ ")"
  end.

Definition initag_catches (e : exn) : bool :=
  match e with
  | ValueError | AttributeError => true
  | _ => false
  end.

(** The loop of [initag] over [ax.curlist]; a cursor without a tag or
    without an ID in its tag is passed over. *)
Fixpoint initag_scan (cl : list nat) (ID_list : list N) : M (list N) :=
  match cl with
  | [] => mret ID_list
  | ci :: cl' =>
      λ w,
        match (s ← tag_get_text ci; id_of_text s) w with
        | (Ok n, w') => initag_scan cl' (ID_list ++ [n]) w'
        | (Raise e, w') =>
            if initag_catches e then initag_scan cl' ID_list w'
            else (Raise e, w')
        end
  end.

(** [ID_list.sort()] only reorders the list before [max] reads it. *)
Definition initag (self : nat) : M unit :=
  c ← cursor_at self;
  (match orient c with
   | vertspan => ax_spanlist
   | vertical => ax_curlist
   end) ;;
  cl ← ax_curlist;
  ID_list ← initag_scan cl [];
  let tagstr := new_tagstr ID_list in
  update_cursor self
    (with_tag (Some (mkText tagstr (line_x (cline c)) (color c)))).

(** ** [DragCursor.__init__], [placecursor]

    Cursors are created with the default line properties of
    [placecursor] and [placespan] (color ['r'], line style ['--']). *)
Definition DragCursor_init (pos : Z) (o : orientation) (m : string) : M nat :=
  w ← get_world;
  let self := length (cursors w) in
  modify (λ w, with_cursors
     (cursors w ++ [mkCursor m o "r" (mkLine pos "--" "r")
                      None None None 0 0 0]) w) ;;
  modify (λ w, with_curlist
     (Some (match curlist w with
            | Some l => l ++ [self]
            | None => [self]
            end)) w) ;;
  initag self ;;
  DragCursor_connect self ;;
  mret self.

(** Positions are on the integer grid of the model and [xlim] holds the
    limits the world was given: the library rescales the axes as lines
    are added and divides in floating point
    ([from __future__ import division]), which the model does not follow.
    The position computed for ['center'] stands for the one of the
    library; the statements read no position that is computed from the
    limits. *)
Definition placecursor (pos : cursor_pos) : M nat :=
  w ← get_world;
  let pos :=
    match pos with
    | center =>
        let axspan := (xlim w).2 - (xlim w).1 in (xlim w).1 + axspan / 2
    | at_x x => x
    end in
  DragCursor_init pos vertical "interact".

(** ** [remcur] *)

(** One round of the [for] loop of [remcur], up to [cursors.remove(ci)]. *)
Definition remcur_body (ci : nat) : M unit :=
  c ← cursor_at ci;
  tag_of ci ;;                     (* ci.cline.remove(); ci.tag.remove() *)
  cl ← ax_curlist;
  match list_remove ci cl with
  | None => raise ValueError
  | Some cl' => modify (with_curlist (Some cl'))
  end ;;
  mpl_disconnect (cidpress c) ;;
  mpl_disconnect (cidrelease c) ;;
  mpl_disconnect (cidmotion c).

(** [for ci in cursors: ...; cursors.remove(ci)]: Python walks the list
    by index while the loop shortens it.  [n] bounds the rounds. *)
Fixpoint remcur_for (n i : nat) (cursors : list nat) : M (list nat) :=
  match n with
  | O => mret cursors
  | S n' =>
      match cursors !! i with
      | None => mret cursors
      | Some ci =>
          remcur_body ci ;;
          match list_remove ci cursors with
          | None => raise ValueError
          | Some cursors' => remcur_for n' (S i) cursors'
          end
      end
  end.

(** [while cursors: for ...].  [n] bounds the passes. *)
Fixpoint remcur_while (n : nat) (cursors : list nat) : M unit :=
  match n with
  | O => mret tt
  | S n' =>
      match cursors with
      | [] => mret tt
      | _ =>
          cursors' ← remcur_for (length cursors) 0 cursors;
          remcur_while n' cursors'
      end
  end.

(** [remcur(cur)]: [cursors] is [[cur]] for one cursor object and a copy
    of the sequence otherwise. *)
Definition remcur (cursors : list nat) : M unit :=
  remcur_while (length cursors) cursors.

(** ** [DragSpan] *)

Definition DragSpan_updatespan (self : nat) : M unit :=
  d ← span_at self;
  lo ← cursor_at (span_low d);
  hi ← cursor_at (span_high d);
  let low_val := line_x (cline lo) in
  let high_val := line_x (cline hi) in
  let xy_coord := [(low_val, 0); (low_val, 1); (high_val, 1);
                   (high_val, 0); (low_val, 0)] in
  update_span self (λ d, with_vspan (mkPolygon xy_coord (edgecolor (vspan d))) d).

(** [DragSpan.__init__] with the default cursor and span properties.  The
    span enters the store when its attributes are complete; nothing reads
    it before. *)
Definition DragSpan_init (low_pos high_pos : Z) : M nat :=
  w ← get_world;
  let self := length (spans w) in
  modify (λ w, with_spanlist
     (Some (match spanlist w with
            | Some l => l ++ [self]
            | None => [self]
            end)) w) ;;
  lo ← DragCursor_init low_pos vertspan "interact";
  hi ← DragCursor_init high_pos vertspan "interact";
  update_cursor lo (with_spanobj (Some self)) ;;
  update_cursor hi (with_spanobj (Some self)) ;;
  cid ← mpl_connect (span_on_press self);
  modify (λ w, with_spans
     (spans w ++ [mkSpan "r" lo hi
                    (mkPolygon [(low_pos, 0); (low_pos, 1);
                                (high_pos, 1); (high_pos, 0)] "r")
                    cid]) w) ;;
  mret self.

(** As for [placecursor], the positions computed from the limits stand
    for those of the library. *)
Definition placespan (pos : span_pos) : M nat :=
  w ← get_world;
  let axspan := (xlim w).2 - (xlim w).1 in
  let divfact := 6 in
  let limfrac := axspan / divfact in
  let '(low_pos, high_pos) :=
    match pos with
    | span_between lo hi => (lo, hi)
    | span_center =>
        let axcenter := (xlim w).1 + axspan / 2 in
        (axcenter - limfrac, axcenter + limfrac)
    | span_around x => (x - limfrac / 2, x + limfrac / 2)
    end in
  DragSpan_init low_pos high_pos.

Definition DragSpan_set_color (self : nat) (k : string) : M unit :=
  update_span self (with_span_color k) ;;
  d ← span_at self;
  DragCursor_set_color (span_low d) k ;;
  DragCursor_set_color (span_high d) k ;;
  update_span self (λ d, with_vspan (mkPolygon (xy (vspan d)) k) d).

Definition DragSpan_get_color (self : nat) : M string :=
  d ← span_at self; mret (span_color d).

Definition DragSpan_set_tag (self : nat) (tag_str : pyval) : M unit :=
  d ← span_at self;
  DragCursor_set_tag (span_low d) tag_str ;;
  DragCursor_set_tag (span_high d) tag_str.

Definition DragSpan_delspan (self : nat) : M unit :=
  d ← span_at self;
  remcur [span_low d] ;;
  remcur [span_high d] ;;
  sl ← ax_spanlist;                (* after self.vspan.remove() *)
  match list_remove self sl with
  | None => raise ValueError
  | Some sl' => modify (with_spanlist (Some sl'))
  end ;;
  mpl_disconnect (span_cidpress d).

(** ** Event handlers *)

(** [event.inaxes != self.cline.axes] fails: the pointer is in the axes
    of the cursor. *)
Definition in_this_axes (event : MouseEvent) : bool :=
  match inaxes event with
  | Some this_axes => true
  | _ => false
  end.

Definition DragCursor_on_press (self : nat) (event : MouseEvent) : M unit :=
  c ← cursor_at self;
  if negb (in_this_axes event) then mret tt
  else if String.eqb (mode c) "fixed" then mret tt
  else
    w ← get_world;
    match navigate_mode w with
    | Some _ => mret tt
    | None =>
        if negb (bool_decide (self ∈ on_lines event)) then mret tt
        else
          let x0 := line_x (cline c) in
          let y0 := 0 in
          update_cursor self
            (with_press (Some (x0, y0, xdata event, ydata event))) ;;
          if (button event =? 3) && negb (is_vertspan (orient c))
          then remcur [self]
          else mret tt
    end.

Definition DragCursor_on_motion (self : nat) (event : MouseEvent) : M unit :=
  c ← cursor_at self;
  match _press c with
  | None => mret tt
  | Some (x0, y0, xpress, ypress) =>
      if negb (in_this_axes event) then mret tt
      else
        update_cursor self
          (λ c, with_cline (with_line_x (xdata event) (cline c)) c) ;;
        t ← tag_of self;
        update_cursor self (with_tag (Some (with_text_x (xdata event) t))) ;;
        (* self.cline.figure.canvas.draw() *)
        match orient c with
        | vertspan =>
            match spanobj c with
            | Some s => DragSpan_updatespan s
            | None => raise AttributeError
            end
        | vertical => mret tt
        end
  end.

Definition DragCursor_on_release (self : nat) (event : MouseEvent) : M unit :=
  update_cursor self (with_press None).
  (* self.cline.figure.canvas.draw() *)

Definition DragSpan_on_press (self : nat) (event : MouseEvent) : M unit :=
  d ← span_at self;
  if negb (in_this_axes event) then mret tt
  else
    w ← get_world;
    match navigate_mode w with
    | Some _ => mret tt
    | None =>
        lo ← cursor_at (span_low d);
        if String.eqb (mode lo) "fixed" then mret tt
        else if negb (bool_decide (self ∈ on_spans event)) then mret tt
        else if button event =? 3 then DragSpan_delspan self
        else mret tt
    end.

(** ** Functions on the cursors of an axes

    The functions below take the axes as [ax='current'] or as an object;
    the world has the one axes, so the argument only shows where the
    source treats the two cases differently ([curonclick],
    [spanonclick]). *)

Fixpoint getcur_loop (cur_id : N) (cl : list nat) : M (option nat) :=
  match cl with
  | [] => mret None               (* print("Cursor ID not found!") *)
  | ci :: cl' =>
      n ← DragCursor_get_id ci;
      if N.eqb cur_id n then mret (Some ci) else getcur_loop cur_id cl'
  end.

Definition getcur (cur_id : N) : M (option nat) :=
  cl ← ax_curlist;
  getcur_loop cur_id cl.

(** The [cursors] argument of [setcursormode]. *)
Inductive cursor_selection :=
  | all_cursors
  | one_id (n : N)
  | id_seq (l : list N).

Fixpoint select_by_id (ii : N) (cl : list nat) (cur_objs : list nat)
  : M (list nat) :=
  match cl with
  | [] => mret cur_objs
  | cj :: cl' =>
      n ← DragCursor_get_id cj;
      select_by_id ii cl' (if N.eqb ii n then cur_objs ++ [cj] else cur_objs)
  end.

Fixpoint select_ids (ids : list N) (cur_objs : list nat) : M (list nat) :=
  match ids with
  | [] => mret cur_objs
  | ii :: ids' =>
      cl ← ax_curlist;
      cur_objs' ← select_by_id ii cl cur_objs;
      select_ids ids' cur_objs'
  end.

Definition setcursormode (cur_mode : string) (cursors : cursor_selection)
  : M unit :=
  let cursors :=
    match cursors with
    | one_id n => id_seq [n]
    | c => c
    end in
  cur_objs ←
    match cursors with
    | all_cursors => ax_curlist
    | id_seq [] => raise IndexError          (* cursors[0] *)
    | id_seq ids => select_ids ids []
    | one_id _ => mret []
    end;
  for_each cur_objs (λ ci, DragCursor_set_mode ci cur_mode).

(** The [cur] argument of [setcurtag]. *)
Inductive curtag_target :=
  | by_text (s : string)
  | by_id (n : N)
  | by_object (h : nat).

Definition setnewname (cur_obj : nat) (new_str : string) (keep_id : bool)
  : M unit :=
  old_str ← tag_get_text cur_obj;
  new_str ←
    (if keep_id then
       match re_search old_str with
       | None => raise AttributeError
       | Some (_, g, _) => mret (new_str +:+ group0 g)
       end
     else mret new_str);
  tag_set_text cur_obj new_str.

Fixpoint setcurtag_by_text (cur : string) (cl : list nat)
    (cur_obj_list : list nat) : M (list nat) :=
  match cl with
  | [] => mret cur_obj_list
  | ci :: cl' =>
      s ← tag_get_text ci;
      setcurtag_by_text cur cl'
        (if String.eqb cur s then cur_obj_list ++ [ci] else cur_obj_list)
  end.

Fixpoint setcurtag_by_id (cur : N) (cl : list nat) (cur_obj : option nat)
  : M (option nat) :=
  match cl with
  | [] => mret cur_obj
  | ci :: cl' =>
      ci_tag ← tag_get_text ci;
      match re_search ci_tag with
      | Some (_, g, _) =>
          match py_int g with
          | Some ci_num =>
              setcurtag_by_id cur cl'
                (if N.eqb cur ci_num then Some ci else cur_obj)
          | None => raise ValueError
          end
      | None => setcurtag_by_id cur cl' cur_obj
      end
  end.

(** [setcurtag]; the inner [option] is [None] where the source returns
    early after printing a message. *)
Definition setcurtag (cur : curtag_target) (new_str : string)
    (keep_id : bool) : M unit :=
  found ←
    match cur with
    | by_text s =>
        cl ← ax_curlist;
        cur_obj_list ← setcurtag_by_text s cl [];
        match cur_obj_list with
        | [cur_obj] => mret (Some cur_obj)
        | _ => mret None
        end
    | by_id n =>
        cl ← ax_curlist;
        cur_obj ← setcurtag_by_id n cl None;
        match cur_obj with
        | Some cur_obj => mret (Some cur_obj)
        | None => raise UnboundLocalError
        end
    | by_object h => mret (Some h)
    end;
  match found with
  | None => mret tt
  | Some cur_obj =>
      c ← cursor_at cur_obj;
      match orient c with
      | vertspan =>
          match spanobj c with
          | None => raise AttributeError
          | Some s =>
              d ← span_at s;
              setnewname (span_low d) new_str keep_id ;;
              setnewname (span_high d) new_str keep_id
          end
      | vertical => setnewname cur_obj new_str keep_id
      end
  end.

(** ** Saving and loading *)

(** A row of the table of [savecurinfo]. *)
Record Row := mkRow {
  row_id : N;
  row_tag : pyval;
  row_xpos : Z;
  row_type : string;
  row_mode : string;
  row_color : string
}.

Definition cur_props (ci : nat) : M Row :=
  xpos ← DragCursor_get_xpos ci;
  k ← DragCursor_get_color ci;
  t ← DragCursor_get_tag ci;
  n ← DragCursor_get_id ci;
  c ← cursor_at ci;
  mret (mkRow n (PyStr t) xpos (orient_name (orient c)) (mode c) k).

Fixpoint collect_props (cl : list nat) (cur_prop_df : list Row)
  : M (list Row) :=
  match cl with
  | [] => mret cur_prop_df
  | ci :: cl' =>
      r ← cur_props ci;
      collect_props cl' (cur_prop_df ++ [r])
  end.

Definition id_le (r1 r2 : Row) : Prop := (row_id r1 ≤ row_id r2)%N.

Global Instance id_le_dec r1 r2 : Decision (id_le r1 r2).
Proof. unfold id_le. apply _. Defined.

(** [savecurinfo] returns the table it writes.  Selecting the columns of
    a table without rows is a KeyError; [sort(columns='id')] orders the
    rows by ID. *)
Definition savecurinfo : M (list Row) :=
  cl ← ax_curlist;
  cur_prop_df ← collect_props cl [];
  match cur_prop_df with
  | [] => raise KeyError
  | _ => mret (merge_sort id_le cur_prop_df)
  end.

Definition initcur (cur_obj : nat) (row : Row) : M nat :=
  DragCursor_set_mode cur_obj (row_mode row) ;;
  DragCursor_set_color cur_obj (row_color row) ;;
  DragCursor_set_tag cur_obj (row_tag row) ;;
  mret cur_obj.

(** The loop of [loadcurinfo]; [last_row] is [None] for the empty
    [pd.Series()]. *)
Fixpoint load_rows (rows : list Row) (last_row : option Row) : M unit :=
  match rows with
  | [] => mret tt
  | row :: rows' =>
      if String.eqb (row_type row) "vertical" then
        cur_obj ← placecursor (at_x (row_xpos row));
        initcur cur_obj row ;;
        load_rows rows' last_row
      else if String.eqb (row_type row) "vertspan" then
        match last_row with
        | None => load_rows rows' (Some row)
        | Some last =>
            let low_cur := row_xpos last in
            let high_cur := row_xpos row in
            span_obj ← placespan (span_between low_cur high_cur);
            DragSpan_set_color span_obj (row_color row) ;;
            d ← span_at span_obj;
            initcur (span_low d) last ;;
            initcur (span_high d) row ;;
            load_rows rows' None
        end
      else load_rows rows' last_row
  end.

(** [loadcurinfo] applied to the table [pd.read_csv] reads from the file.
    What the reader makes of a file is the library's business (a tag may
    come back as a number or as a missing value, which is [PyOther]): the
    table read is not taken to be the table [savecurinfo] wrote. *)
Definition loadcurinfo (cur_df : list Row) : M (list Row) :=
  load_rows cur_df None ;;
  mret cur_df.

(** ** Placing cursors and spans with the mouse *)

Definition curonclick_handler (event : MouseEvent) : M unit :=
  match inaxes event with
  | Some _ =>
      if button event =? 2
      then placecursor (at_x (xdata event)) ;; mret tt
      else mret tt
  | None => mret tt
  end.

Definition spanonclick_handler (event : MouseEvent) : M unit :=
  match inaxes event with
  | Some _ =>
      if button event =? 2
      then placespan (span_around (xdata event)) ;; mret tt
      else mret tt
  | None => mret tt
  end.

(** The local variable [fig] of [curonclick] and [spanonclick] is
    assigned in the branch of [ax == 'current'] only. *)
Definition bind_fig (ax : ax_arg) : option unit :=
  match ax with
  | current => Some tt
  | given_axes => None
  end.

(** Reading the local variable [fig]. *)
Definition read_fig (fig : option unit) : M unit :=
  match fig with
  | Some _ => mret tt
  | None => raise UnboundLocalError
  end.

Definition arm_onclick (ax : ax_arg) (onclick : callback) : M unit :=
  let fig := bind_fig ax in
  read_fig fig ;;                  (* hasattr(fig, 'cidpress') *)
  w ← get_world;
  match fig_cidpress w with
  | Some cid => mpl_disconnect cid
  | None => mret tt
  end ;;
  read_fig fig ;;
  cid ← mpl_connect onclick;
  modify (with_fig_cidpress (Some cid)).

Definition spanonclick (ax : ax_arg) : M unit :=
  arm_onclick ax spanonclick_onclick.

Definition curonclick (ax : ax_arg) : M unit :=
  arm_onclick ax curonclick_onclick.

(** ** The canvas delivers events *)

Inductive event_name :=
  | button_press_event
  | button_release_event
  | motion_notify_event.

Global Instance event_name_eq_dec : EqDecision event_name.
Proof. solve_decision. Defined.

(** The event a callback was connected to. *)
Definition connected_to (cb : callback) : event_name :=
  match cb with
  | cursor_on_press _ | span_on_press _
  | curonclick_onclick | spanonclick_onclick => button_press_event
  | cursor_on_release _ => button_release_event
  | cursor_on_motion _ => motion_notify_event
  end.

Definition call (cb : callback) (event : MouseEvent) : M unit :=
  match cb with
  | cursor_on_press h => DragCursor_on_press h event
  | cursor_on_release h => DragCursor_on_release h event
  | cursor_on_motion h => DragCursor_on_motion h event
  | span_on_press s => DragSpan_on_press s event
  | curonclick_onclick => curonclick_handler event
  | spanonclick_onclick => spanonclick_handler event
  end.

(** [canvas.callbacks.process(s, event)]: the callbacks connected to [s]
    when the event arrives are called in the order of their ids. *)
Definition process (s : event_name) (event : MouseEvent) : M unit :=
  w ← get_world;
  for_each (filter (λ p, connected_to p.2 = s) (callbacks w))
           (λ p, call p.2 event).

(** ** Further functions of the module *)

(** [DragSpan.get_tag]: the tag of the low cursor is read into a local
    variable, and the method ends without a [return]. *)
Definition DragSpan_get_tag (self : nat) : M (option string) :=
  d ← span_at self;
  tag_str ← DragCursor_get_tag (span_low d);
  mret None.

(** [sub_str in s] for two strings. *)
Fixpoint py_in (sub_str s : string) : bool :=
  String.prefix sub_str s ||
  match s with
  | EmptyString => false
  | String _ s' => py_in sub_str s'
  end.

(** [getcurpos(ax, sub_str)] *)
Fixpoint getcurpos_loop (sub_str : string) (cl : list nat) (cur_pos : list Z)
  : M (list Z) :=
  match cl with
  | [] => mret cur_pos
  | ci :: cl' =>
      s ← tag_get_text ci;
      if py_in sub_str s
      then x ← DragCursor_get_xpos ci;
           getcurpos_loop sub_str cl' (cur_pos ++ [x])
      else getcurpos_loop sub_str cl' cur_pos
  end.

Definition getcurpos (sub_str : string) : M (list Z) :=
  cl ← ax_curlist;
  getcurpos_loop sub_str cl [].

(** ** Vocabulary of the statements *)

(** A string of decimal digits, not empty: what [\d+] matches. *)
Fixpoint all_digits (s : string) : bool :=
  match s with
  | EmptyString => true
  | String a s' => is_digit a && all_digits s'
  end.

Definition is_number (s : string) : Prop :=
  s ≠ EmptyString ∧ all_digits s = true.

(** The ID a text carries: the number of its first [(digits)] token. *)
Definition parse_id (s : string) : option N :=
  match re_search s with
  | Some (_, g, _) => py_int g
  | None => None
  end.

(** The world where cursor [h] is [c], and the world where span [s] is
    [d]. *)
Definition set_cursor (h : nat) (c : DragCursor) (w : World) : World :=
  with_cursors (<[h := c]> (cursors w)) w.

Definition set_span (s : nat) (d : DragSpan) (w : World) : World :=
  with_spans (<[s := d]> (spans w)) w.

(** The text of a cursor's tag, and the ID it carries. *)
Definition tag_text (c : DragCursor) : option string := text <$> tag c.

Definition cursor_id (c : DragCursor) : option N := tag_text c ≫= parse_id.

(** The cursor list of the axes, empty while the attribute is missing. *)
Definition curlist_of (w : World) : list nat := default [] (curlist w).

Definition spanlist_of (w : World) : list nat := default [] (spanlist w).

(** The IDs [initag] finds in the tags of the cursors [cl]. *)
Definition existing_ids (w : World) (cl : list nat) : list N :=
  omap (λ h, cursors w !! h ≫= cursor_id) cl.

(** Every handle of the cursor list denotes a cursor of the store. *)
Definition store_ok (w : World) : Prop :=
  Forall (λ h, h < length (cursors w))%nat (curlist_of w).

(** The cursor a constructor call leaves in the store, its callbacks, and
    the world after the call. *)
Definition new_cursor (pos : Z) (o : orientation) (m tagstr : string)
    (cid : nat) : DragCursor :=
  mkCursor m o "r" (mkLine pos "--" "r") (Some (mkText tagstr pos "r"))
           None None cid (S cid) (S (S cid)).

Definition cursor_callbacks (h cid : nat) : list (nat * callback) :=
  [(cid, cursor_on_press h); (S cid, cursor_on_release h);
   (S (S cid), cursor_on_motion h)].

Definition after_init (pos : Z) (o : orientation) (m : string) (w : World)
  : World :=
  let h := length (cursors w) in
  mkWorld (Some (curlist_of w ++ [h])) (spanlist w)
    (cursors w ++
       [new_cursor pos o m (new_tagstr (existing_ids w (curlist_of w)))
          (next_cid w)])
    (spans w) (navigate_mode w) (xlim w) (fig_cidpress w)
    (callbacks w ++ cursor_callbacks h (next_cid w))
    (3 + next_cid w)%nat.

(** The world after [DragSpan.__init__]. *)
Definition after_span_init (low_pos high_pos : Z) (w : World) : World :=
  let s := length (spans w) in
  let lo := length (cursors w) in
  let hi := S lo in
  let cid := next_cid w in
  let w1 := after_init low_pos vertspan "interact" w in
  let clo := new_cursor low_pos vertspan "interact"
               (new_tagstr (existing_ids w (curlist_of w))) cid in
  let chi := new_cursor high_pos vertspan "interact"
               (new_tagstr (existing_ids w1 (curlist_of w1))) (3 + cid)%nat in
  mkWorld (Some (curlist_of w ++ [lo; hi]))
    (Some (spanlist_of w ++ [s]))
    (cursors w ++ [with_spanobj (Some s) clo; with_spanobj (Some s) chi])
    (spans w ++
       [mkSpan "r" lo hi
          (mkPolygon [(low_pos, 0); (low_pos, 1);
                      (high_pos, 1); (high_pos, 0)] "r")
          (6 + cid)%nat])
    (navigate_mode w) (xlim w) (fig_cidpress w)
    (callbacks w ++ cursor_callbacks lo cid
       ++ cursor_callbacks hi (3 + cid)%nat
       ++ [((6 + cid)%nat, span_on_press s)])
    (7 + cid)%nat.

(** [nextDisplayId] of the specification: the largest ID plus one, or 1
    without IDs. *)
Definition nextDisplayId (existingIds : list N) : N :=
  match existingIds with
  | [] => 1
  | _ => max_id existingIds + 1
  end%N.

(** The display IDs of the cursor list, when every tag carries one. *)
Definition display_ids (w : World) : option (list N) :=
  mapM (λ h, cursors w !! h ≫= cursor_id) (curlist_of w).

(** Placing cursors and spans, one call after the other. *)
Inductive placement :=
  | place_cursor (pos : cursor_pos)
  | place_span (pos : span_pos).

Definition place (p : placement) : M unit :=
  match p with
  | place_cursor pos => placecursor pos ;; mret tt
  | place_span pos => placespan pos ;; mret tt
  end.



(** The states of the drag machine of a cursor: [DRAGGING] while
    [_press] holds a capture. *)
Inductive drag_state := IDLE | DRAGGING.

Definition state_of (c : DragCursor) : drag_state :=
  match _press c with
  | None => IDLE
  | Some _ => DRAGGING
  end.

(** A cursor whose tag has lost its ID: [setcurtag] with [keep_id=False]
    on a new cursor. *)
Definition renamed_without_id : World :=
  ((placecursor (at_x 0) ;; setcurtag (by_object 0) "abc" false) new_axes).2.

(** The world after the three callbacks of cursor [c] are disconnected. *)
Definition without_callbacks (c : DragCursor) (w : World) : World :=
  with_callbacks
    (filter (λ p, p.1 ≠ cidmotion c)
       (filter (λ p, p.1 ≠ cidrelease c)
          (filter (λ p, p.1 ≠ cidpress c) (callbacks w))))
    (next_cid w) w.

(** The drag capture a press at [event] records for cursor [c]. *)
Definition pressed (event : MouseEvent) (c : DragCursor) : DragCursor :=
  with_press (Some (line_x (cline c), 0, xdata event, ydata event)) c.

(** The cursor [c] with tag [t] moved to [x]. *)
Definition moved (x : Z) (t : TextBox) (c : DragCursor) : DragCursor :=
  with_tag (Some (with_text_x x t)) (with_cline (with_line_x x (cline c)) c).

(** The extent of a polygon on the x axis: the bounds of the filled
    region. *)
Definition polygon_bounds (p : Polygon) : option (Z * Z) :=
  match xy p with
  | [] => None
  | (x, _) :: l => Some (foldr Z.min x (l.*1), foldr Z.max x (l.*1))
  end.

(** The position of a cursor. *)
Definition position (c : DragCursor) : Z := line_x (cline c).

(** The polygon [updatespan] gives a span with cursors at [lo], [hi]. *)
Definition updated_vspan (lo hi : Z) (d : DragSpan) : DragSpan :=
  with_vspan
    (mkPolygon [(lo, 0); (lo, 1); (hi, 1); (hi, 0); (lo, 0)]
               (edgecolor (vspan d))) d.

(** A new axes with one span from 2 to 8, and a right-button press on
    the line of its low cursor. *)
Definition one_span : World := after_span_init 2 8 new_axes.

Definition right_press_on_low : MouseEvent :=
  mkEvent (Some this_axes) 3 2 0 [0%nat] [].

Definition motion_to (x : Z) : MouseEvent :=
  mkEvent (Some this_axes) 3 x 0 [] [].

(** The invariants of a registry (cursor list and span list of an axes):
    no object is listed twice, every cursor of the list has a tag with an
    ID and the IDs are distinct, and the two cursors of a listed span are
    two different cursors of the list. *)
Record registry_ok (w : World) : Prop := {
  reg_curlist : NoDup (curlist_of w);
  reg_spanlist : NoDup (spanlist_of w);
  reg_ids : ∃ ids, display_ids w = Some ids ∧ NoDup ids;
  reg_spans : ∀ s, s ∈ spanlist_of w →
    ∃ d, spans w !! s = Some d ∧
         span_low d ∈ curlist_of w ∧ span_high d ∈ curlist_of w ∧
         span_low d ≠ span_high d
}.

(** A new axes with a cursor at 0 and a span from -3 to 3. *)
Definition cursor_and_span : World :=
  after_span_init (-3) 3 (after_init 0 vertical "interact" new_axes).

(** What the setters do to a cursor object: [set_mode], [set_color] (for
    a cursor with tag [t]), [set_tag] (for a tag [t] whose ID token has
    the digits [g]), and the three in a row as in [initcur]. *)
Definition mode_set (m : string) (c : DragCursor) : DragCursor :=
  if String.eqb m "interact"
  then with_cline (with_line_ls "--" (cline c)) (with_mode m c)
  else if String.eqb m "fixed"
  then with_cline (with_line_ls "-." (cline c)) (with_mode m c)
  else with_mode m c.

Definition color_set (k : string) (t : TextBox) (c : DragCursor)
  : DragCursor :=
  with_tag (Some (with_text_color k t))
    (with_cline (with_line_color k (cline c)) (with_color k c)).

Definition new_tag (v : pyval) (g : string) : string :=
  match v with
  | PyStr s => s +:+ group0 g
  | PyOther => group0 g
  end.

Definition tag_set (v : pyval) (g : string) (t : TextBox) (c : DragCursor)
  : DragCursor :=
  with_tag (Some (with_text (new_tag v g) t)) c.

Definition initcur_set (row : Row) (g : string) (t : TextBox)
    (c : DragCursor) : DragCursor :=
  tag_set (row_tag row) g (with_text_color (row_color row) t)
    (color_set (row_color row) t (mode_set (row_mode row) c)).

(** Rows of type ['vertspan'], and a table without its last such row. *)
Definition is_span_row (r : Row) : bool := String.eqb (row_type r) "vertspan".

Definition is_cursor_row (r : Row) : bool := String.eqb (row_type r) "vertical".

(** A row whose type [loadcurinfo] knows. *)
Definition known_type (r : Row) : bool := is_cursor_row r || is_span_row r.

Definition span_rows (rows : list Row) : list Row :=
  filter (λ r, is_span_row r = true) rows.

Fixpoint without_last_span_row (rows : list Row) : list Row :=
  match rows with
  | [] => []
  | row :: rows' =>
      if is_span_row row
      then match span_rows rows' with
           | [] => rows'
           | _ => row :: without_last_span_row rows'
           end
      else row :: without_last_span_row rows'
  end.

(** A table with one row, of type ['vertspan']. *)
Definition lone_span_row : list Row :=
  [mkRow 1 (PyStr "") 5 "vertspan" "interact" "r"].

(** The digits of the ID the next new cursor of [w] gets. *)
Definition next_digits (w : World) : string :=
  py_str (nextDisplayId (existing_ids w (curlist_of w))).

(** The world after [loadcurinfo] has dealt with a row of type
    ['vertical']: a cursor at the end of the store and of the cursor
    list, set up from the row. *)
Definition loaded_cursor (row : Row) (w : World) : World :=
  let w1 := after_init (row_xpos row) vertical "interact" w in
  let tagstr := new_tagstr (existing_ids w (curlist_of w)) in
  with_cursors
    (cursors w ++
       [initcur_set row (next_digits w) (mkText tagstr (row_xpos row) "r")
          (new_cursor (row_xpos row) vertical "interact" tagstr (next_cid w))])
    w1.

(** The world after [loadcurinfo] has dealt with the second row [row] of a
    pair of type ['vertspan'], [last] being the first: a span, its two
    cursors set up from their rows, the color of the span from [row]. *)
Definition loaded_span (last row : Row) (w : World) : World :=
  let s := length (spans w) in
  let k := row_color row in
  let w1 := after_init (row_xpos last) vertspan "interact" w in
  let w2 := after_span_init (row_xpos last) (row_xpos row) w in
  let tag_lo := new_tagstr (existing_ids w (curlist_of w)) in
  let tag_hi := new_tagstr (existing_ids w1 (curlist_of w1)) in
  let t_lo := mkText tag_lo (row_xpos last) "r" in
  let t_hi := mkText tag_hi (row_xpos row) "r" in
  let c_lo := with_spanobj (Some s)
                (new_cursor (row_xpos last) vertspan "interact" tag_lo
                   (next_cid w)) in
  let c_hi := with_spanobj (Some s)
                (new_cursor (row_xpos row) vertspan "interact" tag_hi
                   (3 + next_cid w)%nat) in
  with_spans
    (spans w ++
       [mkSpan k (length (cursors w)) (S (length (cursors w)))
          (mkPolygon [(row_xpos last, 0); (row_xpos last, 1);
                      (row_xpos row, 1); (row_xpos row, 0)] k)
          (6 + next_cid w)%nat])
    (with_cursors
       (cursors w ++
          [initcur_set last (next_digits w) (with_text_color k t_lo)
             (color_set k t_lo c_lo);
           initcur_set row (next_digits w1) (with_text_color k t_hi)
             (color_set k t_hi c_hi)])
       w2).

(** The world after the loop of [loadcurinfo] over [rows], entered with
    [last_row]. *)
Fixpoint loaded (rows : list Row) (last_row : option Row) (w : World)
  : World :=
  match rows with
  | [] => w
  | row :: rows' =>
      if is_cursor_row row then loaded rows' last_row (loaded_cursor row w)
      else if is_span_row row then
        match last_row with
        | None => loaded rows' (Some row) w
        | Some last => loaded rows' None (loaded_span last row w)
        end
      else loaded rows' last_row w
  end.

(** The cursor a callback belongs to. *)
Definition target (cb : callback) : option nat :=
  match cb with
  | cursor_on_press h | cursor_on_release h | cursor_on_motion h => Some h
  | _ => None
  end.

(** The canvas delivers a sequence of events; an exception in a callback
    ends the delivery of that event, and the event loop goes on. *)
Definition deliver (evs : list (event_name * MouseEvent)) (w : World)
  : World :=
  foldl (λ w ev, (process ev.1 ev.2 w).2) w evs.

(** A callback that can do nothing to the cursors [cs0]: if it belongs
    to one of them, that cursor is in mode ['fixed'] and holds no drag
    capture. *)
Definition harmless (cs0 : list DragCursor) (cb : callback) : Prop :=
  ∀ h, target cb = Some h → (h < length cs0)%nat →
       ∃ c, cs0 !! h = Some c ∧ mode c = "fixed" ∧ _press c = None.

(** The cursors [cs0] are in the store as they were, and every connected
    callback is harmless to them. *)
Definition frozen (cs0 : list DragCursor) (w : World) : Prop :=
  (∀ h c, cs0 !! h = Some c → cursors w !! h = Some c) ∧
  (∀ p, p ∈ callbacks w → harmless cs0 p.2).

(** Running [m] from a world that satisfies [J] ends, by return or by
    exception, in a world that satisfies [J]; a returned value
    satisfies [Q]. *)
Definition keeps {A} (J : World → Prop) (m : M A) (Q : A → Prop) : Prop :=
  ∀ w, J w → J (m w).2 ∧ ∀ a, (m w).1 = Ok a → Q a.

(** ** Vocabulary of saving and loading *)

(** The calls that build a registry: placing cursors and spans, setting
    mode, color and tag of a cursor, color and tag of a span. *)
Inductive action :=
  | do_placecursor (pos : cursor_pos)
  | do_placespan (pos : span_pos)
  | do_set_mode (h : nat) (m : string)
  | do_set_color (h : nat) (k : string)
  | do_set_tag (h : nat) (v : pyval)
  | do_span_set_color (s : nat) (k : string)
  | do_span_set_tag (s : nat) (v : pyval).

Definition perform (a : action) : M unit :=
  match a with
  | do_placecursor pos => placecursor pos ;; mret tt
  | do_placespan pos => placespan pos ;; mret tt
  | do_set_mode h m => DragCursor_set_mode h m
  | do_set_color h k => DragCursor_set_color h k
  | do_set_tag h v => DragCursor_set_tag h v
  | do_span_set_color s k => DragSpan_set_color s k
  | do_span_set_tag s v => DragSpan_set_tag s v
  end.

(** A tag value that holds no [(digits)] token of its own. *)
Definition plain_tag (v : pyval) : Prop :=
  match v with
  | PyStr s => re_search s = None
  | PyOther => True
  end.

(** Two spans, and a tag with a token of its own on the first cursor. *)
Definition two_spans_retagged : list action :=
  [do_placespan (span_between 10 20); do_placespan (span_between 30 40);
   do_set_tag 0 (PyStr "(9)")].

(** The registry these calls leave, the table [savecurinfo] returns for
    it, and the registry [loadcurinfo] builds from the table on a new
    axes. *)
Definition retagged_world : World :=
  (for_each two_spans_retagged perform new_axes).2.

Definition retagged_rows : list Row :=
  match (savecurinfo retagged_world).1 with
  | Ok rows => rows
  | Raise _ => []
  end.

Definition retagged_loaded : World :=
  (loadcurinfo retagged_rows new_axes).2.

(** A cursor and a span, with a name, a color and a mode set. *)
Definition named_session : list action :=
  [do_placecursor (at_x 5); do_placespan (span_between 10 20);
   do_set_tag 0 (PyStr "peak"); do_span_set_color 0 "b";
   do_set_mode 0 "fixed"; do_span_set_tag 0 (PyStr "window")].

Definition named_world : World :=
  (for_each named_session perform new_axes).2.

(** The positions of the low and the high cursor of a span, and those
    of the spans of the span list. *)
Definition span_position (w : World) (s : nat) : option (Z * Z) :=
  d ← spans w !! s;
  lo ← cursors w !! span_low d;
  hi ← cursors w !! span_high d;
  Some (position lo, position hi).

Definition span_positions (w : World) : option (list (Z * Z)) :=
  mapM (span_position w) (spanlist_of w).

(** The elements of a list taken two by two as they come; a last one
    without partner is left out. *)
Fixpoint paired {A} (l : list A) : list (A * A) :=
  match l with
  | a :: b :: l' => (a, b) :: paired l'
  | _ => []
  end.

(** The [k] IDs from [n] on. *)
Fixpoint following (n : N) (k : nat) : list N :=
  match k with
  | O => []
  | S k' => n :: following (n + 1) k'
  end.

(** The cursor object [c] is set up from the row [r]: kind, position,
    mode and color are those of the row, and the text of its tag is the
    tag of the row followed by an ID. *)
Definition set_up_from (r : Row) (c : DragCursor) : Prop :=
  orient_name (orient c) = row_type r ∧ position c = row_xpos r ∧
  mode c = row_mode r ∧ color c = row_color r ∧
  ∃ g, is_number g ∧ tag_text c = Some (new_tag (row_tag r) g).

(** A table with an unpaired row of type ['vertspan'], the fourth, with
    rows before and after it. *)
Definition table_with_unpaired_row : list Row :=
  [mkRow 1 (PyStr "a") 1 "vertical" "fixed" "g";
   mkRow 2 (PyStr "") 10 "vertspan" "interact" "r";
   mkRow 3 (PyStr "") 20 "vertspan" "interact" "r";
   mkRow 4 (PyStr "b") 30 "vertspan" "interact" "b";
   mkRow 5 PyOther 40 "vertical" "interact" "r"].

(** ** Vocabulary of the further properties *)

(** A registry with three cursors with the IDs 1, 2, 3: a cursor at 0 and
    a span from -3 to 3 (see [cursor_and_span]); its cursor with ID 2 is
    the low cursor of the span. *)
Definition three_ids : list N := [1; 2; 3]%N.

(** The ids of the three callbacks of cursor [h]. *)
Definition cids_of (w : World) (h : nat) : list nat :=
  match cursors w !! h with
  | Some c => [cidpress c; cidrelease c; cidmotion c]
  | None => []
  end.

(** The axes without the cursors [cl]: they are off the cursor list and
    their callbacks are disconnected.  The objects stay in the store. *)
Definition without_cursors (cl : list nat) (w : World) : World :=
  with_callbacks
    (filter (λ p, p.1 ∉ cl ≫= cids_of w) (callbacks w)) (next_cid w)
    (with_curlist (filter (λ h, h ∉ cl) <$> curlist w) w).

(** A cursor of the list that [remcur] can remove: it is listed and has a
    tag. *)
Definition removable (w : World) (h : nat) : Prop :=
  h ∈ curlist_of w ∧ ∃ c t, cursors w !! h = Some c ∧ tag c = Some t.

(** Five cursors at 0, 10, 20, 30, 40. *)
Definition five_cursors : World :=
  (for_each [0; 10; 20; 30; 40] (λ x, placecursor (at_x x) ;; mret tt)
     new_axes).2.

(** The string a tag value stands for: [set_tag] takes a value that is
    no string for no tag at all. *)
Definition tag_string (v : pyval) : string :=
  match v with
  | PyStr s => s
  | PyOther => ""
  end.

(** The texts of the tags of the cursor list, when every cursor of the
    list has a tag. *)
Definition tag_texts (w : World) : option (list string) :=
  mapM (λ h, cursors w !! h ≫= tag_text) (curlist_of w).

(** The row [r] shows the cursor object [c]: its ID, its tag without the
    IDs, its position, kind, mode and color. *)
Definition row_shows (r : Row) (c : DragCursor) : Prop :=
  cursor_id c = Some (row_id r) ∧
  PyStr ∘ re_sub <$> tag_text c = Some (row_tag r) ∧
  row_xpos r = position c ∧ row_type r = orient_name (orient c) ∧
  row_mode r = mode c ∧ row_color r = color c.

(** A table with a row of type ['vertical'] between the two rows of a
    span, a row of another type, and an unpaired row of type ['vertspan']
    at its end. *)
Definition mixed_table : list Row :=
  [mkRow 1 (PyStr "a") 10 "vertspan" "interact" "r";
   mkRow 2 (PyStr "peak") 5 "vertical" "fixed" "g";
   mkRow 3 PyOther 20 "vertspan" "interact" "b";
   mkRow 4 (PyStr "") 7 "horizontal" "interact" "r";
   mkRow 5 (PyStr "c") 30 "vertspan" "interact" "r"].

(** A table with a row of type ['horizontal'] between the two rows of a
    span. *)
Definition table_with_stranger : list Row :=
  [mkRow 1 (PyStr "a") 2 "vertspan" "interact" "r";
   mkRow 2 (PyStr "") 5 "horizontal" "interact" "g";
   mkRow 3 (PyStr "a") 8 "vertspan" "interact" "r"].

(** The callbacks of [curonclick] and [spanonclick], and the others. *)
Definition is_onclick (cb : callback) : bool :=
  match cb with
  | curonclick_onclick | spanonclick_onclick => true
  | _ => false
  end.

Definition onclicks (w : World) : list (nat * callback) :=
  filter (λ p, is_onclick p.2 = true) (callbacks w).

Definition other_callbacks (w : World) : list (nat * callback) :=
  filter (λ p, is_onclick p.2 = false) (callbacks w).

(** The canvas has handed out the ids below [next_cid], and
    [fig.cidpress] is the id of the connected [onclick] callbacks and of
    no other callback. *)
Record armed_ok (w : World) : Prop := {
  cids_below : Forall (λ p, p.1 < next_cid w)%nat (callbacks w);
  cidpress_onclick :
    ∀ p, p ∈ callbacks w →
         (is_onclick p.2 = true ↔ fig_cidpress w = Some p.1)
}.

(** The calls that arm the mouse, on the current axes. *)
Inductive arming := arm_cursors | arm_spans.

Definition arm (a : arming) : M unit :=
  match a with
  | arm_cursors => curonclick current
  | arm_spans => spanonclick current
  end.

Definition onclick_of (a : arming) : callback :=
  match a with
  | arm_cursors => curonclick_onclick
  | arm_spans => spanonclick_onclick
  end.

(** The positions of the motion events that arrive in the axes. *)
Definition moves_in_axes (moves : list MouseEvent) : list Z :=
  xdata <$> filter (λ ev, in_this_axes ev = true) moves.

(** The cursor [c] with tag [t] after a drag whose motion events arrived
    at [xs]: it is where the last of them was, and holds no capture. *)
Definition dragged (xs : list Z) (t : TextBox) (c : DragCursor) : DragCursor :=
  with_press None
    (match last xs with
     | Some x => moved x t c
     | None => c
     end).

(** A press of the left button on the line of cursor 0, and motion
    events at 4, outside the axes at 6, and at 7. *)
Definition left_press_on_0 : MouseEvent :=
  mkEvent (Some this_axes) 1 0 0 [0%nat] [].

Definition three_moves : list MouseEvent :=
  [mkEvent (Some this_axes) 1 4 0 [] [];
   mkEvent None 1 6 0 [] [];
   mkEvent (Some this_axes) 1 7 0 [] []].

(** The positions of the cursors of the cursor list. *)
Definition positions (w : World) : option (list Z) :=
  mapM (λ h, position <$> cursors w !! h) (curlist_of w).

(** The positions among [xs] whose text among [ts] contains [sub_str]. *)
Definition positions_with (sub_str : string) (ts : list string)
    (xs : list Z) : list Z :=
  (filter (λ p, py_in sub_str p.1 = true) (zip ts xs)).*2.

(** The object a callback belongs to is in the store (for the callback of
    a span, with the low cursor that its handler reads). *)
Definition target_ok (w : World) (cb : callback) : Prop :=
  match cb with
  | cursor_on_press h | cursor_on_release h | cursor_on_motion h =>
      is_Some (cursors w !! h)
  | span_on_press s =>
      ∃ d, spans w !! s = Some d ∧ is_Some (cursors w !! span_low d)
  | _ => True
  end.

(** What a click of the middle button places, for the armed handler. *)
Definition placed_by (a : arming) (event : MouseEvent) (w w' : World)
  : Prop :=
  match a with
  | arm_cursors => w' = after_init (xdata event) vertical "interact" w
  | arm_spans => ∃ lo hi, w' = after_span_init lo hi w
  end.

(** The axes with a cursor and a span, armed for cursors, and a click of
    the middle button at 6 on no line and no span. *)
Definition armed_world : World := (arm arm_cursors cursor_and_span).2.

Definition middle_click : MouseEvent :=
  mkEvent (Some this_axes) 2 6 0 [] [].

(** * Properties *)

(** ** Text *)

Lemma app_empty (s : string) : EmptyString +:+ s = s.
Proof. reflexivity. Qed.

Lemma app_String a (s t : string) : String a s +:+ t = String a (s +:+ t).
Proof. reflexivity. Qed.

Lemma app_app (s t u : string) : (s +:+ t) +:+ u = s +:+ (t +:+ u).
Proof.
  induction s as [|a s IH]; [reflexivity|]. rewrite !app_String. congruence.
Qed.

Lemma app_empty_r (s : string) : s +:+ EmptyString = s.
Proof.
  induction s as [|a s IH]; [reflexivity|]. rewrite app_String. congruence.
Qed.

Ltac str_norm :=
  repeat (rewrite app_String || rewrite app_empty || rewrite app_app).

Lemma string_of_uint_digits d : all_digits (NilEmpty.string_of_uint d) = true.
Proof. induction d; simpl; auto. Qed.

Lemma py_str_number n : is_number (py_str n).
Proof.
  split; [|apply string_of_uint_digits].
  unfold py_str. destruct n as [|p]; [discriminate|].
  simpl. pose proof (DecimalPos.Unsigned.to_uint_nonnil p) as H.
  destruct (Pos.to_uint p); try discriminate; congruence.
Qed.

Lemma py_int_py_str n : py_int (py_str n) = Some n.
Proof.
  destruct (py_str_number n) as [Hne _]. unfold py_int.
  destruct (py_str n) eqn:E; [congruence|]. rewrite <- E. unfold py_str.
  rewrite NilEmpty.usu. simpl. f_equal. apply DecimalN.Unsigned.of_to.
Qed.

Lemma span_digits_app g r :
  all_digits g = true →
  (∀ a r', r = String a r' → is_digit a = false) →
  span_digits (g +:+ r) = (g, r).
Proof.
  intros Hg Hr. induction g as [|a g IH].
  - rewrite app_empty. destruct r as [|a r']; [reflexivity|].
    simpl. rewrite (Hr a r' eq_refl). reflexivity.
  - rewrite app_String. simpl in *.
    apply andb_prop in Hg as [Ha Hg]. rewrite Ha, (IH Hg). reflexivity.
Qed.

Lemma span_digits_spec s ds r :
  span_digits s = (ds, r) →
  s = ds +:+ r ∧ all_digits ds = true ∧
  (∀ a r', r = String a r' → is_digit a = false).
Proof.
  revert ds r. induction s as [|a s IH]; simpl; intros ds r H.
  - injection H as <- <-. repeat split; congruence.
  - destruct (is_digit a) eqn:Ha.
    + destruct (span_digits s) as [ds' r'] eqn:E. injection H as <- <-.
      destruct (IH _ _ eq_refl) as (-> & Hd & Hr).
      rewrite app_String. simpl. rewrite Ha. auto.
    + injection H as <- <-. rewrite app_empty. repeat split.
      intros b r' [= <- _]. exact Ha.
Qed.

Lemma match_here_group0 g r :
  is_number g → match_here (group0 g +:+ r) = Some (g, r).
Proof.
  intros [Hne Hg]. unfold group0. str_norm. simpl.
  rewrite span_digits_app; auto.
  - destruct g; [congruence|reflexivity].
  - intros a r' [= <- _]. reflexivity.
Qed.

Lemma match_here_spec s g r :
  match_here s = Some (g, r) → s = group0 g +:+ r ∧ is_number g.
Proof.
  unfold match_here. destruct s as [|a s]; [done|].
  destruct (Ascii.ascii_dec a "(") as [->|Hne].
  - destruct (span_digits s) as [ds r'] eqn:E.
    destruct (span_digits_spec _ _ _ E) as (-> & Hd & _).
    destruct ds as [|d ds]; [done|]. destruct r' as [|b r']; [done|].
    destruct (Ascii.ascii_dec b ")") as [->|Hb].
    + intros [= <- <-]. split; [|split; [done|exact Hd]].
      unfold group0. str_norm. reflexivity.
    + intros H. exfalso. revert H.
      destruct b as [[] [] [] [] [] [] [] []]; try done.
  - intros H. exfalso. revert H.
    destruct a as [[] [] [] [] [] [] [] []]; try done.
Qed.

Lemma re_search_unfold s :
  re_search s =
  match match_here s with
  | Some (g, r) => Some (EmptyString, g, r)
  | None =>
      match s with
      | EmptyString => None
      | String a s' =>
          match re_search s' with
          | Some (p, g, r) => Some (String a p, g, r)
          | None => None
          end
      end
  end.
Proof. destruct s; reflexivity. Qed.

Lemma re_search_group0 g r :
  is_number g → re_search (group0 g +:+ r) = Some (EmptyString, g, r).
Proof.
  intros Hg. rewrite re_search_unfold, match_here_group0 by done. reflexivity.
Qed.

(** What [re.search] finds is a token of the text. *)
Lemma re_search_spec s p g r :
  re_search s = Some (p, g, r) →
  s = p +:+ group0 g +:+ r ∧ is_number g ∧ re_search p = None.
Proof.
  revert p. induction s as [|a s IH]; intros p; rewrite re_search_unfold.
  - simpl. done.
  - destruct (match_here (String a s)) as [[g' r']|] eqn:E.
    + intros [= <- <- <-]. apply match_here_spec in E as [-> Hg].
      rewrite app_empty. done.
    + destruct (re_search s) as [[[p' g'] r']|] eqn:Es; [|done].
      intros [= <- <- <-]. destruct (IH _ eq_refl) as (Hs & Hg & Hp).
      split; [|split; [done|]].
      * rewrite app_String. congruence.
      * rewrite re_search_unfold, Hp.
        destruct (match_here (String a p')) as [[g1 r1]|] eqn:E1; [|done].
        exfalso. apply match_here_spec in E1 as [E1 Hg1].
        assert (match_here (String a s) = Some (g1, r1 +:+ group0 g' +:+ r'))
          as E2; [|congruence].
        rewrite Hs, <- app_String, E1, app_app. by apply match_here_group0.
Qed.

Lemma re_search_number s p g r : re_search s = Some (p, g, r) → is_number g.
Proof. intros H. by apply re_search_spec in H as (_ & ? & _). Qed.

Lemma py_int_number g : is_number g → ∃ n, py_int g = Some n.
Proof.
  intros [Hne Hg]. unfold py_int. destruct g as [|a g]; [done|].
  assert (∃ u, NilEmpty.uint_of_string (String a g) = Some u) as [u ->];
    [|by eexists].
  clear Hne. revert Hg. generalize (String a g). clear.
  induction s as [|a s IH]; simpl; [by eexists|].
  intros [Ha Hs]%andb_prop. destruct (IH Hs) as [u ->].
  destruct a as [[] [] [] [] [] [] [] []]; try done; by eexists.
Qed.

Lemma parse_id_group0 n r : parse_id (group0 (py_str n) +:+ r) = Some n.
Proof.
  unfold parse_id. rewrite re_search_group0 by apply py_str_number.
  apply py_int_py_str.
Qed.

Lemma digits_prefix g p x y :
  all_digits g = true →
  p +:+ String "(" x = g +:+ String ")" y →
  ∃ p', p = g +:+ String ")" p'.
Proof.
  revert p. induction g as [|d g IH]; intros p Hg E.
  - rewrite app_empty in *. destruct p as [|b p]; [done|].
    rewrite app_String in E. injection E as -> _. by eexists.
  - simpl in Hg. apply andb_prop in Hg as [Hd Hg].
    destruct p as [|b p].
    + rewrite app_empty, app_String in E. injection E as <- _. done.
    + rewrite !app_String in E. injection E as -> E.
      destruct (IH _ Hg E) as [p' ->]. exists p'. by rewrite app_String.
Qed.

Lemma match_here_app_None a p g r :
  match_here (String a p) = None →
  match_here (String a p +:+ group0 g +:+ r) = None.
Proof.
  intros Hp.
  destruct (match_here (String a p +:+ group0 g +:+ r))
    as [[g1 r1]|] eqn:E; [|done].
  exfalso. apply match_here_spec in E as [E [Hne Hg1]].
  unfold group0 in E. revert E. str_norm. intros [= -> E].
  destruct (digits_prefix _ _ _ _ Hg1 E) as [p' ->].
  assert (match_here (group0 g1 +:+ p') = Some (g1, p')) as E'
    by by apply match_here_group0.
  revert E'. unfold group0. str_norm. congruence.
Qed.

(** A text without token, followed by a token: the token is the one
    [re.search] finds. *)
Lemma re_search_app p g r :
  re_search p = None → is_number g →
  re_search (p +:+ group0 g +:+ r) = Some (p, g, r).
Proof.
  intros Hp Hg. induction p as [|a p IH].
  - rewrite app_empty. by apply re_search_group0.
  - rewrite re_search_unfold in Hp.
    destruct (match_here (String a p)) as [[]|] eqn:E; [done|].
    destruct (re_search p) as [[[]]|] eqn:Ep; [done|].
    rewrite re_search_unfold, match_here_app_None by done.
    rewrite app_String, IH by done. reflexivity.
Qed.

Lemma str_length_app (s t : string) :
  String.length (s +:+ t) = (String.length s + String.length t)%nat.
Proof. induction s; str_norm; simpl; congruence. Qed.

Lemma re_sub_from_skip s t :
  re_sub_from (String.length s) (s +:+ t) = re_sub_from 0 t.
Proof. induction s; str_norm; simpl; auto. Qed.

(** [re.sub] deletes a match at the head and goes on after it; it keeps
    a character no match starts at. *)
Lemma re_sub_match s g r :
  match_here s = Some (g, r) → re_sub s = re_sub r.
Proof.
  intros H. destruct (match_here_spec _ _ _ H) as [-> Hg].
  assert (group0 g +:+ r = String "(" ((g +:+ ")") +:+ r)) as E
    by (unfold group0; by str_norm).
  rewrite E in *. unfold re_sub. cbn [re_sub_from]. rewrite H.
  rewrite <- (re_sub_from_skip (g +:+ ")") r).
  by rewrite str_length_app, Nat.add_1_r.
Qed.

Lemma re_sub_keep a s :
  match_here (String a s) = None →
  re_sub (String a s) = String a (re_sub s).
Proof. intros H. unfold re_sub. cbn [re_sub_from]. by rewrite H. Qed.

Lemma re_sub_empty : re_sub EmptyString = EmptyString.
Proof. reflexivity. Qed.

Lemma re_sub_app p g :
  re_search p = None → is_number g → re_sub (p +:+ group0 g) = p.
Proof.
  intros Hp Hg. induction p as [|a p IH].
  - rewrite app_empty.
    rewrite (re_sub_match _ g EmptyString); [reflexivity|].
    rewrite <- (match_here_group0 g EmptyString Hg).
    by rewrite app_empty_r.
  - rewrite re_search_unfold in Hp.
    destruct (match_here (String a p)) as [[]|] eqn:E; [done|].
    destruct (re_search p) as [[[]]|] eqn:Ep; [done|].
    rewrite app_String, re_sub_keep, IH; [done..|].
    rewrite <- app_String.
    rewrite <- (match_here_app_None a p g EmptyString E).
    by rewrite app_empty_r.
Qed.

(** ** Running computations *)

Ltac mrun :=
  cbv beta iota delta
    [mbind M_bind mret M_ret raise get_world modify cursor_at span_at
     update_cursor update_span ax_curlist ax_spanlist tag_of tag_get_text
     tag_set_text mpl_connect mpl_disconnect].

Lemma bind_ok {A B} (m : M A) (f : A → M B) w a w' :
  m w = (Ok a, w') → (m ≫= f) w = f a w'.
Proof. intros H. mrun. by rewrite H. Qed.

Lemma bind_raise {A B} (m : M A) (f : A → M B) w e w' :
  m w = (Raise e, w') → (m ≫= f) w = (Raise e, w').
Proof. intros H. mrun. by rewrite H. Qed.

Lemma alter_insert {A} (f : A → A) (l : list A) h c :
  l !! h = Some c → alter f h l = <[h := f c]> l.
Proof.
  intros H. apply list_eq. intros i. destruct (decide (i = h)) as [->|Hne].
  - rewrite list_lookup_alter_eq, H, list_lookup_insert_eq; [done|].
    by eapply lookup_lt_Some.
  - by rewrite list_lookup_alter_ne, list_lookup_insert_ne.
Qed.

Lemma cursor_at_run w h c :
  cursors w !! h = Some c → cursor_at h w = (Ok c, w).
Proof. intros H. mrun. by rewrite H. Qed.

Lemma span_at_run w s d :
  spans w !! s = Some d → span_at s w = (Ok d, w).
Proof. intros H. mrun. by rewrite H. Qed.

Lemma update_cursor_run w h c f :
  cursors w !! h = Some c →
  update_cursor h f w = (Ok tt, set_cursor h (f c) w).
Proof.
  intros H. mrun. rewrite H. unfold set_cursor.
  by rewrite (alter_insert _ _ _ _ H).
Qed.

Lemma update_span_run w s d f :
  spans w !! s = Some d →
  update_span s f w = (Ok tt, set_span s (f d) w).
Proof.
  intros H. mrun. rewrite H. unfold set_span.
  by rewrite (alter_insert _ _ _ _ H).
Qed.

Lemma tag_of_run w h c t :
  cursors w !! h = Some c → tag c = Some t → tag_of h w = (Ok t, w).
Proof. intros H Ht. mrun. by rewrite H, Ht. Qed.

Lemma lookup_set_cursor w h c c0 :
  cursors w !! h = Some c0 → cursors (set_cursor h c w) !! h = Some c.
Proof.
  intros H. cbn. apply list_lookup_insert_eq. by eapply lookup_lt_Some.
Qed.

Lemma lookup_set_cursor_ne w h h' c :
  h ≠ h' → cursors (set_cursor h c w) !! h' = cursors w !! h'.
Proof. intros H. cbn. by apply list_lookup_insert_ne. Qed.

Lemma set_cursor_set_cursor w h c1 c2 :
  set_cursor h c2 (set_cursor h c1 w) = set_cursor h c2 w.
Proof. unfold set_cursor. cbn. by rewrite list_insert_insert_eq. Qed.

Lemma set_cursor_same w h c :
  cursors w !! h = Some c → set_cursor h c w = w.
Proof.
  intros H. unfold set_cursor. rewrite list_insert_id by done. by destruct w.
Qed.

(** The effect of the setters on the cursor object. *)
Lemma set_mode_run w h c m :
  cursors w !! h = Some c →
  DragCursor_set_mode h m w =
  (Ok tt,
   set_cursor h
     (if String.eqb m "interact"
      then with_cline (with_line_ls "--" (cline c)) (with_mode m c)
      else if String.eqb m "fixed"
      then with_cline (with_line_ls "-." (cline c)) (with_mode m c)
      else with_mode m c) w).
Proof.
  intros H. unfold DragCursor_set_mode.
  rewrite (bind_ok _ _ _ _ _ (update_cursor_run _ _ _ _ H)).
  pose proof (lookup_set_cursor w h (with_mode m c) c H) as H1.
  destruct (String.eqb m "interact"); [|destruct (String.eqb m "fixed")].
  - by rewrite (update_cursor_run _ _ _ _ H1), set_cursor_set_cursor.
  - by rewrite (update_cursor_run _ _ _ _ H1), set_cursor_set_cursor.
  - done.
Qed.

Lemma set_color_run w h c t k :
  cursors w !! h = Some c → tag c = Some t →
  DragCursor_set_color h k w =
  (Ok tt,
   set_cursor h
     (with_tag (Some (with_text_color k t))
        (with_cline (with_line_color k (cline c)) (with_color k c))) w).
Proof.
  intros H Ht. unfold DragCursor_set_color.
  rewrite (bind_ok _ _ _ _ _ (update_cursor_run _ _ _ _ H)).
  pose proof (lookup_set_cursor w h (with_color k c) c H) as H1.
  rewrite (bind_ok _ _ _ _ _ (update_cursor_run _ _ _ _ H1)).
  rewrite set_cursor_set_cursor.
  set (c2 := with_cline _ _).
  pose proof (lookup_set_cursor w h c2 c H) as H2.
  rewrite (bind_ok _ _ _ _ _ (tag_of_run _ _ _ t H2 Ht)).
  by rewrite (update_cursor_run _ _ _ _ H2), set_cursor_set_cursor.
Qed.

Lemma set_tag_run w h c t p g r v :
  cursors w !! h = Some c → tag c = Some t →
  re_search (text t) = Some (p, g, r) →
  DragCursor_set_tag h v w =
  (Ok tt,
   set_cursor h
     (with_tag
        (Some (with_text
                 (match v with
                  | PyStr s => s +:+ group0 g
                  | PyOther => group0 g
                  end) t)) c) w).
Proof.
  intros H Ht Hs. unfold DragCursor_set_tag, tag_get_text, tag_set_text.
  rewrite (bind_ok _ _ _ _ _ (bind_ok _ _ _ _ _ (tag_of_run _ _ _ _ H Ht))).
  cbn [mret M_ret]. rewrite Hs.
  rewrite (bind_ok _ _ _ _ _ (tag_of_run _ _ _ _ H Ht)).
  by rewrite (update_cursor_run _ _ _ _ H).
Qed.

Lemma get_id_run w h c n :
  cursors w !! h = Some c → cursor_id c = Some n →
  DragCursor_get_id h w = (Ok n, w).
Proof.
  intros H Hn. unfold cursor_id, tag_text in Hn.
  destruct (tag c) as [t|] eqn:Ht; [|done]. cbn in Hn.
  unfold DragCursor_get_id, tag_get_text.
  rewrite (bind_ok _ _ _ _ _ (bind_ok _ _ _ _ _ (tag_of_run _ _ _ _ H Ht))).
  cbn [mret M_ret]. unfold id_of_text, parse_id in *.
  destruct (re_search (text t)) as [[[p g] r]|]; [|done]. by rewrite Hn.
Qed.

Lemma get_tag_run w h c t :
  cursors w !! h = Some c → tag c = Some t →
  DragCursor_get_tag h w = (Ok (re_sub (text t)), w).
Proof.
  intros H Ht. unfold DragCursor_get_tag, DragCursor_get_text, tag_get_text.
  by rewrite (bind_ok _ _ _ _ _ (bind_ok _ _ _ _ _ (tag_of_run _ _ _ _ H Ht))).
Qed.

Lemma bind_bind_ok {A B C} (m : M A) (f : A → M B) (g : B → M C) w b w' :
  (x ← m; f x) w = (Ok b, w') →
  (x ← m; y ← f x; g y) w = g b w'.
Proof.
  mrun. destruct (m w) as [[a|e] w1]; [|done].
  intros H. by rewrite H.
Qed.

(** ** Creating cursors *)

Lemma insert_last {A} (l : list A) (x y : A) :
  <[length l := y]> (l ++ [x]) = l ++ [y].
Proof.
  rewrite insert_app_r_alt by lia. by rewrite Nat.sub_diag.
Qed.

Lemma lookup_last {A} (l : list A) (x : A) : (l ++ [x]) !! length l = Some x.
Proof. by rewrite lookup_app_r, Nat.sub_diag. Qed.

Lemma scan_step w h c :
  cursors w !! h = Some c →
  (s ← tag_get_text h; id_of_text s) w =
  match cursor_id c with
  | Some n => (Ok n, w)
  | None =>
      (Raise (match tag c with
              | Some t =>
                  match re_search (text t) with
                  | Some _ => ValueError
                  | None => AttributeError
                  end
              | None => AttributeError
              end), w)
  end.
Proof.
  intros H. unfold cursor_id, tag_text, tag_get_text. mrun. rewrite H.
  destruct (tag c) as [t|]; [|done]. cbn. unfold id_of_text, parse_id. mrun.
  destruct (re_search (text t)) as [[[p g] r]|]; [|done].
  by destruct (py_int g).
Qed.

Lemma initag_scan_run w cl acc :
  Forall (λ h, h < length (cursors w))%nat cl →
  initag_scan cl acc w = (Ok (acc ++ existing_ids w cl), w).
Proof.
  intros Hcl. revert acc. induction Hcl as [|h cl Hh Hcl IH]; intros acc.
  - cbn. by rewrite app_nil_r.
  - destruct (lookup_lt_is_Some_2 _ _ Hh) as [c Hc].
    cbn [initag_scan existing_ids omap list_omap].
    rewrite (scan_step _ _ _ Hc), Hc. cbn [mbind option_bind].
    destruct (cursor_id c) as [n|].
    + rewrite IH. by rewrite <- app_assoc.
    + destruct (tag c) as [t|]; [destruct (re_search (text t))|];
        cbn [initag_catches]; apply IH.
Qed.

Lemma initag_run w self c cl :
  cursors w !! self = Some c →
  curlist w = Some cl →
  Forall (λ h, h < length (cursors w))%nat cl →
  (orient c = vertspan → is_Some (spanlist w)) →
  initag self w =
  (Ok tt,
   set_cursor self
     (with_tag (Some (mkText (new_tagstr (existing_ids w cl))
                             (line_x (cline c)) (color c))) c) w).
Proof.
  intros Hc Hcl Hok Hsp. unfold initag.
  rewrite (bind_ok _ _ _ _ _ (cursor_at_run _ _ _ Hc)).
  assert ((match orient c with
           | vertspan => ax_spanlist
           | vertical => ax_curlist
           end) w = (Ok (match orient c with
                         | vertspan => spanlist_of w
                         | vertical => cl
                         end), w)) as H1.
  { destruct (orient c); mrun.
    - by rewrite Hcl.
    - destruct Hsp as [sl Hsl]; [done|]. unfold spanlist_of. by rewrite Hsl. }
  rewrite (bind_ok _ _ _ _ _ H1).
  assert (ax_curlist w = (Ok cl, w)) as H2 by (mrun; by rewrite Hcl).
  rewrite (bind_ok _ _ _ _ _ H2).
  rewrite (bind_ok _ _ _ _ _ (initag_scan_run _ _ [] Hok)).
  by rewrite (update_cursor_run _ _ _ _ Hc).
Qed.

Lemma connect_run w h c :
  cursors w !! h = Some c →
  DragCursor_connect h w =
  (Ok tt,
   set_cursor h (with_cids (next_cid w) (S (next_cid w)) (S (S (next_cid w))) c)
     (with_callbacks (callbacks w ++ cursor_callbacks h (next_cid w))
                     (3 + next_cid w) w)).
Proof.
  intros H. unfold DragCursor_connect. mrun. cbn. rewrite H.
  unfold set_cursor, cursor_callbacks. cbn.
  rewrite (alter_insert _ _ _ _ H), <- !app_assoc. done.
Qed.

Lemma existing_ids_ext w w' cl :
  Forall (λ h, cursors w' !! h = cursors w !! h) cl →
  existing_ids w' cl = existing_ids w cl.
Proof.
  unfold existing_ids. induction 1 as [|h cl Hh _ IH]; [done|].
  cbn. by rewrite Hh, IH.
Qed.

Lemma init_run pos o m w :
  store_ok w →
  (o = vertspan → is_Some (spanlist w)) →
  DragCursor_init pos o m w = (Ok (length (cursors w)), after_init pos o m w).
Proof.
  intros Hok Hsp.
  set (self := length (cursors w)).
  set (c0 := mkCursor m o "r" (mkLine pos "--" "r") None None None 0 0 0).
  set (w1 := with_curlist (Some (curlist_of w ++ [self]))
               (with_cursors (cursors w ++ [c0]) w)).
  assert (cursors w1 !! self = Some c0) as Hc0 by apply lookup_last.
  assert (Forall (λ h, h < length (cursors w1))%nat (curlist_of w ++ [self]))
    as Hok1.
  { cbn. rewrite length_app. cbn. apply Forall_app. split.
    - eapply Forall_impl; [exact Hok|]. cbn. lia.
    - repeat constructor. lia. }
  assert (existing_ids w1 (curlist_of w ++ [self])
          = existing_ids w (curlist_of w)) as Hids.
  { unfold existing_ids. rewrite omap_app. cbn. unfold self.
    rewrite lookup_last. cbn.
    rewrite app_nil_r. apply (existing_ids_ext w w1).
    eapply Forall_impl; [exact Hok|]. cbn. intros h Hh.
    by rewrite lookup_app_l. }
  pose proof (initag_run w1 self c0 _ Hc0 eq_refl Hok1 Hsp) as Hini.
  rewrite Hids in Hini.
  change (DragCursor_init pos o m w) with
    ((initag self ;; DragCursor_connect self ;; mret self)
       (with_curlist
          (Some (match curlist w with
                 | Some l => l ++ [self]
                 | None => [self]
                 end))
          (with_cursors (cursors w ++ [c0]) w))).
  replace (match curlist w with
           | Some l => l ++ [self]
           | None => [self]
           end) with (curlist_of w ++ [self])
    by (unfold curlist_of; by destruct (curlist w)).
  fold w1.
  rewrite (bind_ok _ _ _ _ _ Hini).
  match type of Hini with _ = (_, set_cursor _ ?c _) => set (c1 := c) end.
  pose proof (lookup_set_cursor w1 self c1 c0 Hc0) as Hc1.
  rewrite (bind_ok _ _ _ _ _ (connect_run _ _ _ Hc1)).
  cbn [mret M_ret]. f_equal.
  unfold after_init, set_cursor, with_callbacks, with_cursors. cbn.
  fold self. rewrite list_insert_insert_eq. unfold self.
  by rewrite insert_last.
Qed.

Lemma store_ok_after_init pos o m w :
  store_ok w → store_ok (after_init pos o m w).
Proof.
  unfold store_ok, after_init, curlist_of. cbn. intros H.
  rewrite length_app. cbn. apply Forall_app. split.
  - eapply Forall_impl; [exact H|]. cbn. lia.
  - repeat constructor. lia.
Qed.

Lemma mpl_connect_run cb w :
  mpl_connect cb w =
  (Ok (next_cid w),
   with_callbacks (callbacks w ++ [(next_cid w, cb)]) (S (next_cid w)) w).
Proof. reflexivity. Qed.

Lemma modify_run f w : modify f w = (Ok tt, f w).
Proof. reflexivity. Qed.

Lemma span_init_run low_pos high_pos w :
  store_ok w →
  DragSpan_init low_pos high_pos w =
  (Ok (length (spans w)), after_span_init low_pos high_pos w).
Proof.
  intros Hok.
  set (s := length (spans w)).
  set (w0 := with_spanlist (Some (spanlist_of w ++ [s])) w).
  set (w1 := after_init low_pos vertspan "interact" w0).
  set (w2 := after_init high_pos vertspan "interact" w1).
  assert (store_ok w0) as Hok0 by exact Hok.
  assert (store_ok w1) as Hok1 by by apply store_ok_after_init.
  pose proof (init_run low_pos vertspan "interact" w0 Hok0
                (λ _, mk_is_Some _ _ eq_refl)) as H1.
  pose proof (init_run high_pos vertspan "interact" w1 Hok1
                (λ _, mk_is_Some _ _ eq_refl)) as H2.
  fold w1 in H1. fold w2 in H2.
  change (DragSpan_init low_pos high_pos w) with
    ((lo ← DragCursor_init low_pos vertspan "interact";
      hi ← DragCursor_init high_pos vertspan "interact";
      update_cursor lo (with_spanobj (Some s)) ;;
      update_cursor hi (with_spanobj (Some s)) ;;
      cid ← mpl_connect (span_on_press s);
      modify (λ w, with_spans
         (spans w ++ [mkSpan "r" lo hi
                        (mkPolygon [(low_pos, 0); (low_pos, 1);
                                    (high_pos, 1); (high_pos, 0)] "r")
                        cid]) w) ;;
      mret s)
       (with_spanlist
          (Some (match spanlist w with
                 | Some l => l ++ [s]
                 | None => [s]
                 end)) w)).
  replace (match spanlist w with
           | Some l => l ++ [s]
           | None => [s]
           end) with (spanlist_of w ++ [s])
    by (unfold spanlist_of; by destruct (spanlist w)).
  fold w0. rewrite (bind_ok _ _ _ _ _ H1), (bind_ok _ _ _ _ _ H2).
  set (lo := length (cursors w0)). set (hi := length (cursors w1)).
  set (clo := new_cursor low_pos vertspan "interact"
                (new_tagstr (existing_ids w0 (curlist_of w0))) (next_cid w0)).
  set (chi := new_cursor high_pos vertspan "interact"
                (new_tagstr (existing_ids w1 (curlist_of w1))) (next_cid w1)).
  assert (cursors w2 = cursors w ++ [clo; chi]) as Hcs
    by (cbn; by rewrite <- app_assoc).
  assert (hi = S lo) as Hhi
    by (unfold hi, lo; cbn; rewrite length_app; cbn; lia).
  assert (cursors w2 !! lo = Some clo) as Hlo.
  { rewrite Hcs. change (cursors w ++ [clo; chi]) with
      (cursors w ++ [clo] ++ [chi]). rewrite app_assoc.
    rewrite lookup_app_l by (rewrite length_app; cbn; unfold lo; cbn; lia).
    apply lookup_last. }
  rewrite (bind_ok _ _ _ _ _ (update_cursor_run _ _ _ _ Hlo)).
  set (w3 := set_cursor lo _ w2).
  assert (cursors w3 !! hi = Some chi) as Hhi3.
  { unfold w3. rewrite lookup_set_cursor_ne by lia. apply lookup_last. }
  rewrite (bind_ok _ _ _ _ _ (update_cursor_run _ _ _ _ Hhi3)).
  rewrite (bind_ok _ _ _ _ _ (mpl_connect_run _ _)).
  rewrite (bind_ok _ _ _ _ _ (modify_run _ _)).
  cbn [mret M_ret]. f_equal.
  unfold after_span_init, w3, set_cursor, with_spans, with_callbacks,
    with_cursors. cbn [curlist spanlist cursors spans navigate_mode xlim
    fig_cidpress callbacks next_cid]. rewrite Hcs.
  assert (<[hi:=with_spanobj (Some s) chi]>
            (<[lo:=with_spanobj (Some s) clo]> (cursors w ++ [clo; chi]))
          = cursors w ++ [with_spanobj (Some s) clo;
                          with_spanobj (Some s) chi]) as ->.
  { rewrite Hhi. unfold lo. cbn [cursors w0 with_spanlist].
    rewrite insert_app_r_alt, Nat.sub_diag by lia. cbn.
    rewrite insert_app_r_alt by lia.
    by replace (S (length (cursors w)) - length (cursors w))%nat
      with 1%nat by lia. }
  unfold w2, w1, after_init. cbn. unfold curlist_of. cbn.
  rewrite <- !app_assoc. cbn.
  rewrite !length_app. cbn [length]. rewrite !Nat.add_1_r.
  reflexivity.
Qed.

(** ** Display IDs *)

Lemma new_tagstr_group0 ids :
  new_tagstr ids = group0 (py_str (nextDisplayId ids)).
Proof. by destruct ids. Qed.

Lemma parse_new_tagstr ids :
  parse_id (new_tagstr ids) = Some (nextDisplayId ids).
Proof.
  rewrite new_tagstr_group0, <- (app_empty_r (group0 _)).
  apply parse_id_group0.
Qed.

Lemma display_ids_existing w ids :
  display_ids w = Some ids → existing_ids w (curlist_of w) = ids.
Proof.
  unfold display_ids, existing_ids. revert ids.
  induction (curlist_of w) as [|h cl IH]; intros ids; cbn.
  - by intros [= <-].
  - destruct (cursors w !! h ≫= cursor_id) as [n|]; [|done]. cbn.
    destruct (mapM _ cl) as [ids'|]; [|done]. cbn.
    intros [= <-]. by rewrite (IH _ eq_refl).
Qed.

Lemma mapM_app {A B} (f : A → option B) l1 l2 :
  mapM f (l1 ++ l2) = (k1 ← mapM f l1; k2 ← mapM f l2; Some (k1 ++ k2)).
Proof.
  induction l1 as [|x l1 IH]; cbn.
  - by destruct (mapM f l2).
  - destruct (f x); [|done]. cbn. rewrite IH.
    destruct (mapM f l1); [|done]. cbn. by destruct (mapM f l2).
Qed.

Lemma display_ids_after_init pos o m w ids :
  store_ok w → display_ids w = Some ids →
  display_ids (after_init pos o m w) = Some (ids ++ [nextDisplayId ids]).
Proof.
  intros Hok Hids. pose proof (display_ids_existing _ _ Hids) as He.
  unfold display_ids, after_init, curlist_of in *. cbn.
  rewrite mapM_app. cbn.
  rewrite (Forall_mapM_ext _ (λ h, cursors w !! h ≫= cursor_id)).
  2:{ eapply Forall_impl; [exact Hok|]. cbn. intros h Hh.
      by rewrite lookup_app_l. }
  rewrite Hids. cbn. rewrite lookup_last. cbn.
  unfold cursor_id, tag_text. cbn.
  fold (curlist_of w). unfold curlist_of. rewrite He, parse_new_tagstr. done.
Qed.

Lemma max_id_app ids n : max_id (ids ++ [n]) = N.max (max_id ids) n.
Proof.
  unfold max_id. induction ids as [|k ids IH]; cbn; [lia|]. rewrite IH. lia.
Qed.






Lemma placecursor_run pos w :
  placecursor pos w =
  DragCursor_init
    (match pos with
     | center => (xlim w).1 + ((xlim w).2 - (xlim w).1) / 2
     | at_x x => x
     end) vertical "interact" w.
Proof. reflexivity. Qed.

Lemma placespan_run pos w :
  placespan pos w =
  let axspan := (xlim w).2 - (xlim w).1 in
  let limfrac := axspan / 6 in
  match pos with
  | span_between lo hi => DragSpan_init lo hi w
  | span_center =>
      DragSpan_init ((xlim w).1 + axspan / 2 - limfrac)
                    ((xlim w).1 + axspan / 2 + limfrac) w
  | span_around x => DragSpan_init (x - limfrac / 2) (x + limfrac / 2) w
  end.
Proof. by destruct pos. Qed.

Lemma store_ok_after_span_init lo hi w :
  store_ok w → store_ok (after_span_init lo hi w).
Proof.
  unfold store_ok, after_span_init, curlist_of. cbn. intros H.
  rewrite length_app. cbn. apply Forall_app. split.
  - eapply Forall_impl; [exact H|]. cbn. lia.
  - repeat constructor; lia.
Qed.

Lemma lookup_app_two_l {A} (l : list A) (a b : A) :
  (l ++ [a; b]) !! length l = Some a.
Proof. by rewrite lookup_app_r, Nat.sub_diag. Qed.

Lemma lookup_app_two_r {A} (l : list A) (a b : A) :
  (l ++ [a; b]) !! S (length l) = Some b.
Proof.
  rewrite lookup_app_r by lia.
  by replace (S (length l) - length l)%nat with 1%nat by lia.
Qed.

Lemma display_ids_after_span_init lo hi w ids :
  store_ok w → display_ids w = Some ids →
  display_ids (after_span_init lo hi w) =
  Some (ids ++ [nextDisplayId ids; nextDisplayId (ids ++ [nextDisplayId ids])]).
Proof.
  intros Hok Hids. pose proof (display_ids_existing _ _ Hids) as He.
  pose proof (display_ids_after_init lo vertspan "interact" w ids Hok Hids)
    as Hids1.
  pose proof (display_ids_existing _ _ Hids1) as He1.
  unfold display_ids.
  change (curlist_of (after_span_init lo hi w)) with
    (curlist_of w ++ [length (cursors w); S (length (cursors w))]).
  unfold after_span_init. cbn [cursors]. rewrite He, He1.
  rewrite mapM_app.
  rewrite (Forall_mapM_ext _ (λ h, cursors w !! h ≫= cursor_id)
             (curlist_of w)).
  2:{ eapply Forall_impl; [exact Hok|]. cbn. intros h Hh.
      by rewrite lookup_app_l. }
  unfold display_ids in Hids. rewrite Hids.
  cbn [mapM mbind option_bind].
  rewrite lookup_app_two_l, lookup_app_two_r.
  cbn [mbind option_bind mret option_ret].
  unfold cursor_id, tag_text. cbn.
  rewrite !parse_new_tagstr. done.
Qed.

Lemma place_cursor_run pos w :
  store_ok w →
  ∃ x, place (place_cursor pos) w = (Ok tt, after_init x vertical "interact" w).
Proof.
  intros Hok.
  exists (match pos with
          | center => (xlim w).1 + ((xlim w).2 - (xlim w).1) / 2
          | at_x x => x
          end).
  cbn [place]. erewrite bind_ok; [reflexivity|].
  rewrite placecursor_run. by apply init_run.
Qed.

Lemma place_span_run pos w :
  store_ok w →
  ∃ lo hi, place (place_span pos) w = (Ok tt, after_span_init lo hi w).
Proof.
  intros Hok.
  assert (∃ lo hi, placespan pos w = DragSpan_init lo hi w) as (lo & hi & E).
  { rewrite placespan_run. destruct pos; by do 2 eexists. }
  exists lo, hi. cbn [place]. erewrite bind_ok; [reflexivity|].
  rewrite E. by apply span_init_run.
Qed.




(** ** Release, arming the placement handlers, tags without ID *)

(** C9. Whatever the release event (the handler does not look at it, so
    also with the pointer outside the axes), the drag capture of the
    cursor is cleared and nothing else changes: the cursor is IDLE, a
    second release changes nothing, and a cursor that was IDLE stays as it
    was. *)
Theorem release_clears_the_drag_capture w h c event :
  cursors w !! h = Some c →
  ∃ w',
    DragCursor_on_release h event w = (Ok tt, w') ∧
    w' = set_cursor h (with_press None c) w ∧
    state_of <$> cursors w' !! h = Some IDLE ∧
    DragCursor_on_release h event w' = (Ok tt, w') ∧
    (state_of c = IDLE → w' = w).
Proof.
  intros H. exists (set_cursor h (with_press None c) w).
  pose proof (lookup_set_cursor w h (with_press None c) c H) as H'.
  split; [by apply update_cursor_run|]. split; [done|].
  split; [by rewrite H'|]. split.
  - unfold DragCursor_on_release. rewrite (update_cursor_run _ _ _ _ H').
    by rewrite set_cursor_set_cursor.
  - unfold state_of. intros Hc. apply set_cursor_same. rewrite H. f_equal.
    destruct c as [? ? ? ? ? p ? ? ? ?]. cbn in *. by destruct p.
Qed.

Lemma release_clears_the_drag_capture_witness :
  let w := set_cursor 0 (mkCursor "interact" vertical "r"
                           (mkLine 4 "--" "r") (Some (mkText "(1)" 4 "r"))
                           (Some (4, 0, 4, 1)) None 0 1 2)
             (after_init 4 vertical "interact" new_axes) in
  let event := mkEvent None 1 0 0 [] [] in
  ∃ c, cursors w !! 0%nat = Some c ∧ state_of c = DRAGGING ∧
  ∃ w',
    DragCursor_on_release 0 event w = (Ok tt, w') ∧
    w' = set_cursor 0 (with_press None c) w ∧
    state_of <$> cursors w' !! 0%nat = Some IDLE ∧
    DragCursor_on_release 0 event w' = (Ok tt, w') ∧
    (state_of c = IDLE → w' = w).
Proof.
  intros w event. eexists. split; [reflexivity|]. split; [reflexivity|].
  apply (release_clears_the_drag_capture w 0). reflexivity.
Defined.

(** C10. With an axes object as argument, [curonclick] and [spanonclick]
    raise (the local variable [fig] is not bound) and leave the world as
    it was: no callback is connected.  With the default ['current'] the
    callback is connected and [fig.cidpress] remembers it. *)
Theorem onclick_with_axes_argument_raises w :
  curonclick given_axes w = (Raise UnboundLocalError, w) ∧
  spanonclick given_axes w = (Raise UnboundLocalError, w) ∧
  (∃ w', curonclick current w = (Ok tt, w') ∧
         (next_cid w, curonclick_onclick) ∈ callbacks w' ∧
         fig_cidpress w' = Some (next_cid w)) ∧
  (∃ w', spanonclick current w = (Ok tt, w') ∧
         (next_cid w, spanonclick_onclick) ∈ callbacks w' ∧
         fig_cidpress w' = Some (next_cid w)).
Proof.
  split; [reflexivity|]. split; [reflexivity|].
  unfold curonclick, spanonclick, arm_onclick. cbn [bind_fig read_fig].
  mrun. destruct (fig_cidpress w) as [cid|];
    (split; eexists; (split; [reflexivity|]); cbn; (split; [|done]);
     apply elem_of_app; right; apply list_elem_of_here).
Qed.

(** C3 (the code departs from the claim).  A cursor whose tag holds no
    ID: [get_id] raises AttributeError, and with it [getcur] and
    [savecurinfo], while the loop of [initag] passes over the cursor. *)
Theorem get_id_raises_without_id :
  tag_text <$> cursors renamed_without_id !! 0%nat = Some (Some "abc") ∧
  parse_id "abc" = None ∧
  DragCursor_get_id 0 renamed_without_id
    = (Raise AttributeError, renamed_without_id) ∧
  initag_scan [0%nat] [] renamed_without_id = (Ok [], renamed_without_id) ∧
  getcur 1 renamed_without_id = (Raise AttributeError, renamed_without_id) ∧
  (savecurinfo renamed_without_id).1 = Raise AttributeError.
Proof. repeat split. Qed.

(** ** Removing cursors; press and motion *)

Lemma list_remove_elem_of h cl :
  h ∈ cl → ∃ cl', list_remove h cl = Some cl'.
Proof.
  induction cl as [|y cl IH]; [by intros ?%elem_of_nil|].
  intros [->|Hin]%elem_of_cons; cbn.
  - rewrite decide_True by done. by eexists.
  - destruct (decide (h = y)); [by eexists|].
    destruct (IH Hin) as [cl' ->]. by eexists.
Qed.

Lemma list_remove_spec h cl cl' :
  list_remove h cl = Some cl' → NoDup cl →
  NoDup cl' ∧ (h ∉ cl') ∧ (∀ x, x ∈ cl' ↔ x ∈ cl ∧ x ≠ h).
Proof.
  revert cl'. induction cl as [|y cl IH]; [done|]. intros cl' H Hnd.
  apply NoDup_cons in Hnd as [Hy Hnd]. cbn in H.
  destruct (decide (h = y)) as [->|Hne].
  - injection H as <-. split; [done|]. split; [done|].
    intros x. rewrite elem_of_cons. split; [|naive_solver].
    intros Hx. split; [by right|]. by intros ->.
  - destruct (list_remove h cl) as [cl0|]; [|done]. injection H as <-.
    destruct (IH _ eq_refl Hnd) as (Hnd0 & Hh & Hx).
    split; [|split].
    + apply NoDup_cons. split; [|done]. rewrite Hx. naive_solver.
    + rewrite elem_of_cons. naive_solver.
    + intros x. rewrite !elem_of_cons, Hx. naive_solver.
Qed.

Lemma mpl_disconnect_run cid w :
  mpl_disconnect cid w =
  (Ok tt, with_callbacks (filter (λ p, p.1 ≠ cid) (callbacks w)) (next_cid w) w).
Proof. reflexivity. Qed.

Lemma ax_curlist_run w cl : curlist w = Some cl → ax_curlist w = (Ok cl, w).
Proof. intros H. mrun. by rewrite H. Qed.

Lemma ax_spanlist_run w sl : spanlist w = Some sl → ax_spanlist w = (Ok sl, w).
Proof. intros H. mrun. by rewrite H. Qed.

Lemma remcur_body_run w h c t cl cl' :
  cursors w !! h = Some c → tag c = Some t →
  curlist w = Some cl → list_remove h cl = Some cl' →
  remcur_body h w = (Ok tt, without_callbacks c (with_curlist (Some cl') w)).
Proof.
  intros Hc Ht Hcl Hrm. unfold remcur_body.
  rewrite (bind_ok _ _ _ _ _ (cursor_at_run _ _ _ Hc)).
  rewrite (bind_ok _ _ _ _ _ (tag_of_run _ _ _ _ Hc Ht)).
  rewrite (bind_ok _ _ _ _ _ (ax_curlist_run _ _ Hcl)).
  rewrite Hrm. reflexivity.
Qed.

(** [remcur] of one cursor. *)
Lemma remcur_one_run w h c t cl cl' :
  cursors w !! h = Some c → tag c = Some t →
  curlist w = Some cl → list_remove h cl = Some cl' →
  remcur [h] w = (Ok tt, without_callbacks c (with_curlist (Some cl') w)).
Proof.
  intros Hc Ht Hcl Hrm. unfold remcur.
  cbn [length remcur_while remcur_for lookup list_lookup list_remove].
  rewrite decide_True by done.
  rewrite (bind_ok _ _ _ _ _
             (bind_ok _ _ _ _ _ (remcur_body_run _ _ _ _ _ _ Hc Ht Hcl Hrm))).
  reflexivity.
Qed.

Lemma on_press_run w h c event :
  cursors w !! h = Some c →
  inaxes event = Some this_axes → mode c ≠ "fixed" →
  navigate_mode w = None → h ∈ on_lines event →
  DragCursor_on_press h event w =
  (if (button event =? 3) && negb (is_vertspan (orient c))
   then remcur [h] else mret tt) (set_cursor h (pressed event c) w).
Proof.
  intros Hc Hin Hm Hnav Hhit. unfold DragCursor_on_press.
  rewrite (bind_ok _ _ _ _ _ (cursor_at_run _ _ _ Hc)).
  unfold in_this_axes. rewrite Hin. cbn [negb].
  apply String.eqb_neq in Hm. rewrite Hm.
  change ((get_world ≫= ?f) w) with (f w w). cbn beta. rewrite Hnav.
  rewrite bool_decide_eq_true_2 by done. cbn [negb].
  by rewrite (bind_ok _ _ _ _ _ (update_cursor_run _ _ _ _ Hc)).
Qed.

(** A press on a cursor in mode ['fixed'] changes nothing. *)
Lemma on_press_fixed w h c event :
  cursors w !! h = Some c → mode c = "fixed" →
  DragCursor_on_press h event w = (Ok tt, w).
Proof.
  intros Hc Hm. unfold DragCursor_on_press.
  rewrite (bind_ok _ _ _ _ _ (cursor_at_run _ _ _ Hc)).
  rewrite Hm. by destruct (negb (in_this_axes event)).
Qed.

Lemma updatespan_run w s d clo chi :
  spans w !! s = Some d →
  cursors w !! span_low d = Some clo → cursors w !! span_high d = Some chi →
  DragSpan_updatespan s w =
  (Ok tt, set_span s (updated_vspan (position clo) (position chi) d) w).
Proof.
  intros Hd Hlo Hhi. unfold DragSpan_updatespan.
  rewrite (bind_ok _ _ _ _ _ (span_at_run _ _ _ Hd)).
  rewrite (bind_ok _ _ _ _ _ (cursor_at_run _ _ _ Hlo)).
  rewrite (bind_ok _ _ _ _ _ (cursor_at_run _ _ _ Hhi)).
  by rewrite (update_span_run _ _ _ _ Hd).
Qed.

Lemma on_motion_run w h c p t event :
  cursors w !! h = Some c → _press c = Some p → tag c = Some t →
  inaxes event = Some this_axes →
  DragCursor_on_motion h event w =
  match orient c with
  | vertspan =>
      match spanobj c with
      | Some s => DragSpan_updatespan s
      | None => raise AttributeError
      end
  | vertical => mret tt
  end (set_cursor h (moved (xdata event) t c) w).
Proof.
  intros Hc Hp Ht Hin. unfold DragCursor_on_motion.
  rewrite (bind_ok _ _ _ _ _ (cursor_at_run _ _ _ Hc)).
  rewrite Hp. destruct p as [[[x0 y0] xpress] ypress].
  unfold in_this_axes. rewrite Hin. cbn [negb].
  rewrite (bind_ok _ _ _ _ _ (update_cursor_run _ _ _ _ Hc)).
  set (c1 := with_cline _ c).
  pose proof (lookup_set_cursor w h c1 c Hc) as H1.
  rewrite (bind_ok _ _ _ _ _ (tag_of_run _ _ _ t H1 Ht)).
  rewrite (bind_ok _ _ _ _ _ (update_cursor_run _ _ _ _ H1)).
  by rewrite set_cursor_set_cursor.
Qed.

(** A motion event on a cursor that holds no capture changes nothing. *)
Lemma on_motion_idle w h c event :
  cursors w !! h = Some c → _press c = None →
  DragCursor_on_motion h event w = (Ok tt, w).
Proof.
  intros Hc Hp. unfold DragCursor_on_motion.
  rewrite (bind_ok _ _ _ _ _ (cursor_at_run _ _ _ Hc)). by rewrite Hp.
Qed.

Lemma updated_vspan_bounds lo hi d :
  polygon_bounds (vspan (updated_vspan lo hi d))
  = Some (Z.min lo hi, Z.max lo hi).
Proof. unfold polygon_bounds. cbn. f_equal. f_equal; lia. Qed.

(** C8 as stated fails: a press of the right button on the line of a
    span cursor is no no-op.  It records the drag capture, the cursor is
    DRAGGING, and the next motion event moves it (and the fill). *)
Lemma right_press_on_span_cursor_starts_drag :
  let w' := (DragCursor_on_press 0 right_press_on_low one_span).2 in
  let w'' := (DragCursor_on_motion 0 (motion_to 5) w').2 in
  orient <$> cursors one_span !! 0%nat = Some vertspan ∧
  state_of <$> cursors one_span !! 0%nat = Some IDLE ∧
  DragCursor_on_press 0 right_press_on_low one_span = (Ok tt, w') ∧
  w' ≠ one_span ∧
  state_of <$> cursors w' !! 0%nat = Some DRAGGING ∧
  DragCursor_on_motion 0 (motion_to 5) w' = (Ok tt, w'') ∧
  position <$> cursors one_span !! 0%nat = Some 2 ∧
  position <$> cursors w'' !! 0%nat = Some 5.
Proof.
  cbv zeta. split; [reflexivity|]. split; [reflexivity|].
  split; [by vm_compute|]. split.
  - intros H. apply (f_equal (λ w, state_of <$> cursors w !! 0%nat)) in H.
    vm_compute in H. discriminate H.
  - split; [by vm_compute|]. split; [by vm_compute|]. by vm_compute.
Qed.

(** C8, amended.  A press of the right button that hits a cursor (pointer
    in the axes, mode not ['fixed'], no navigation tool) records the drag
    capture like a press of any button.  A span cursor keeps its place:
    nothing but its capture changes.  A cursor of its own is then removed
    from the cursor list and its three callbacks are disconnected. *)
Theorem right_press_on_a_cursor w h c t event :
  cursors w !! h = Some c → tag c = Some t →
  inaxes event = Some this_axes → mode c ≠ "fixed" →
  navigate_mode w = None → h ∈ on_lines event → button event = 3 →
  state_of (pressed event c) = DRAGGING ∧
  match orient c with
  | vertspan =>
      DragCursor_on_press h event w = (Ok tt, set_cursor h (pressed event c) w)
  | vertical =>
      ∀ cl, curlist w = Some cl → NoDup cl → h ∈ cl →
      ∃ cl',
        DragCursor_on_press h event w =
          (Ok tt, without_callbacks c
                    (with_curlist (Some cl')
                       (set_cursor h (pressed event c) w))) ∧
        (h ∉ cl') ∧ (∀ x, x ∈ cl' ↔ x ∈ cl ∧ x ≠ h)
  end.
Proof.
  intros Hc Ht Hin Hm Hnav Hhit Hb. split; [done|].
  rewrite (on_press_run _ _ _ _ Hc Hin Hm Hnav Hhit), Hb.
  destruct (orient c); cbn [Z.eqb Pos.eqb andb negb is_vertspan]; [|done].
  intros cl Hcl Hnd Hh. destruct (list_remove_elem_of _ _ Hh) as [cl' Hrm].
  destruct (list_remove_spec _ _ _ Hrm Hnd) as (_ & Hh' & Hx).
  exists cl'. split; [|done].
  exact (remcur_one_run _ h (pressed event c) t cl cl'
           (lookup_set_cursor _ _ _ _ Hc) Ht Hcl Hrm).
Qed.

Lemma right_press_on_a_cursor_witness :
  ∃ c t,
    cursors one_span !! 0%nat = Some c ∧ tag c = Some t ∧
    orient c = vertspan ∧
    state_of (pressed right_press_on_low c) = DRAGGING ∧
    DragCursor_on_press 0 right_press_on_low one_span
      = (Ok tt, set_cursor 0 (pressed right_press_on_low c) one_span).
Proof.
  do 2 eexists. split; [reflexivity|]. split; [reflexivity|].
  split; [reflexivity|].
  refine (right_press_on_a_cursor one_span 0 _ _ right_press_on_low
            eq_refl eq_refl eq_refl _ eq_refl _ eq_refl).
  - discriminate.
  - apply list_elem_of_here.
Defined.

(** C5. A motion event in the axes, on a span cursor that holds a drag
    capture, moves the cursor to the event and recomputes the polygon of
    the span in the same call: its extent on the x axis is the interval
    between the smaller and the larger of the two cursor positions, in
    whatever order they are. *)
Theorem motion_updates_the_fill w h c p t s d clo chi event :
  cursors w !! h = Some c → _press c = Some p → tag c = Some t →
  orient c = vertspan → spanobj c = Some s →
  spans w !! s = Some d →
  cursors w !! span_low d = Some clo → cursors w !! span_high d = Some chi →
  inaxes event = Some this_axes →
  ∃ w' c' d' clo' chi',
    DragCursor_on_motion h event w = (Ok tt, w') ∧
    cursors w' !! h = Some c' ∧ position c' = xdata event ∧
    spans w' !! s = Some d' ∧
    span_low d' = span_low d ∧ span_high d' = span_high d ∧
    cursors w' !! span_low d = Some clo' ∧
    cursors w' !! span_high d = Some chi' ∧
    polygon_bounds (vspan d') =
      Some (Z.min (position clo') (position chi'),
            Z.max (position clo') (position chi')).
Proof.
  intros Hc Hp Ht Ho Hs Hd Hlo Hhi Hin.
  rewrite (on_motion_run _ _ _ _ _ _ Hc Hp Ht Hin), Ho, Hs.
  set (c' := moved (xdata event) t c). set (w1 := set_cursor h c' w).
  assert (cursors w1 !! h = Some c') as Hc' by by eapply lookup_set_cursor.
  assert (∃ clo', cursors w1 !! span_low d = Some clo') as [clo' Hlo'].
  { destruct (decide (h = span_low d)) as [<-|Hne]; [by eexists|].
    exists clo. unfold w1. by rewrite lookup_set_cursor_ne. }
  assert (∃ chi', cursors w1 !! span_high d = Some chi') as [chi' Hhi'].
  { destruct (decide (h = span_high d)) as [<-|Hne]; [by eexists|].
    exists chi. unfold w1. by rewrite lookup_set_cursor_ne. }
  assert (spans w1 !! s = Some d) as Hd1 by done.
  rewrite (updatespan_run _ _ _ _ _ Hd1 Hlo' Hhi').
  eexists _, c', (updated_vspan (position clo') (position chi') d), clo', chi'.
  split; [reflexivity|]. split; [done|]. split; [done|].
  split. { cbn. apply list_lookup_insert_eq. by eapply lookup_lt_Some. }
  split; [done|]. split; [done|]. split; [done|]. split; [done|].
  apply updated_vspan_bounds.
Qed.

Lemma motion_updates_the_fill_witness :
  let w := set_cursor 0 (pressed right_press_on_low
                           (with_spanobj (Some 0%nat)
                              (new_cursor 2 vertspan "interact" "(1)" 0)))
             one_span in
  ∃ w' c' d' clo' chi',
    DragCursor_on_motion 0 (motion_to 11) w = (Ok tt, w') ∧
    cursors w' !! 0%nat = Some c' ∧ position c' = 11 ∧
    spans w' !! 0%nat = Some d' ∧
    span_low d' = 0%nat ∧ span_high d' = 1%nat ∧
    cursors w' !! 0%nat = Some clo' ∧
    cursors w' !! 1%nat = Some chi' ∧
    polygon_bounds (vspan d') =
      Some (Z.min (position clo') (position chi'),
            Z.max (position clo') (position chi')).
Proof.
  intros w.
  exact (motion_updates_the_fill w 0 _ _ _ 0 _ _ _ (motion_to 11)
           eq_refl eq_refl eq_refl eq_refl eq_refl eq_refl eq_refl eq_refl
           eq_refl).
Defined.

(** ** Deleting a span *)

Lemma delspan_run w s d clo tlo chi thi cl cl1 cl2 sl sl' :
  spans w !! s = Some d →
  cursors w !! span_low d = Some clo → tag clo = Some tlo →
  cursors w !! span_high d = Some chi → tag chi = Some thi →
  curlist w = Some cl → list_remove (span_low d) cl = Some cl1 →
  list_remove (span_high d) cl1 = Some cl2 →
  spanlist w = Some sl → list_remove s sl = Some sl' →
  DragSpan_delspan s w =
  (Ok tt,
   let w1 := without_callbacks clo (with_curlist (Some cl1) w) in
   let w2 := without_callbacks chi (with_curlist (Some cl2) w1) in
   let w3 := with_spanlist (Some sl') w2 in
   with_callbacks (filter (λ p, p.1 ≠ span_cidpress d) (callbacks w3))
                  (next_cid w3) w3).
Proof.
  intros Hd Hlo Htlo Hhi Hthi Hcl H1 H2 Hsl H3. unfold DragSpan_delspan.
  rewrite (bind_ok _ _ _ _ _ (span_at_run _ _ _ Hd)).
  rewrite (bind_ok _ _ _ _ _ (remcur_one_run _ _ _ _ _ _ Hlo Htlo Hcl H1)).
  set (w1 := without_callbacks clo _).
  rewrite (bind_ok _ _ _ _ _
             (remcur_one_run w1 _ chi thi cl1 cl2 Hhi Hthi eq_refl H2)).
  set (w2 := without_callbacks chi _).
  rewrite (bind_ok _ _ _ _ _ (ax_spanlist_run w2 sl Hsl)).
  rewrite H3. reflexivity.
Qed.

Lemma getcur_loop_not_found w k cl :
  Forall (λ h, ∃ n, cursors w !! h ≫= cursor_id = Some n ∧ n ≠ k) cl →
  getcur_loop k cl w = (Ok None, w).
Proof.
  induction 1 as [|h cl (n & Hn & Hne) _ IH]; [done|].
  cbn [getcur_loop].
  destruct (cursors w !! h) as [c|] eqn:Hc; [|done]. cbn in Hn.
  rewrite (bind_ok _ _ _ _ _ (get_id_run _ _ _ _ Hc Hn)).
  rewrite (proj2 (N.eqb_neq k n)) by done. exact IH.
Qed.

(** With distinct IDs, two cursors of the list with the same ID are the
    same cursor. *)
Lemma display_ids_inj w ids h1 h2 n :
  display_ids w = Some ids → NoDup ids →
  h1 ∈ curlist_of w → h2 ∈ curlist_of w →
  cursors w !! h1 ≫= cursor_id = Some n →
  cursors w !! h2 ≫= cursor_id = Some n →
  h1 = h2.
Proof.
  unfold display_ids. intros Hids%mapM_Some_1.
  induction Hids as [|x y cl ids Hxy Hrest IH]; [by intros _ ?%elem_of_nil|].
  intros [Hy Hnd]%NoDup_cons.
  assert (∀ h, h ∈ cl → cursors w !! h ≫= cursor_id = Some y → False) as Hno.
  { intros h Hh Hhy. apply Hy.
    apply list_elem_of_lookup in Hh as [i Hi].
    destruct (Forall2_lookup_l _ _ _ _ _ Hrest Hi) as (y' & Hy' & Hhy').
    apply list_elem_of_lookup. exists i. congruence. }
  intros [->|H1]%elem_of_cons [->|H2]%elem_of_cons E1 E2; [done|..].
  - exfalso. apply (Hno h2 H2). congruence.
  - exfalso. apply (Hno h1 H1). congruence.
  - by apply IH.
Qed.

(** C4. In a registry that satisfies its invariants, [delspan] on a
    listed span returns, leaves the two cursors of the span out of the
    cursor list and the span out of the span list, and [getcur] with the
    ID either cursor had finds nothing. *)
Theorem delspan_removes_span_and_cursors w s d id_lo id_hi :
  registry_ok w →
  s ∈ spanlist_of w → spans w !! s = Some d →
  cursors w !! span_low d ≫= cursor_id = Some id_lo →
  cursors w !! span_high d ≫= cursor_id = Some id_hi →
  ∃ w',
    DragSpan_delspan s w = (Ok tt, w') ∧
    (span_low d ∉ curlist_of w') ∧
    (span_high d ∉ curlist_of w') ∧
    (s ∉ spanlist_of w') ∧
    getcur id_lo w' = (Ok None, w') ∧
    getcur id_hi w' = (Ok None, w').
Proof.
  intros [Hndc Hnds (ids & Hids & Hndi) Hsp] Hs Hd Hidlo Hidhi.
  destruct (Hsp s Hs) as (d' & Hd' & Hlo & Hhi & Hne).
  assert (d' = d) as -> by congruence.
  destruct (cursors w !! span_low d) as [clo|] eqn:Hclo; [|done].
  destruct (cursors w !! span_high d) as [chi|] eqn:Hchi; [|done].
  cbn in Hidlo, Hidhi.
  assert (∃ tlo, tag clo = Some tlo) as [tlo Htlo].
  { unfold cursor_id, tag_text in Hidlo. destruct (tag clo); [by eexists|done]. }
  assert (∃ thi, tag chi = Some thi) as [thi Hthi].
  { unfold cursor_id, tag_text in Hidhi. destruct (tag chi); [by eexists|done]. }
  assert (∃ cl, curlist w = Some cl) as [cl Hcl].
  { unfold curlist_of in Hlo. destruct (curlist w); [by eexists|].
    by apply elem_of_nil in Hlo. }
  assert (∃ sl, spanlist w = Some sl) as [sl Hsl].
  { unfold spanlist_of in Hs. destruct (spanlist w); [by eexists|].
    by apply elem_of_nil in Hs. }
  assert (curlist_of w = cl) as Ecl by (unfold curlist_of; by rewrite Hcl).
  assert (spanlist_of w = sl) as Esl by (unfold spanlist_of; by rewrite Hsl).
  rewrite Ecl in *. rewrite Esl in *.
  destruct (list_remove_elem_of _ _ Hlo) as [cl1 H1].
  destruct (list_remove_spec _ _ _ H1 Hndc) as (Hnd1 & Hlo1 & Hx1).
  assert (span_high d ∈ cl1) as Hhi1 by (apply Hx1; by split).
  destruct (list_remove_elem_of _ _ Hhi1) as [cl2 H2].
  destruct (list_remove_spec _ _ _ H2 Hnd1) as (Hnd2 & Hhi2 & Hx2).
  destruct (list_remove_elem_of _ _ Hs) as [sl' H3].
  destruct (list_remove_spec _ _ _ H3 Hnds) as (_ & Hs' & _).
  eexists. split.
  { exact (delspan_run _ _ _ _ _ _ _ _ _ _ _ _
             Hd Hclo Htlo Hchi Hthi Hcl H1 H2 Hsl H3). }
  cbv zeta.
  assert (∀ k h, h ∈ cl → h ∉ cl2 →
            cursors w !! h ≫= cursor_id = Some k →
            Forall (λ h', ∃ n, cursors w !! h' ≫= cursor_id = Some n ∧ n ≠ k)
                   cl2) as Hall.
  { intros k h Hh Hh2 Hk. apply Forall_forall. intros h' Hh'.
    assert (h' ∈ cl) as Hin by (apply Hx1, Hx2, Hh').
    apply list_elem_of_lookup in Hin as Hi. destruct Hi as [i Hi].
    unfold display_ids in Hids. rewrite Ecl in Hids.
    destruct (Forall2_lookup_l _ _ _ _ _ (mapM_Some_1 _ _ _ Hids) Hi)
      as (n & _ & Hn).
    exists n. split; [done|]. intros ->. apply Hh2.
    replace h with h'; [done|].
    eapply (display_ids_inj w ids h' h k); rewrite ?Ecl; try done.
    unfold display_ids. by rewrite Ecl. }
  split; [|split; [|split; [|split]]].
  - unfold curlist_of. cbn. intros ?%Hx2. naive_solver.
  - done.
  - done.
  - unfold getcur. erewrite bind_ok; [|by apply ax_curlist_run].
    apply getcur_loop_not_found. cbn [cursors]. eapply (Hall _ (span_low d));
      [done| |by rewrite Hclo]. intros ?%Hx2. naive_solver.
  - unfold getcur. erewrite bind_ok; [|by apply ax_curlist_run].
    apply getcur_loop_not_found. cbn [cursors]. eapply (Hall _ (span_high d));
      [done|done|by rewrite Hchi].
Qed.

Lemma cursor_and_span_ok : registry_ok cursor_and_span.
Proof.
  split.
  - apply (bool_decide_unpack _). by vm_compute.
  - apply (bool_decide_unpack _). by vm_compute.
  - exists [1; 2; 3]%N. split; [by vm_compute|].
    apply (bool_decide_unpack _). by vm_compute.
  - intros s Hs. change (spanlist_of cursor_and_span) with [0%nat] in Hs.
    apply list_elem_of_singleton in Hs as ->.
    eexists. split; [reflexivity|].
    change (curlist_of cursor_and_span) with [0; 1; 2]%nat. cbn.
    split; [|split]; [| |lia];
      apply (bool_decide_unpack _); by vm_compute.
Defined.

Lemma delspan_removes_span_and_cursors_witness :
  registry_ok cursor_and_span ∧
  0%nat ∈ spanlist_of cursor_and_span ∧
  ∃ d w',
    spans cursor_and_span !! 0%nat = Some d ∧
    DragSpan_delspan 0 cursor_and_span = (Ok tt, w') ∧
    (span_low d ∉ curlist_of w') ∧
    (span_high d ∉ curlist_of w') ∧
    (0%nat ∉ spanlist_of w') ∧
    getcur 2 w' = (Ok None, w') ∧
    getcur 3 w' = (Ok None, w').
Proof.
  split; [exact cursor_and_span_ok|].
  assert (0%nat ∈ spanlist_of cursor_and_span) as Hs
    by apply list_elem_of_here.
  split; [exact Hs|].
  destruct (delspan_removes_span_and_cursors cursor_and_span 0 _ 2 3
              cursor_and_span_ok Hs eq_refl eq_refl eq_refl) as [w' H].
  eexists _, w'. split; [reflexivity|]. exact H.
Defined.

(** ** Loading a table *)

Lemma filter_all {A} (P : A → Prop) `{!∀ x, Decision (P x)} (l : list A) :
  Forall P l → filter P l = l.
Proof.
  induction 1 as [|x l Hx _ IH]; [done|].
  by rewrite filter_cons_True, IH.
Qed.

Lemma initcur_run w h c t p g r row :
  cursors w !! h = Some c → tag c = Some t →
  re_search (text t) = Some (p, g, r) →
  initcur h row w = (Ok h, set_cursor h (initcur_set row g t c) w).
Proof.
  intros Hc Ht Hs. unfold initcur.
  rewrite (bind_ok _ _ _ _ _ (set_mode_run _ _ _ _ Hc)).
  fold (mode_set (row_mode row) c). set (c1 := mode_set (row_mode row) c).
  pose proof (lookup_set_cursor w h c1 c Hc) as H1.
  assert (tag c1 = Some t) as Ht1.
  { unfold c1, mode_set.
    by destruct (String.eqb (row_mode row) "interact"),
                (String.eqb (row_mode row) "fixed"). }
  rewrite (bind_ok _ _ _ _ _ (set_color_run _ _ _ _ (row_color row) H1 Ht1)).
  rewrite set_cursor_set_cursor.
  fold (color_set (row_color row) t c1).
  set (c2 := color_set (row_color row) t c1).
  pose proof (lookup_set_cursor w h c2 c Hc) as H2.
  rewrite (bind_ok _ _ _ _ _
             (set_tag_run _ _ _ (with_text_color (row_color row) t)
                p g r (row_tag row) H2 eq_refl Hs)).
  by rewrite set_cursor_set_cursor.
Qed.

Lemma re_search_new_tagstr ids :
  re_search (new_tagstr ids)
  = Some (EmptyString, py_str (nextDisplayId ids), EmptyString).
Proof.
  rewrite new_tagstr_group0, <- (app_empty_r (group0 _)).
  apply re_search_group0, py_str_number.
Qed.

Lemma not_vertspan {P : Prop} : vertical = vertspan → P.
Proof. discriminate. Qed.

Lemma load_cursor_run row w :
  store_ok w →
  (cur_obj ← placecursor (at_x (row_xpos row)); initcur cur_obj row) w
  = (Ok (length (cursors w)), loaded_cursor row w).
Proof.
  intros Hok.
  rewrite (bind_ok _ _ _ _ _
             (eq_trans (placecursor_run _ w)
                (init_run _ vertical "interact" w Hok not_vertspan))).
  erewrite initcur_run;
    [|apply lookup_last|reflexivity|apply re_search_new_tagstr].
  f_equal. unfold loaded_cursor, set_cursor, after_init. cbn.
  by rewrite insert_last.
Qed.

Lemma store_ok_loaded_cursor row w :
  store_ok w → store_ok (loaded_cursor row w).
Proof.
  intros H. pose proof (store_ok_after_init (row_xpos row) vertical
                          "interact" w H) as H'.
  unfold store_ok in *. unfold loaded_cursor. cbn in *.
  by rewrite length_app in *.
Qed.

Lemma store_ok_loaded_span last row w :
  store_ok w → store_ok (loaded_span last row w).
Proof.
  intros H. pose proof (store_ok_after_span_init (row_xpos last)
                          (row_xpos row) w H) as H'.
  unfold store_ok in *. unfold loaded_span. cbn in *.
  by rewrite length_app in *.
Qed.

Lemma insert_app_two_l {A} (l : list A) (a b x : A) :
  <[length l := x]> (l ++ [a; b]) = l ++ [x; b].
Proof. rewrite insert_app_r_alt by lia. by rewrite Nat.sub_diag. Qed.

Lemma insert_app_two_r {A} (l : list A) (a b x : A) :
  <[S (length l) := x]> (l ++ [a; b]) = l ++ [a; x].
Proof.
  rewrite insert_app_r_alt by lia.
  by replace (S (length l) - length l)%nat with 1%nat by lia.
Qed.

Lemma span_set_color_run w s d clo tlo chi thi k :
  spans w !! s = Some d →
  span_low d ≠ span_high d →
  cursors w !! span_low d = Some clo → tag clo = Some tlo →
  cursors w !! span_high d = Some chi → tag chi = Some thi →
  DragSpan_set_color s k w =
  (Ok tt,
   set_span s (with_vspan (mkPolygon (xy (vspan d)) k) (with_span_color k d))
     (set_cursor (span_high d) (color_set k thi chi)
        (set_cursor (span_low d) (color_set k tlo clo) w))).
Proof.
  intros Hd Hne Hlo Htlo Hhi Hthi. unfold DragSpan_set_color.
  rewrite (bind_ok _ _ _ _ _ (update_span_run _ _ _ _ Hd)).
  set (d1 := with_span_color k d). set (w1 := set_span s d1 w).
  assert (spans w1 !! s = Some d1) as Hd1.
  { cbn. apply list_lookup_insert_eq. by eapply lookup_lt_Some. }
  rewrite (bind_ok _ _ _ _ _ (span_at_run _ _ _ Hd1)).
  assert (cursors w1 !! span_low d1 = Some clo) as Hlo1 by done.
  rewrite (bind_ok _ _ _ _ _ (set_color_run _ _ _ _ k Hlo1 Htlo)).
  fold (color_set k tlo clo). set (w2 := set_cursor (span_low d1) _ w1).
  assert (cursors w2 !! span_high d1 = Some chi) as Hhi2.
  { unfold w2. by rewrite lookup_set_cursor_ne. }
  rewrite (bind_ok _ _ _ _ _ (set_color_run _ _ _ _ k Hhi2 Hthi)).
  fold (color_set k thi chi). set (w3 := set_cursor (span_high d1) _ w2).
  assert (spans w3 !! s = Some d1) as Hd3 by done.
  rewrite (update_span_run _ _ _ _ Hd3). f_equal.
  unfold set_span, w3, w2, w1, set_cursor, set_span. cbn.
  by rewrite list_insert_insert_eq.
Qed.

Lemma load_span_run last row w :
  store_ok w →
  (span_obj ← placespan (span_between (row_xpos last) (row_xpos row));
   DragSpan_set_color span_obj (row_color row) ;;
   d ← span_at span_obj;
   initcur (span_low d) last ;;
   initcur (span_high d) row) w
  = (Ok (S (length (cursors w))), loaded_span last row w).
Proof.
  intros Hok.
  rewrite (bind_ok _ _ _ _ _
             (eq_trans
                (placespan_run (span_between (row_xpos last) (row_xpos row)) w)
                (span_init_run (row_xpos last) (row_xpos row) w Hok))).
  set (s := length (spans w)). set (lo := length (cursors w)).
  set (k := row_color row).
  set (w1 := after_init (row_xpos last) vertspan "interact" w).
  set (w2 := after_span_init (row_xpos last) (row_xpos row) w).
  set (tag_lo := new_tagstr (existing_ids w (curlist_of w))).
  set (tag_hi := new_tagstr (existing_ids w1 (curlist_of w1))).
  set (t_lo := mkText tag_lo (row_xpos last) "r").
  set (t_hi := mkText tag_hi (row_xpos row) "r").
  set (c_lo := with_spanobj (Some s)
                 (new_cursor (row_xpos last) vertspan "interact" tag_lo
                    (next_cid w))).
  set (c_hi := with_spanobj (Some s)
                 (new_cursor (row_xpos row) vertspan "interact" tag_hi
                    (3 + next_cid w)%nat)).
  set (d0 := mkSpan "r" lo (S lo)
               (mkPolygon [(row_xpos last, 0); (row_xpos last, 1);
                           (row_xpos row, 1); (row_xpos row, 0)] "r")
               (6 + next_cid w)%nat).
  assert (cursors w2 = cursors w ++ [c_lo; c_hi]) as Hcs by reflexivity.
  assert (spans w2 = spans w ++ [d0]) as Hss by reflexivity.
  assert (spans w2 !! s = Some d0) as Hd0 by apply lookup_last.
  assert (cursors w2 !! span_low d0 = Some c_lo) as Hlo
    by apply lookup_app_two_l.
  assert (cursors w2 !! span_high d0 = Some c_hi) as Hhi
    by apply lookup_app_two_r.
  assert (span_low d0 ≠ span_high d0) as Hne by (cbn; lia).
  rewrite (bind_ok _ _ _ _ _
             (span_set_color_run w2 s d0 c_lo t_lo c_hi t_hi k
                Hd0 Hne Hlo eq_refl Hhi eq_refl)).
  set (d1 := with_vspan _ _).
  set (c_lo1 := color_set k t_lo c_lo). set (c_hi1 := color_set k t_hi c_hi).
  set (w3 := set_span s d1 _).
  assert (cursors w3 = cursors w ++ [c_lo1; c_hi1]) as Hcs3.
  { unfold w3. cbn [cursors set_span set_cursor with_spans with_cursors].
    rewrite Hcs. cbn [span_low span_high d0]. unfold lo.
    by rewrite insert_app_two_l, insert_app_two_r. }
  assert (spans w3 !! s = Some d1) as Hd1.
  { cbn. apply list_lookup_insert_eq. rewrite length_app. cbn.
    unfold s. lia. }
  rewrite (bind_ok _ _ _ _ _ (span_at_run _ _ _ Hd1)).
  assert (cursors w3 !! span_low d1 = Some c_lo1) as Hlo3
    by (rewrite Hcs3; apply lookup_app_two_l).
  rewrite (bind_ok _ _ _ _ _
             (initcur_run _ _ _ (with_text_color k t_lo) _ _ _ last
                Hlo3 eq_refl (re_search_new_tagstr _))).
  set (c_lo2 := initcur_set last _ _ c_lo1).
  set (w4 := set_cursor (span_low d1) c_lo2 w3).
  assert (cursors w4 = cursors w ++ [c_lo2; c_hi1]) as Hcs4.
  { unfold w4. cbn [cursors set_cursor with_cursors]. rewrite Hcs3.
    apply insert_app_two_l. }
  assert (cursors w4 !! span_high d1 = Some c_hi1) as Hhi4
    by (rewrite Hcs4; apply lookup_app_two_r).
  rewrite (initcur_run _ _ _ (with_text_color k t_hi) _ _ _ row
             Hhi4 eq_refl (re_search_new_tagstr _)).
  f_equal. unfold set_cursor. rewrite Hcs4.
  cbn [span_high d1 with_vspan with_span_color d0]. unfold lo.
  rewrite insert_app_two_r.
  unfold loaded_span, w4, w3, set_cursor, set_span.
  cbn [spans cursors with_cursors with_spans curlist spanlist navigate_mode
       xlim fig_cidpress callbacks next_cid].
  fold w2. rewrite Hss. unfold s. rewrite insert_last.
  reflexivity.
Qed.

Lemma load_rows_cons row rows last w :
  store_ok w →
  load_rows (row :: rows) last w =
  if is_cursor_row row then load_rows rows last (loaded_cursor row w)
  else if is_span_row row then
    match last with
    | None => load_rows rows (Some row) w
    | Some l => load_rows rows None (loaded_span l row w)
    end
  else load_rows rows last w.
Proof.
  intros Hok. cbn [load_rows]. unfold is_cursor_row, is_span_row.
  destruct (String.eqb (row_type row) "vertical").
  { by rewrite (bind_bind_ok _ _ _ _ _ _ (load_cursor_run row w Hok)). }
  destruct (String.eqb (row_type row) "vertspan"); [|done].
  destruct last as [l|]; [|done].
  pose proof (load_span_run l row w Hok) as H. revert H. mrun.
  destruct (placespan _ w) as [[s|e] w1]; [|done].
  destruct (DragSpan_set_color s (row_color row) w1) as [[[]|e] w2]; [|done].
  destruct (spans w2 !! s) as [d|]; [|done].
  destruct (initcur (span_low d) l w2) as [[h|e] w3]; [|done].
  destruct (initcur (span_high d) row w3) as [[h'|e] w4]; [|done].
  by intros [= _ <-].
Qed.

(** The loop of [loadcurinfo] returns, whatever the rows. *)
Lemma load_rows_run rows last w :
  store_ok w →
  load_rows rows last w = (Ok tt, loaded rows last w) ∧
  store_ok (loaded rows last w).
Proof.
  revert last w. induction rows as [|row rows IH]; intros last w Hok; [done|].
  rewrite load_rows_cons by done. cbn [loaded].
  destruct (is_cursor_row row).
  - by apply IH, store_ok_loaded_cursor.
  - destruct (is_span_row row); [|by apply IH].
    destruct last as [l|]; [|by apply IH].
    by apply IH, store_ok_loaded_span.
Qed.

Lemma loadcurinfo_run rows w :
  store_ok w → loadcurinfo rows w = (Ok rows, loaded rows None w).
Proof.
  intros Hok. unfold loadcurinfo.
  by rewrite (bind_ok _ _ _ _ _ (proj1 (load_rows_run rows None w Hok))).
Qed.

(** Without rows of type ['vertspan'] the buffered row plays no role. *)
Lemma loaded_no_span_rows rows last last' w :
  span_rows rows = [] → loaded rows last w = loaded rows last' w.
Proof.
  revert w. induction rows as [|row rows IH]; intros w; [done|].
  unfold span_rows. cbn [filter list_filter loaded].
  destruct (decide (is_span_row row = true)) as [E|E].
  - done.
  - apply not_true_is_false in E. rewrite E. intros H.
    destruct (is_cursor_row row); by apply IH.
Qed.

Lemma span_rows_cons row rows :
  span_rows (row :: rows)
  = if is_span_row row then row :: span_rows rows else span_rows rows.
Proof.
  unfold span_rows. cbn [filter list_filter].
  destruct (is_span_row row); by case_decide.
Qed.

Lemma span_row_not_cursor_row row :
  is_span_row row = true → is_cursor_row row = false.
Proof.
  unfold is_span_row, is_cursor_row. intros ->%String.eqb_eq. done.
Qed.

(** When the rows of type ['vertspan'] leave one of them without partner,
    the last such row is the one: the loop ends as it does on the table
    without it. *)
Lemma loaded_unpaired rows last w :
  span_rows rows ≠ [] →
  Nat.odd (length (span_rows rows))
  = match last with Some _ => false | None => true end →
  loaded rows last w = loaded (without_last_span_row rows) last w.
Proof.
  revert last w. induction rows as [|row rows IH]; intros last w; [done|].
  rewrite span_rows_cons. cbn [without_last_span_row loaded].
  destruct (is_span_row row) eqn:Es.
  - rewrite (span_row_not_cursor_row _ Es). intros _.
    destruct (span_rows rows) as [|r rs] eqn:Er.
    + cbn. destruct last as [l|]; [done|]. intros _.
      by apply loaded_no_span_rows.
    + rewrite <- Er. cbn [length]. rewrite Nat.odd_succ, <- Nat.negb_odd.
      intros Hodd. cbn [loaded]. rewrite Es, (span_row_not_cursor_row _ Es).
      destruct last as [l|].
      * apply IH; [done|]. rewrite <- Er. cbn in Hodd. revert Hodd.
        by destruct (Nat.odd (length (span_rows rows))).
      * apply IH; [done|]. rewrite <- Er. cbn in Hodd. revert Hodd.
        by destruct (Nat.odd (length (span_rows rows))).
  - intros Hne Hodd. cbn [loaded]. rewrite Es.
    destruct (is_cursor_row row); by apply IH.
Qed.

Lemma without_last_span_row_spec rows :
  span_rows rows ≠ [] →
  ∃ before r after,
    rows = before ++ r :: after ∧ is_span_row r = true ∧
    span_rows after = [] ∧ without_last_span_row rows = before ++ after.
Proof.
  induction rows as [|row rows IH]; [done|].
  rewrite span_rows_cons. cbn [without_last_span_row].
  destruct (is_span_row row) eqn:Es.
  - intros _. destruct (span_rows rows) as [|r' rs] eqn:Er.
    + by exists [], row, rows.
    + destruct IH as (before & r & after & -> & Hr & Ha & ->); [done|].
      by exists (row :: before), r, after.
  - intros Hne. destruct (IH Hne) as (before & r & after & -> & Hr & Ha & ->).
    by exists (row :: before), r, after.
Qed.

(** *** What the loop adds to the axes *)

Lemma initcur_set_fields row g t c :
  orient (initcur_set row g t c) = orient c ∧
  position (initcur_set row g t c) = position c ∧
  mode (initcur_set row g t c) = row_mode row ∧
  color (initcur_set row g t c) = row_color row ∧
  tag_text (initcur_set row g t c) = Some (new_tag (row_tag row) g).
Proof.
  unfold initcur_set, tag_set, color_set, mode_set, position, tag_text.
  by destruct (String.eqb (row_mode row) "interact"),
              (String.eqb (row_mode row) "fixed").
Qed.

Lemma next_digits_number w : is_number (next_digits w).
Proof. apply py_str_number. Qed.

(** A row of type ['vertical'] adds one cursor, at the end of the store
    and of the cursor list. *)
Lemma loaded_cursor_spec row w :
  is_cursor_row row = true →
  ∃ c,
    cursors (loaded_cursor row w) = cursors w ++ [c] ∧
    curlist_of (loaded_cursor row w) = curlist_of w ++ [length (cursors w)] ∧
    spans (loaded_cursor row w) = spans w ∧
    spanlist_of (loaded_cursor row w) = spanlist_of w ∧
    set_up_from row c ∧
    tag_text c = Some (new_tag (row_tag row) (next_digits w)).
Proof.
  intros Hty%String.eqb_eq. eexists. split; [reflexivity|].
  do 3 (split; [reflexivity|]).
  destruct (initcur_set_fields row (next_digits w)
              (mkText (new_tagstr (existing_ids w (curlist_of w)))
                      (row_xpos row) "r")
              (new_cursor (row_xpos row) vertical "interact"
                 (new_tagstr (existing_ids w (curlist_of w))) (next_cid w)))
    as (Ho & Hp & Hm & Hk & Ht).
  split; [|exact Ht].
  unfold set_up_from. rewrite Ho, Hp, Hm, Hk, Ht, Hty.
  do 4 (split; [reflexivity|]).
  exists (next_digits w). split; [apply next_digits_number|done].
Qed.

(** The second row of a pair of type ['vertspan'] adds two cursors and
    the span between them. *)
Lemma loaded_span_spec last row w :
  is_span_row last = true → is_span_row row = true →
  ∃ clo chi d,
    cursors (loaded_span last row w) = cursors w ++ [clo; chi] ∧
    curlist_of (loaded_span last row w)
    = curlist_of w ++ [length (cursors w); S (length (cursors w))] ∧
    spans (loaded_span last row w) = spans w ++ [d] ∧
    spanlist_of (loaded_span last row w) = spanlist_of w ++ [length (spans w)] ∧
    span_low d = length (cursors w) ∧ span_high d = S (length (cursors w)) ∧
    span_color d = row_color row ∧
    set_up_from last clo ∧ set_up_from row chi ∧
    tag_text clo = Some (new_tag (row_tag last) (next_digits w)) ∧
    tag_text chi
    = Some (new_tag (row_tag row)
              (next_digits (after_init (row_xpos last) vertspan "interact" w))).
Proof.
  intros Hl%String.eqb_eq Hr%String.eqb_eq. eexists _, _, _.
  split; [reflexivity|]. split; [reflexivity|]. split; [reflexivity|].
  split; [reflexivity|]. do 3 (split; [reflexivity|]).
  match goal with
  | |- set_up_from _ (initcur_set ?r1 ?g1 ?t1 ?c1) ∧
       set_up_from _ (initcur_set ?r2 ?g2 ?t2 ?c2) ∧ _ =>
      destruct (initcur_set_fields r1 g1 t1 c1) as (Ho1 & Hp1 & Hm1 & Hk1 & Ht1);
      destruct (initcur_set_fields r2 g2 t2 c2) as (Ho2 & Hp2 & Hm2 & Hk2 & Ht2)
  end.
  split; [|split; [|split; [exact Ht1|exact Ht2]]].
  - unfold set_up_from. rewrite Ho1, Hp1, Hm1, Hk1, Ht1, Hl.
    do 4 (split; [reflexivity|]).
    exists (next_digits w). split; [apply next_digits_number|done].
  - unfold set_up_from. rewrite Ho2, Hp2, Hm2, Hk2, Ht2, Hr.
    do 4 (split; [reflexivity|]).
    eexists. split; [apply next_digits_number|done].
Qed.

Lemma cursor_row_not_span_row row :
  is_cursor_row row = true → is_span_row row = false.
Proof.
  unfold is_span_row, is_cursor_row. intros ->%String.eqb_eq. done.
Qed.

Lemma known_cons row rows :
  filter (λ r, known_type r = true) (row :: rows)
  = if known_type row then row :: filter (λ r, known_type r = true) rows
    else filter (λ r, known_type r = true) rows.
Proof.
  cbn [filter list_filter]. destruct (known_type row); by case_decide.
Qed.

(** The rows of a known type are installed, each once, when none of type
    ['vertspan'] is left without partner. *)
Lemma loaded_installs rows : ∀ last w,
  from_option (λ l, is_span_row l = true) True last →
  Nat.odd (length (span_rows rows))
  = match last with Some _ => true | None => false end →
  ∃ cs ss rs,
    cursors (loaded rows last w) = cursors w ++ cs ∧
    curlist_of (loaded rows last w)
    = curlist_of w ++ seq (length (cursors w)) (length cs) ∧
    spans (loaded rows last w) = spans w ++ ss ∧
    spanlist_of (loaded rows last w)
    = spanlist_of w ++ seq (length (spans w)) (length ss) ∧
    (2 * length ss = length (option_list last ++ span_rows rows))%nat ∧
    rs ≡ₚ option_list last ++ filter (λ r, known_type r = true) rows ∧
    Forall2 set_up_from rs cs.
Proof.
  induction rows as [|row rows IH]; intros last w Hlast Hodd.
  - destruct last; [done|]. exists [], [], []. cbn. by rewrite !app_nil_r.
  - revert Hodd. rewrite span_rows_cons, known_cons. unfold known_type.
    cbn [loaded].
    destruct (is_cursor_row row) eqn:Ec; [|destruct (is_span_row row) eqn:Es].
    + rewrite (cursor_row_not_span_row _ Ec). intros Hodd.
      destruct (loaded_cursor_spec row w Ec)
        as (c & Hcs & Hcl & Hss & Hsl & Hc & _).
      destruct (IH last (loaded_cursor row w) Hlast Hodd)
        as (cs & ss & rs & H1 & H2 & H3 & H4 & H5 & H6 & H7).
      exists (c :: cs), ss, (row :: rs).
      rewrite H1, H2, H3, H4, Hcs, Hcl, Hss, Hsl, length_app, <- !app_assoc.
      cbn [length app orb]. replace (length (cursors w) + 1)%nat
        with (S (length (cursors w))) by lia.
      do 5 (split; [done|]). split; [|by constructor].
      rewrite H6. apply Permutation_middle.
    + cbn [length orb]. rewrite Nat.odd_succ, <- Nat.negb_odd.
      destruct last as [l|]; intros Hodd.
      * destruct (loaded_span_spec l row w Hlast Es)
          as (clo & chi & d & Hcs & Hcl & Hss & Hsl & _ & _ & _ & Hlo & Hhi & _).
        destruct (IH None (loaded_span l row w) I)
          as (cs & ss & rs & H1 & H2 & H3 & H4 & H5 & H6 & H7).
        { by destruct (Nat.odd (length (span_rows rows))). }
        exists (clo :: chi :: cs), (d :: ss), (l :: row :: rs).
        rewrite H1, H2, H3, H4, Hcs, Hcl, Hss, Hsl, !length_app, <- !app_assoc.
        unfold option_list in H5, H6 |- *. cbn [length app option_rect] in H5, H6 |- *.
        replace (length (cursors w) + 2)%nat
          with (S (S (length (cursors w)))) by lia.
        replace (length (spans w) + 1)%nat with (S (length (spans w))) by lia.
        do 4 (split; [done|]). split; [lia|].
        split; [by rewrite H6|].
        constructor; [done|]. by constructor.
      * destruct (IH (Some row) w Es)
          as (cs & ss & rs & H1 & H2 & H3 & H4 & H5 & H6 & H7).
        { by destruct (Nat.odd (length (span_rows rows))). }
        exists cs, ss, rs. unfold option_list in H5, H6 |- *.
        by cbn [length app option_rect] in H5, H6 |- *.
    + cbn [orb]. intros Hodd. by apply IH.
Qed.

Lemma span_position_app w w' cs ss s p :
  cursors w' = cursors w ++ cs → spans w' = spans w ++ ss →
  span_position w s = Some p → span_position w' s = Some p.
Proof.
  unfold span_position. intros -> ->.
  destruct (spans w !! s) as [d|] eqn:Hd; [|done].
  rewrite (lookup_app_l_Some _ _ _ _ Hd). cbn.
  destruct (cursors w !! span_low d) as [lo|] eqn:Hlo; [|done].
  rewrite (lookup_app_l_Some _ _ _ _ Hlo). cbn.
  destruct (cursors w !! span_high d) as [hi|] eqn:Hhi; [|done].
  by rewrite (lookup_app_l_Some _ _ _ _ Hhi).
Qed.

Lemma span_position_lookup w s d lo hi :
  spans w !! s = Some d → cursors w !! span_low d = Some lo →
  cursors w !! span_high d = Some hi →
  span_position w s = Some (position lo, position hi).
Proof.
  intros Hd Hl Hh. unfold span_position. rewrite Hd. cbn. rewrite Hl. cbn.
  by rewrite Hh.
Qed.

Lemma span_positions_app w w' cs ss sp new ps :
  cursors w' = cursors w ++ cs → spans w' = spans w ++ ss →
  spanlist_of w' = spanlist_of w ++ new →
  span_positions w = Some sp → mapM (span_position w') new = Some ps →
  span_positions w' = Some (sp ++ ps).
Proof.
  intros Hcs Hss Hsl Hsp Hps. unfold span_positions in *.
  rewrite Hsl, mapM_app, Hps.
  assert (mapM (span_position w') (spanlist_of w) = Some sp) as ->; [|done].
  apply mapM_Some_2. apply mapM_Some_1 in Hsp.
  eapply Forall2_impl; [exact Hsp|]. intros s p.
  by apply span_position_app with cs ss.
Qed.

(** The loop builds the spans from the rows of type ['vertspan'] taken
    two by two as they come, whatever stands between them. *)
Lemma loaded_pairs rows : ∀ last w sp,
  from_option (λ l, is_span_row l = true) True last →
  span_positions w = Some sp →
  ∃ cs ss,
    cursors (loaded rows last w) = cursors w ++ cs ∧
    curlist_of (loaded rows last w)
    = curlist_of w ++ seq (length (cursors w)) (length cs) ∧
    spans (loaded rows last w) = spans w ++ ss ∧
    spanlist_of (loaded rows last w)
    = spanlist_of w ++ seq (length (spans w)) (length ss) ∧
    span_positions (loaded rows last w)
    = Some (sp ++ paired (row_xpos <$> option_list last ++ span_rows rows)).
Proof.
  induction rows as [|row rows IH]; intros last w sp Hlast Hsp.
  - exists [], []. cbn. rewrite !app_nil_r. do 4 (split; [done|]).
    destruct last; cbn; by rewrite app_nil_r.
  - rewrite span_rows_cons. cbn [loaded].
    destruct (is_cursor_row row) eqn:Ec; [|destruct (is_span_row row) eqn:Es].
    + rewrite (cursor_row_not_span_row _ Ec).
      destruct (loaded_cursor_spec row w Ec)
        as (c & Hcs & Hcl & Hss & Hsl & _ & _).
      destruct (IH last (loaded_cursor row w) sp Hlast)
        as (cs & ss & H1 & H2 & H3 & H4 & H5).
      { rewrite <- (app_nil_r sp).
        apply (span_positions_app w _ [c] [] sp [] []);
          rewrite ?app_nil_r; done. }
      exists (c :: cs), ss.
      rewrite H1, H2, H3, H4, H5, Hcs, Hcl, Hss, Hsl, length_app, <- !app_assoc.
      cbn [length app]. replace (length (cursors w) + 1)%nat
        with (S (length (cursors w))) by lia.
      done.
    + destruct last as [l|].
      * destruct (loaded_span_spec l row w Hlast Es)
          as (clo & chi & d & Hcs & Hcl & Hss & Hsl & Hlo & Hhi & _
              & (_ & Hpl & _) & (_ & Hph & _) & _).
        destruct (IH None (loaded_span l row w)
                    (sp ++ [(row_xpos l, row_xpos row)]) I)
          as (cs & ss & H1 & H2 & H3 & H4 & H5).
        { apply (span_positions_app w _ [clo; chi] [d] sp
                   [length (spans w)]); try done.
          cbn [mapM].
          rewrite (span_position_lookup _ _ d clo chi), Hpl, Hph; [done|..].
          - rewrite Hss. apply lookup_last.
          - rewrite Hlo, Hcs. apply lookup_app_two_l.
          - rewrite Hhi, Hcs. apply lookup_app_two_r. }
        exists (clo :: chi :: cs), (d :: ss).
        rewrite H1, H2, H3, H4, H5, Hcs, Hcl, Hss, Hsl, !length_app,
          <- !app_assoc.
        cbn [length app].
        replace (length (cursors w) + 2)%nat
          with (S (S (length (cursors w)))) by lia.
        replace (length (spans w) + 1)%nat with (S (length (spans w))) by lia.
        done.
      * destruct (IH (Some row) w sp Es Hsp)
          as (cs & ss & H1 & H2 & H3 & H4 & H5).
        by exists cs, ss.
    + by apply IH.
Qed.

Lemma span_rows_app rows rows' :
  span_rows (rows ++ rows') = span_rows rows ++ span_rows rows'.
Proof. apply filter_app. Qed.

(** C2 as stated fails: a table whose only row is of type ['vertspan']
    is loaded without any error; [loadcurinfo] returns the table and the
    axes is as before. *)
Lemma load_of_unpaired_row_returns :
  Nat.odd (length (span_rows lone_span_row)) = true ∧
  loadcurinfo lone_span_row new_axes = (Ok lone_span_row, new_axes).
Proof. split; reflexivity. Qed.

(** C2, amended.  When the rows of type ['vertspan'] of the table are odd
    in number, [loadcurinfo] still returns the table and raises nothing;
    the last such row is dropped in silence: the axes ends as it does for
    the table without that row.  Every other row of type ['vertical'] or
    ['vertspan'] is installed: the axes keeps what it had, and gets one
    cursor for each of these rows, set up from the row and put at the end
    of the cursor list, and one span for every two rows of type
    ['vertspan']. *)
Theorem load_drops_unpaired_span_row rows w :
  store_ok w →
  Nat.odd (length (span_rows rows)) = true →
  ∃ w' before r after cs ss rs,
    loadcurinfo rows w = (Ok rows, w') ∧
    rows = before ++ r :: after ∧
    is_span_row r = true ∧ span_rows after = [] ∧
    loadcurinfo (before ++ after) w = (Ok (before ++ after), w') ∧
    cursors w' = cursors w ++ cs ∧
    curlist_of w' = curlist_of w ++ seq (length (cursors w)) (length cs) ∧
    spans w' = spans w ++ ss ∧
    spanlist_of w' = spanlist_of w ++ seq (length (spans w)) (length ss) ∧
    (2 * length ss + 1 = length (span_rows rows))%nat ∧
    rs ≡ₚ filter (λ r, known_type r = true) (before ++ after) ∧
    Forall2 set_up_from rs cs.
Proof.
  intros Hok Hodd.
  assert (span_rows rows ≠ []) as Hne by (by destruct (span_rows rows)).
  destruct (without_last_span_row_spec rows Hne)
    as (before & r & after & E & Hr & Ha & Ew).
  assert (length (span_rows rows)
          = S (length (span_rows (before ++ after)))) as Hlen.
  { rewrite E, !span_rows_app, span_rows_cons, Hr, Ha, !length_app. cbn. lia. }
  assert (loaded rows None w = loaded (before ++ after) None w) as Hsame.
  { rewrite <- Ew. by apply loaded_unpaired. }
  destruct (loaded_installs (before ++ after) None w I)
    as (cs & ss & rs & H1 & H2 & H3 & H4 & H5 & H6 & H7).
  { rewrite Hlen, Nat.odd_succ, <- Nat.negb_odd in Hodd.
    by destruct (Nat.odd (length (span_rows (before ++ after)))). }
  exists (loaded rows None w), before, r, after, cs, ss, rs.
  split; [by apply loadcurinfo_run|]. do 3 (split; [done|]).
  split; [rewrite Hsame; by apply loadcurinfo_run|].
  rewrite Hsame. do 4 (split; [done|]).
  split; [cbn in H5; lia|]. done.
Qed.

Lemma load_drops_unpaired_span_row_witness :
  store_ok cursor_and_span ∧
  Nat.odd (length (span_rows table_with_unpaired_row)) = true ∧
  position <$> cursors (loadcurinfo table_with_unpaired_row cursor_and_span).2
  = [0; -3; 3; 1; 10; 20; 40] ∧
  ∃ w' before r after cs ss rs,
    loadcurinfo table_with_unpaired_row cursor_and_span
    = (Ok table_with_unpaired_row, w') ∧
    table_with_unpaired_row = before ++ r :: after ∧
    is_span_row r = true ∧ span_rows after = [] ∧
    loadcurinfo (before ++ after) cursor_and_span
    = (Ok (before ++ after), w') ∧
    cursors w' = cursors cursor_and_span ++ cs ∧
    curlist_of w'
    = curlist_of cursor_and_span
        ++ seq (length (cursors cursor_and_span)) (length cs) ∧
    spans w' = spans cursor_and_span ++ ss ∧
    spanlist_of w'
    = spanlist_of cursor_and_span
        ++ seq (length (spans cursor_and_span)) (length ss) ∧
    (2 * length ss + 1 = length (span_rows table_with_unpaired_row))%nat ∧
    rs ≡ₚ filter (λ r, known_type r = true) (before ++ after) ∧
    Forall2 set_up_from rs cs.
Proof.
  assert (store_ok cursor_and_span) as Hok
    by (unfold store_ok; vm_compute; repeat constructor).
  split; [exact Hok|]. split; [reflexivity|].
  split; [vm_compute; reflexivity|].
  exact (load_drops_unpaired_span_row table_with_unpaired_row cursor_and_span
           Hok eq_refl).
Defined.

(** ** Events on cursors in mode ['fixed'] *)

Section Frozen.

Variable cs0 : list DragCursor.

Local Abbreviation J := (frozen cs0).
Local Abbreviation n := (length cs0).

Lemma keeps_ret {A} (a : A) (Q : A → Prop) : Q a → keeps J (mret a) Q.
Proof. intros H w Hw. split; [done|]. by intros ? [= <-]. Qed.

Lemma keeps_raise {A} e (Q : A → Prop) : keeps J (raise e) Q.
Proof. intros w Hw. split; [done|]. by intros ? [=]. Qed.

Lemma keeps_bind {A B} (m : M A) (f : A → M B) Q R :
  keeps J m Q → (∀ a, Q a → keeps J (f a) R) → keeps J (m ≫= f) R.
Proof.
  intros Hm Hf w Hw. destruct (Hm w Hw) as [Hw' Ha]. mrun.
  destruct (m w) as [[a|e] w']; cbn in *; [|by split].
  by apply (Hf a (Ha a eq_refl)).
Qed.

Lemma keeps_weaken {A} (m : M A) (Q R : A → Prop) :
  keeps J m Q → (∀ a, Q a → R a) → keeps J m R.
Proof. intros Hm HQ w Hw. destruct (Hm w Hw). naive_solver. Qed.

Lemma keeps_get_world : keeps J get_world J.
Proof. intros w Hw. split; [done|]. by intros ? [= <-]. Qed.

Lemma keeps_modify f : (∀ w, J w → J (f w)) → keeps J (modify f) (λ _, True).
Proof. intros H w Hw. split; [by apply H|done]. Qed.

Lemma keeps_cursor_at h :
  keeps J (cursor_at h) (λ c, ∀ c0, cs0 !! h = Some c0 → c = c0).
Proof.
  intros w Hw. mrun. destruct (cursors w !! h) as [c|] eqn:Hc; cbn.
  - split; [done|]. intros ? [= <-] c0 H0.
    apply (proj1 Hw) in H0. congruence.
  - done.
Qed.

Lemma keeps_span_at s : keeps J (span_at s) (λ _, True).
Proof. intros w Hw. mrun. by destruct (spans w !! s). Qed.

Lemma keeps_tag_of h : keeps J (tag_of h) (λ _, True).
Proof.
  intros w Hw. unfold tag_of. mrun.
  destruct (cursors w !! h) as [c|]; [|done]. by destruct (tag c).
Qed.

Lemma keeps_ax_curlist : keeps J ax_curlist (λ _, True).
Proof. intros w Hw. mrun. by destruct (curlist w). Qed.

Lemma keeps_ax_spanlist : keeps J ax_spanlist (λ _, True).
Proof. intros w Hw. mrun. by destruct (spanlist w). Qed.

Lemma frozen_length w : J w → (n ≤ length (cursors w))%nat.
Proof.
  intros [H1 _]. destruct cs0 as [|c0 cs] eqn:E using rev_ind; [cbn; lia|].
  clear IHcs. rewrite length_app. cbn.
  pose proof (H1 (length cs) c0 (lookup_last _ _)) as H.
  apply lookup_lt_Some in H. lia.
Qed.

(** A cursor beyond [cs0] may change freely; one of [cs0] must stay. *)
Lemma keeps_update_cursor h f :
  (∀ c0, cs0 !! h = Some c0 → f c0 = c0) →
  keeps J (update_cursor h f) (λ _, True).
Proof.
  intros Hf w Hw. unfold update_cursor. mrun.
  destruct (cursors w !! h) as [c|] eqn:Hc; cbn; [|done].
  split; [|done]. destruct Hw as [H1 H2]. split; [|done].
  intros h' c' H'. cbn. destruct (decide (h = h')) as [<-|Hne].
  - rewrite list_lookup_alter_eq, Hc. cbn. f_equal.
    rewrite <- (Hf _ H'). f_equal. apply H1 in H'. congruence.
  - rewrite list_lookup_alter_ne by done. by apply H1.
Qed.

Lemma keeps_update_cursor_new h f :
  (n ≤ h)%nat → keeps J (update_cursor h f) (λ _, True).
Proof.
  intros Hh. apply keeps_update_cursor. intros c0 H0%lookup_lt_Some. lia.
Qed.

Lemma keeps_update_span s f : keeps J (update_span s f) (λ _, True).
Proof.
  intros w Hw. unfold update_span. mrun. by destruct (spans w !! s).
Qed.

Lemma keeps_mpl_connect cb :
  harmless cs0 cb → keeps J (mpl_connect cb) (λ _, True).
Proof.
  intros Hcb w [H1 H2]. split; [|done]. split; [done|]. cbn.
  intros p [Hp| ->%list_elem_of_singleton]%elem_of_app; [by apply H2|done].
Qed.

Lemma keeps_mpl_disconnect cid : keeps J (mpl_disconnect cid) (λ _, True).
Proof.
  intros w [H1 H2]. split; [|done]. split; [done|]. cbn.
  intros p [_ Hp]%list_elem_of_filter. by apply H2.
Qed.

Lemma harmless_new cb h : target cb = Some h → (n ≤ h)%nat → harmless cs0 cb.
Proof. intros Ht Hh h' Ht' Hlt. rewrite Ht in Ht'. injection Ht' as <-. lia. Qed.

Lemma harmless_no_target cb : target cb = None → harmless cs0 cb.
Proof. intros Ht h' Ht'. congruence. Qed.

Lemma frozen_append w c : J w → J (with_cursors (cursors w ++ [c]) w).
Proof.
  intros [H1 H2]. split; [|done]. intros h c0 H0. cbn.
  apply lookup_app_l_Some. by apply H1.
Qed.

Lemma keeps_unit {A} (m : M A) (Q : A → Prop) :
  keeps J m Q → keeps J (m ;; mret tt) (λ _, True).
Proof.
  intros H. eapply keeps_bind; [exact H|]. intros. by apply keeps_ret.
Qed.

Lemma keeps_for_each {A} (l : list A) (body : A → M unit) :
  (∀ x, x ∈ l → keeps J (body x) (λ _, True)) →
  keeps J (for_each l body) (λ _, True).
Proof.
  induction l as [|x l IH]; intros H; cbn [for_each].
  - by apply keeps_ret.
  - eapply keeps_bind; [apply H, list_elem_of_here|]. intros _ _.
    apply IH. intros y Hy. by apply H, list_elem_of_further.
Qed.

Lemma keeps_initag_scan cl acc : keeps J (initag_scan cl acc) (λ _, True).
Proof.
  revert acc. induction cl as [|ci cl IH]; intros acc.
  - by apply keeps_ret.
  - intros w Hw. cbn [initag_scan].
    assert (((s ← tag_get_text ci; id_of_text s) w).2 = w) as E.
    { unfold tag_get_text, id_of_text. mrun.
      destruct (cursors w !! ci) as [c|]; [|done].
      destruct (tag c) as [t|]; [|done].
      destruct (re_search (text t)) as [[[? g] ?]|]; [|done].
      by destruct (py_int g). }
    destruct ((s ← tag_get_text ci; id_of_text s) w) as [[k|e] w'];
      cbn in E; subst w'.
    + by apply IH.
    + destruct (initag_catches e); [by apply IH|done].
Qed.

Lemma keeps_initag self :
  (n ≤ self)%nat → keeps J (initag self) (λ _, True).
Proof.
  intros Hn. unfold initag.
  eapply keeps_bind; [apply keeps_cursor_at|]. intros c _.
  eapply keeps_bind.
  { destruct (orient c); [apply keeps_ax_curlist|apply keeps_ax_spanlist]. }
  intros _ _. eapply keeps_bind; [apply keeps_ax_curlist|]. intros cl _.
  eapply keeps_bind; [apply keeps_initag_scan|]. intros ids _.
  by apply keeps_update_cursor_new.
Qed.

Lemma keeps_connect self :
  (n ≤ self)%nat → keeps J (DragCursor_connect self) (λ _, True).
Proof.
  intros Hn. unfold DragCursor_connect.
  eapply keeps_bind; [by eapply keeps_mpl_connect, harmless_new|].
  intros p _.
  eapply keeps_bind; [by eapply keeps_mpl_connect, harmless_new|].
  intros r _.
  eapply keeps_bind; [by eapply keeps_mpl_connect, harmless_new|].
  intros m _. by apply keeps_update_cursor_new.
Qed.

Lemma keeps_init pos o m :
  keeps J (DragCursor_init pos o m) (λ h, (n ≤ h)%nat).
Proof.
  unfold DragCursor_init.
  eapply keeps_bind; [apply keeps_get_world|]. intros w Hw. cbv zeta.
  pose proof (frozen_length w Hw) as Hn.
  eapply keeps_bind; [apply keeps_modify; intros; by apply frozen_append|].
  intros _ _.
  eapply keeps_bind; [by apply keeps_modify|]. intros _ _.
  eapply keeps_bind; [by apply keeps_initag|]. intros _ _.
  eapply keeps_bind; [by apply keeps_connect|]. intros _ _.
  by apply keeps_ret.
Qed.

Lemma keeps_placecursor pos : keeps J (placecursor pos) (λ _, True).
Proof.
  unfold placecursor.
  eapply keeps_bind; [apply keeps_get_world|]. intros w Hw. cbv zeta.
  eapply keeps_weaken; [apply keeps_init|done].
Qed.

Lemma keeps_span_init lo hi : keeps J (DragSpan_init lo hi) (λ _, True).
Proof.
  unfold DragSpan_init.
  eapply keeps_bind; [apply keeps_get_world|]. intros w Hw. cbv zeta.
  eapply keeps_bind; [by apply keeps_modify|]. intros _ _.
  eapply keeps_bind; [apply keeps_init|]. intros l Hl.
  eapply keeps_bind; [apply keeps_init|]. intros h Hh.
  eapply keeps_bind; [by apply keeps_update_cursor_new|]. intros _ _.
  eapply keeps_bind; [by apply keeps_update_cursor_new|]. intros _ _.
  eapply keeps_bind; [by apply keeps_mpl_connect, harmless_no_target|].
  intros cid _.
  eapply keeps_bind; [by apply keeps_modify|]. intros _ _.
  by apply keeps_ret.
Qed.

Lemma keeps_placespan pos : keeps J (placespan pos) (λ _, True).
Proof.
  unfold placespan.
  eapply keeps_bind; [apply keeps_get_world|]. intros w Hw. cbv zeta.
  destruct pos; apply keeps_span_init.
Qed.

Lemma keeps_remcur_body ci : keeps J (remcur_body ci) (λ _, True).
Proof.
  unfold remcur_body.
  eapply keeps_bind; [apply keeps_cursor_at|]. intros c _.
  eapply keeps_bind; [apply keeps_tag_of|]. intros _ _.
  eapply keeps_bind; [apply keeps_ax_curlist|]. intros cl _.
  eapply keeps_bind.
  { destruct (list_remove ci cl);
      [by apply keeps_modify|apply (keeps_raise _ (λ _, True))]. }
  intros _ _.
  eapply keeps_bind; [apply keeps_mpl_disconnect|]. intros _ _.
  eapply keeps_bind; [apply keeps_mpl_disconnect|]. intros _ _.
  apply keeps_mpl_disconnect.
Qed.

Lemma keeps_remcur_for k i l : keeps J (remcur_for k i l) (λ _, True).
Proof.
  revert i l. induction k as [|k IH]; intros i l; cbn [remcur_for].
  - by apply keeps_ret.
  - destruct (l !! i) as [ci|]; [|by apply keeps_ret].
    eapply keeps_bind; [apply keeps_remcur_body|]. intros _ _.
    destruct (list_remove ci l); [apply IH|apply keeps_raise].
Qed.

Lemma keeps_remcur_while k l : keeps J (remcur_while k l) (λ _, True).
Proof.
  revert l. induction k as [|k IH]; intros l; cbn [remcur_while].
  - by apply keeps_ret.
  - destruct l as [|x l]; [by apply keeps_ret|].
    eapply keeps_bind; [apply keeps_remcur_for|]. intros l' _. apply IH.
Qed.

Lemma keeps_remcur l : keeps J (remcur l) (λ _, True).
Proof. apply keeps_remcur_while. Qed.

Lemma keeps_updatespan s : keeps J (DragSpan_updatespan s) (λ _, True).
Proof.
  unfold DragSpan_updatespan.
  eapply keeps_bind; [apply keeps_span_at|]. intros d _.
  eapply keeps_bind; [apply keeps_cursor_at|]. intros lo _.
  eapply keeps_bind; [apply keeps_cursor_at|]. intros hi _.
  apply keeps_update_span.
Qed.

Lemma keeps_delspan s : keeps J (DragSpan_delspan s) (λ _, True).
Proof.
  unfold DragSpan_delspan.
  eapply keeps_bind; [apply keeps_span_at|]. intros d _.
  eapply keeps_bind; [apply keeps_remcur|]. intros _ _.
  eapply keeps_bind; [apply keeps_remcur|]. intros _ _.
  eapply keeps_bind; [apply keeps_ax_spanlist|]. intros sl _.
  eapply keeps_bind.
  { destruct (list_remove s sl);
      [by apply keeps_modify|apply (keeps_raise _ (λ _, True))]. }
  intros _ _. apply keeps_mpl_disconnect.
Qed.

Lemma keeps_on_press h event :
  harmless cs0 (cursor_on_press h) →
  keeps J (DragCursor_on_press h event) (λ _, True).
Proof.
  intros Hcb. destruct (decide (h < n)%nat) as [Hlt|Hge].
  - destruct (Hcb h eq_refl Hlt) as (c & Hc & Hm & _).
    intros w Hw. rewrite (on_press_fixed w h c event); [done| |done].
    by apply (proj1 Hw).
  - unfold DragCursor_on_press.
    eapply keeps_bind; [apply keeps_cursor_at|]. intros c _.
    destruct (negb (in_this_axes event)); [by apply keeps_ret|].
    destruct (String.eqb (mode c) "fixed"); [by apply keeps_ret|].
    eapply keeps_bind; [apply keeps_get_world|]. intros w Hw.
    destruct (navigate_mode w); [by apply keeps_ret|].
    destruct (negb (bool_decide (h ∈ on_lines event)));
      [by apply keeps_ret|].
    cbv zeta.
    eapply keeps_bind; [apply keeps_update_cursor_new; lia|]. intros _ _.
    destruct ((button event =? 3) && negb (is_vertspan (orient c)));
      [apply keeps_remcur|by apply keeps_ret].
Qed.

Lemma keeps_on_motion h event :
  harmless cs0 (cursor_on_motion h) →
  keeps J (DragCursor_on_motion h event) (λ _, True).
Proof.
  intros Hcb. destruct (decide (h < n)%nat) as [Hlt|Hge].
  - destruct (Hcb h eq_refl Hlt) as (c & Hc & _ & Hp).
    intros w Hw. rewrite (on_motion_idle w h c event); [done| |done].
    by apply (proj1 Hw).
  - unfold DragCursor_on_motion.
    eapply keeps_bind; [apply keeps_cursor_at|]. intros c _.
    destruct (_press c) as [[[[x0 y0] xpress] ypress]|];
      [|by apply keeps_ret].
    destruct (negb (in_this_axes event)); [by apply keeps_ret|].
    eapply keeps_bind; [apply keeps_update_cursor_new; lia|]. intros _ _.
    eapply keeps_bind; [apply keeps_tag_of|]. intros t _.
    eapply keeps_bind; [apply keeps_update_cursor_new; lia|]. intros _ _.
    destruct (orient c); [by apply keeps_ret|].
    destruct (spanobj c); [apply keeps_updatespan|apply keeps_raise].
Qed.

Lemma keeps_on_release h event :
  harmless cs0 (cursor_on_release h) →
  keeps J (DragCursor_on_release h event) (λ _, True).
Proof.
  intros Hcb. unfold DragCursor_on_release. apply keeps_update_cursor.
  intros c0 Hc0.
  destruct (Hcb h eq_refl (lookup_lt_Some _ _ _ Hc0)) as (c & Hc & _ & Hp).
  assert (c = c0) as -> by congruence.
  destruct c0 as [? ? ? ? ? p ? ? ? ?]. cbn in Hp. by subst p.
Qed.

Lemma keeps_span_on_press s event :
  keeps J (DragSpan_on_press s event) (λ _, True).
Proof.
  unfold DragSpan_on_press.
  eapply keeps_bind; [apply keeps_span_at|]. intros d _.
  destruct (negb (in_this_axes event)); [by apply keeps_ret|].
  eapply keeps_bind; [apply keeps_get_world|]. intros w Hw.
  destruct (navigate_mode w); [by apply keeps_ret|].
  eapply keeps_bind; [apply keeps_cursor_at|]. intros lo _.
  destruct (String.eqb (mode lo) "fixed"); [by apply keeps_ret|].
  destruct (negb (bool_decide (s ∈ on_spans event))); [by apply keeps_ret|].
  destruct (button event =? 3); [apply keeps_delspan|by apply keeps_ret].
Qed.

Lemma keeps_curonclick_handler event :
  keeps J (curonclick_handler event) (λ _, True).
Proof.
  unfold curonclick_handler.
  destruct (inaxes event); [|by apply keeps_ret].
  destruct (button event =? 2); [|by apply keeps_ret].
  eapply keeps_unit, keeps_placecursor.
Qed.

Lemma keeps_spanonclick_handler event :
  keeps J (spanonclick_handler event) (λ _, True).
Proof.
  unfold spanonclick_handler.
  destruct (inaxes event); [|by apply keeps_ret].
  destruct (button event =? 2); [|by apply keeps_ret].
  eapply keeps_unit, keeps_placespan.
Qed.

Lemma keeps_call cb event :
  harmless cs0 cb → keeps J (call cb event) (λ _, True).
Proof.
  intros Hcb. destruct cb; cbn [call].
  - by apply keeps_on_press.
  - by apply keeps_on_release.
  - by apply keeps_on_motion.
  - apply keeps_span_on_press.
  - apply keeps_curonclick_handler.
  - apply keeps_spanonclick_handler.
Qed.

Lemma keeps_process s event : keeps J (process s event) (λ _, True).
Proof.
  unfold process.
  eapply keeps_bind; [apply keeps_get_world|]. intros w Hw.
  apply keeps_for_each. intros p [_ Hp]%list_elem_of_filter.
  by apply keeps_call, (proj2 Hw).
Qed.

Lemma frozen_deliver evs w : J w → J (deliver evs w).
Proof.
  revert w. induction evs as [|ev evs IH]; intros w Hw; [done|].
  cbn [deliver foldl]. apply IH. by apply keeps_process.
Qed.

End Frozen.

Lemma mode_set_press m c : _press (mode_set m c) = _press c.
Proof.
  unfold mode_set.
  by destruct (String.eqb m "interact"), (String.eqb m "fixed").
Qed.

Lemma mode_set_mode m c : mode (mode_set m c) = m.
Proof.
  unfold mode_set.
  by destruct (String.eqb m "interact"), (String.eqb m "fixed").
Qed.

(** [set_mode] on each cursor of a list, when the loop returns. *)
Lemma set_modes_run l m w w1 :
  for_each l (λ ci, DragCursor_set_mode ci m) w = (Ok tt, w1) →
  callbacks w1 = callbacks w ∧ curlist w1 = curlist w ∧
  (∀ h, _press <$> cursors w1 !! h = _press <$> cursors w !! h) ∧
  (∀ h, mode <$> cursors w !! h = Some m → mode <$> cursors w1 !! h = Some m) ∧
  (∀ h, h ∈ l → mode <$> cursors w1 !! h = Some m).
Proof.
  revert w. induction l as [|x l IH]; intros w; cbn [for_each].
  - intros [= <-]. repeat split; try done. by intros h ?%elem_of_nil.
  - destruct (cursors w !! x) as [c|] eqn:Hc.
    2:{ unfold DragCursor_set_mode, update_cursor. mrun. by rewrite Hc. }
    rewrite (bind_ok _ _ _ _ _ (set_mode_run _ _ _ m Hc)).
    fold (mode_set m c). set (w' := set_cursor x (mode_set m c) w).
    intros (Hcb & Hcl & Hp & Hm & Hl)%IH.
    assert (∀ h, _press <$> cursors w' !! h = _press <$> cursors w !! h)
      as Hp'.
    { intros h. destruct (decide (x = h)) as [<-|Hne].
      - unfold w'. rewrite (lookup_set_cursor w x (mode_set m c) c Hc), Hc. cbn.
        by rewrite mode_set_press.
      - unfold w'. by rewrite lookup_set_cursor_ne. }
    assert (mode <$> cursors w' !! x = Some m) as Hx.
    { unfold w'. rewrite (lookup_set_cursor w x (mode_set m c) c Hc). cbn.
      by rewrite mode_set_mode. }
    split; [done|]. split; [done|]. split; [|split].
    + intros h. by rewrite Hp, Hp'.
    + intros h Hh. apply Hm. destruct (decide (x = h)) as [<-|Hne]; [done|].
      unfold w'. by rewrite lookup_set_cursor_ne.
    + intros h [->|Hh]%elem_of_cons; [by apply Hm|by apply Hl].
Qed.

(** C7. A press on a cursor in mode ['fixed'] returns at once and leaves
    the world as it is; the cursor holds no capture afterwards, so motion
    events leave it where it is.  After [setcursormode('fixed', 'all')]
    on an axes where no drag is under way, every cursor of the list is in
    mode ['fixed'] and IDLE, and stays exactly as it is (position, mode,
    drag state) whatever press, release and motion events the canvas then
    delivers to all its callbacks. *)
Theorem fixed_cursors_stay_in_place :
  (∀ w h c press motion,
     cursors w !! h = Some c → mode c = "fixed" →
     DragCursor_on_press h press w = (Ok tt, w) ∧
     (state_of c = IDLE → DragCursor_on_motion h motion w = (Ok tt, w))) ∧
  (∀ w w1,
     (∀ p h, p ∈ callbacks w → target p.2 = Some h → h ∈ curlist_of w) →
     (∀ h c, h ∈ curlist_of w → cursors w !! h = Some c → state_of c = IDLE) →
     setcursormode "fixed" all_cursors w = (Ok tt, w1) →
     ∀ h, h ∈ curlist_of w1 →
       ∃ c, cursors w1 !! h = Some c ∧ mode c = "fixed" ∧
            state_of c = IDLE ∧
            ∀ evs, cursors (deliver evs w1) !! h = Some c).
Proof.
  split.
  - intros w h c press motion Hc Hm. split; [by apply on_press_fixed with c|].
    unfold state_of. intros Hs. apply on_motion_idle with c; [done|].
    by destruct (_press c).
  - intros w w1 Hcbs Hidle Hrun.
    unfold setcursormode in Hrun.
    destruct (curlist w) as [cl|] eqn:Hcl.
    2:{ revert Hrun. mrun. by rewrite Hcl. }
    rewrite (bind_ok _ _ _ _ _ (ax_curlist_run _ _ Hcl)) in Hrun.
    apply set_modes_run in Hrun as (Hcb & Hcl1 & Hp & _ & Hm).
    assert (curlist_of w = cl) as Ecl by (unfold curlist_of; by rewrite Hcl).
    assert (curlist_of w1 = cl) as Ecl1
      by (unfold curlist_of; by rewrite Hcl1, Hcl).
    assert (∀ h, h ∈ cl →
              ∃ c, cursors w1 !! h = Some c ∧ mode c = "fixed" ∧
                   _press c = None) as Hfix.
    { intros h Hh. specialize (Hm h Hh). specialize (Hp h).
      destruct (cursors w1 !! h) as [c1|]; [|done].
      destruct (cursors w !! h) as [c|] eqn:Hc; [|done].
      cbn in Hm, Hp. exists c1. split; [done|]. split; [congruence|].
      injection Hp as ->. rewrite <- Ecl in Hh.
      specialize (Hidle h c Hh Hc). unfold state_of in Hidle.
      by destruct (_press c). }
    assert (frozen (cursors w1) w1) as HJ.
    { split; [done|]. intros p Hp1 h Ht Hlt. apply Hfix.
      rewrite <- Ecl. apply (Hcbs p); [|done]. by rewrite <- Hcb. }
    intros h Hh. rewrite Ecl1 in Hh.
    destruct (Hfix h Hh) as (c & Hc & Hmode & Hpress).
    exists c. split; [done|]. split; [done|].
    split; [unfold state_of; by rewrite Hpress|].
    intros evs. by apply (frozen_deliver (cursors w1) evs w1 HJ).
Qed.

Lemma cursor_and_span_callbacks p h :
  p ∈ callbacks cursor_and_span → target p.2 = Some h →
  h ∈ curlist_of cursor_and_span.
Proof.
  change (curlist_of cursor_and_span) with [0; 1; 2]%nat.
  change (callbacks cursor_and_span) with
    (cursor_callbacks 0 0 ++ cursor_callbacks 1 3 ++ cursor_callbacks 2 6
       ++ [(9%nat, span_on_press 0)]).
  unfold cursor_callbacks. cbn [app]. intros Hp Ht.
  repeat (apply elem_of_cons in Hp as [->|Hp]);
    try (by apply elem_of_nil in Hp); cbn in Ht; try discriminate Ht;
    injection Ht as <-; apply (bool_decide_unpack _); by vm_compute.
Defined.

Lemma cursor_and_span_idle h c :
  h ∈ curlist_of cursor_and_span → cursors cursor_and_span !! h = Some c →
  state_of c = IDLE.
Proof.
  change (curlist_of cursor_and_span) with [0; 1; 2]%nat. intros Hh.
  repeat (apply elem_of_cons in Hh as [->|Hh]);
    try (by apply elem_of_nil in Hh); by intros [= <-].
Defined.

Lemma fixed_cursors_stay_in_place_witness :
  let w := cursor_and_span in
  let w1 := (setcursormode "fixed" all_cursors w).2 in
  (∀ p h, p ∈ callbacks w → target p.2 = Some h → h ∈ curlist_of w) ∧
  (∀ h c, h ∈ curlist_of w → cursors w !! h = Some c → state_of c = IDLE) ∧
  setcursormode "fixed" all_cursors w = (Ok tt, w1) ∧
  1%nat ∈ curlist_of w1 ∧
  ∃ c, cursors w1 !! 1%nat = Some c ∧ mode c = "fixed" ∧
       state_of c = IDLE ∧
       ∀ evs, cursors (deliver evs w1) !! 1%nat = Some c.
Proof.
  intros w w1.
  assert (1%nat ∈ curlist_of w1) as H1
    by (apply (bool_decide_unpack _); by vm_compute).
  split; [exact cursor_and_span_callbacks|].
  split; [exact cursor_and_span_idle|].
  split; [by vm_compute|]. split; [exact H1|].
  exact (proj2 fixed_cursors_stay_in_place w w1
           cursor_and_span_callbacks cursor_and_span_idle eq_refl 1%nat H1).
Defined.

(** ** Saving and loading again *)

Lemma all_span_rows rows :
  Forall (λ r, row_type r = "vertspan") rows → span_rows rows = rows.
Proof.
  intros H. apply filter_all. eapply Forall_impl; [exact H|].
  intros r Hr. unfold is_span_row. by rewrite Hr.
Qed.

(** C1.  Saving and loading does not always give back the spans that
    were saved.  Two spans from 10 to 20 and from 30 to 40; [set_tag]
    gives the low cursor of the first the tag ['(9)'], so that its text is
    ['(9)(1)'] and [get_id] reads 9.  The table comes out ordered by ID,
    the row of that cursor last, and [loadcurinfo], which pairs the rows
    of type ['vertspan'] as they come, builds the spans from 20 to 30 and
    from 40 to 10: the endpoints are not paired as they were.  This is so
    for the table [savecurinfo] returns and for every table with these
    positions and types in this order, whatever it holds in the other
    columns. *)
Theorem retagged_cursor_changes_the_pairing :
  for_each two_spans_retagged perform new_axes = (Ok tt, retagged_world) ∧
  span_positions retagged_world = Some [(10, 20); (30, 40)] ∧
  tag_texts retagged_world = Some ["(9)(1)"; "(2)"; "(3)"; "(4)"] ∧
  savecurinfo retagged_world = (Ok retagged_rows, retagged_world) ∧
  row_id <$> retagged_rows = [2; 3; 4; 9]%N ∧
  row_xpos <$> retagged_rows = [20; 30; 40; 10] ∧
  row_type <$> retagged_rows
  = ["vertspan"; "vertspan"; "vertspan"; "vertspan"] ∧
  loadcurinfo retagged_rows new_axes = (Ok retagged_rows, retagged_loaded) ∧
  span_positions retagged_loaded = Some [(20, 30); (40, 10)] ∧
  ∀ rows,
    row_xpos <$> rows = [20; 30; 40; 10] →
    row_type <$> rows = ["vertspan"; "vertspan"; "vertspan"; "vertspan"] →
    ∃ w', loadcurinfo rows new_axes = (Ok rows, w') ∧
          span_positions w' = Some [(20, 30); (40, 10)].
Proof.
  do 9 (split; [vm_compute; reflexivity|]).
  intros rows Hx Hty.
  assert (store_ok new_axes) as Hok by constructor.
  exists (loaded rows None new_axes). split; [by apply loadcurinfo_run|].
  destruct (loaded_pairs rows None new_axes [] I eq_refl)
    as (_ & _ & _ & _ & _ & _ & ->).
  rewrite all_span_rows.
  - cbn [option_list option_rect app]. by rewrite Hx.
  - assert (Forall (λ t, t = "vertspan") (row_type <$> rows)) as H
      by (rewrite Hty; by repeat constructor).
    by apply Forall_fmap in H.
Qed.

(** ** Looking cursors up by ID *)

Lemma getcur_loop_spec w n cl ids :
  Forall2 (λ h k, cursors w !! h ≫= cursor_id = Some k) cl ids →
  (n ∉ ids → getcur_loop n cl w = (Ok None, w)) ∧
  (∀ i, ids !! i = Some n → n ∉ take i ids →
        getcur_loop n cl w = (Ok (cl !! i), w)).
Proof.
  induction 1 as [|h k cl ids Hk _ [IHno IHyes]]; [by split|].
  destruct (cursors w !! h) as [c|] eqn:Hc; [|done]. cbn in Hk.
  pose proof (get_id_run _ _ _ _ Hc Hk) as Hid. split.
  - intros Hn. apply not_elem_of_cons in Hn as [Hne Hn].
    cbn [getcur_loop]. rewrite (bind_ok _ _ _ _ _ Hid).
    rewrite (proj2 (N.eqb_neq n k)) by done. by apply IHno.
  - intros [|i] Hi Hn; cbn [getcur_loop]; rewrite (bind_ok _ _ _ _ _ Hid).
    + injection Hi as ->. by rewrite N.eqb_refl.
    + cbn in Hi, Hn. apply not_elem_of_cons in Hn as [Hne Hn].
      rewrite (proj2 (N.eqb_neq n k)) by done. by apply IHyes.
Qed.

Lemma first_index (n : N) ids :
  n ∈ ids → ∃ i, ids !! i = Some n ∧ n ∉ take i ids.
Proof.
  induction ids as [|k ids IH]; [by intros ?%elem_of_nil|].
  destruct (decide (n = k)) as [->|Hne].
  - intros _. exists 0%nat. split; [done|]. cbn. apply not_elem_of_nil.
  - intros [->|Hin]%elem_of_cons; [done|].
    destruct (IH Hin) as (i & Hi & Hno). exists (S i). split; [done|].
    cbn. by apply not_elem_of_cons.
Qed.

Lemma max_id_ge ids k : k ∈ ids → (k ≤ max_id ids)%N.
Proof.
  unfold max_id. induction ids as [|x ids IH]; [by intros ?%elem_of_nil|].
  cbn. intros [->|Hin]%elem_of_cons; [lia|]. specialize (IH Hin). lia.
Qed.

Lemma next_id_fresh ids : nextDisplayId ids ∉ ids.
Proof.
  intros Hin. apply max_id_ge in Hin. unfold nextDisplayId in Hin.
  destruct ids; cbn in Hin; lia.
Qed.

(** X1. [getcur] walks the cursor list in order and compares [get_id] of
    each cursor with the ID asked for.  On an axes whose listed cursors
    all carry an ID ([ids], in list order), [getcur n] returns the first
    cursor of the list with ID [n]; when no cursor has this ID it returns
    [None] (after printing a message) instead of raising.  The axes is
    left as it is. *)
Theorem getcur_returns_first_match w ids n :
  is_Some (curlist w) → display_ids w = Some ids →
  (n ∉ ids → getcur n w = (Ok None, w)) ∧
  (∀ i, ids !! i = Some n → n ∉ take i ids →
        ∃ h, curlist_of w !! i = Some h ∧ getcur n w = (Ok (Some h), w)).
Proof.
  intros [cl Hcl] Hids. unfold display_ids, curlist_of in *.
  rewrite Hcl in *. cbn in *. apply mapM_Some_1 in Hids.
  destruct (getcur_loop_spec w n cl ids Hids) as [Hno Hyes].
  unfold getcur. rewrite (bind_ok _ _ _ _ _ (ax_curlist_run _ _ Hcl)).
  split; [done|]. intros i Hi Hn.
  destruct (Forall2_lookup_r _ _ _ _ _ Hids Hi) as (h & Hh & _).
  exists h. split; [done|]. by rewrite (Hyes i Hi Hn), Hh.
Qed.

Lemma getcur_returns_first_match_witness :
  is_Some (curlist cursor_and_span) ∧
  display_ids cursor_and_span = Some three_ids ∧
  getcur 7 cursor_and_span = (Ok None, cursor_and_span) ∧
  ∃ h, curlist_of cursor_and_span !! 1%nat = Some h ∧
       getcur 2 cursor_and_span = (Ok (Some h), cursor_and_span).
Proof.
  assert (is_Some (curlist cursor_and_span)) as Hcl by (by eexists).
  assert (display_ids cursor_and_span = Some three_ids) as Hids
    by (vm_compute; reflexivity).
  split; [exact Hcl|]. split; [exact Hids|]. split.
  - apply (proj1 (getcur_returns_first_match _ _ 7%N Hcl Hids)).
    vm_compute. intros H. by repeat (apply elem_of_cons in H as [H|H];
      [discriminate H|]); apply elem_of_nil in H.
  - apply (proj2 (getcur_returns_first_match _ _ 2%N Hcl Hids) 1%nat);
      [reflexivity|]. cbn. intros H.
    by repeat (apply elem_of_cons in H as [H|H]; [discriminate H|]);
      apply elem_of_nil in H.
Defined.

Lemma getcur_run w ids n i h :
  curlist w = Some (curlist_of w) → display_ids w = Some ids →
  ids !! i = Some n → n ∉ take i ids → curlist_of w !! i = Some h →
  getcur n w = (Ok (Some h), w).
Proof.
  intros Hcl Hids Hi Hn Hh. unfold display_ids in Hids.
  apply mapM_Some_1 in Hids.
  unfold getcur. rewrite (bind_ok _ _ _ _ _ (ax_curlist_run _ _ Hcl)).
  by rewrite (proj2 (getcur_loop_spec w n _ ids Hids) i Hi Hn), Hh.
Qed.

(** X2. The cursor [placecursor] returns is the cursor [getcur] finds
    under the new ID, and the lookups of the IDs that were there go on
    returning what they returned: on an axes whose listed cursors all
    carry an ID, the new ID is larger than every ID of the list, so no
    older cursor answers to it. *)
Theorem placed_cursor_is_found w ids pos :
  store_ok w → display_ids w = Some ids →
  ∃ h w',
    placecursor pos w = (Ok h, w') ∧
    getcur (nextDisplayId ids) w' = (Ok (Some h), w') ∧
    ∀ n, n ∈ ids → is_Some (curlist w) →
         ∃ r, getcur n w = (Ok r, w) ∧ getcur n w' = (Ok r, w').
Proof.
  intros Hok Hids.
  pose proof (eq_trans (placecursor_run pos w)
                (init_run _ vertical "interact" w Hok not_vertspan)) as Hrun.
  set (x := match pos with
            | center => (xlim w).1 + ((xlim w).2 - (xlim w).1) / 2
            | at_x x => x
            end) in *.
  set (w' := after_init x vertical "interact" w) in *.
  pose proof (display_ids_after_init x vertical "interact" w ids Hok Hids)
    as Hids'. fold w' in Hids'.
  assert (curlist w' = Some (curlist_of w')) as Hcl' by reflexivity.
  assert (curlist_of w' = curlist_of w ++ [length (cursors w)]) as Hl'
    by reflexivity.
  assert (length (curlist_of w) = length ids) as Hlen.
  { unfold display_ids in Hids. by apply length_mapM in Hids. }
  exists (length (cursors w)), w'. split; [exact Hrun|]. split.
  - apply (getcur_run w' _ _ (length ids) _ Hcl' Hids').
    + by rewrite lookup_app_r, Nat.sub_diag.
    + rewrite take_app_length. apply next_id_fresh.
    + by rewrite Hl', <- Hlen, lookup_app_r, Nat.sub_diag.
  - intros n Hn [cl Hcl].
    destruct (first_index n ids Hn) as (i & Hi & Hno).
    assert (i < length ids)%nat as Hlt by by eapply lookup_lt_Some.
    destruct (lookup_lt_is_Some_2 (curlist_of w) i) as [h Hh]; [lia|].
    exists (Some h). split.
    + apply (getcur_run w ids n i h); try done.
      unfold curlist_of. by rewrite Hcl.
    + apply (getcur_run w' _ n i h Hcl' Hids').
      * by rewrite lookup_app_l.
      * by rewrite take_app_le by lia.
      * rewrite Hl', lookup_app_l; [done|lia].
Qed.

Lemma placed_cursor_is_found_witness :
  store_ok cursor_and_span ∧
  display_ids cursor_and_span = Some three_ids ∧
  ∃ h w',
    placecursor (at_x 9) cursor_and_span = (Ok h, w') ∧
    getcur (nextDisplayId three_ids) w' = (Ok (Some h), w') ∧
    ∀ n, n ∈ three_ids → is_Some (curlist cursor_and_span) →
         ∃ r, getcur n cursor_and_span = (Ok r, cursor_and_span) ∧
              getcur n w' = (Ok r, w').
Proof.
  assert (store_ok cursor_and_span) as Hok.
  { unfold store_ok. vm_compute. repeat constructor. }
  assert (display_ids cursor_and_span = Some three_ids) as Hids
    by (vm_compute; reflexivity).
  split; [exact Hok|]. split; [exact Hids|].
  exact (placed_cursor_is_found cursor_and_span three_ids (at_x 9) Hok Hids).
Defined.

(** ** [remcur] of a sequence of cursors *)

Lemma list_remove_filter h (l : list nat) :
  NoDup l → h ∈ l → list_remove h l = Some (filter (λ x, x ≠ h) l).
Proof.
  induction l as [|y l IH]; [by intros _ ?%elem_of_nil|].
  intros [Hy Hnd]%NoDup_cons Hin. cbn [list_remove].
  destruct (decide (h = y)) as [->|Hne].
  - rewrite filter_cons_False by naive_solver. f_equal. symmetry.
    apply filter_all. apply Forall_forall. intros x Hx ->. done.
  - apply elem_of_cons in Hin as [->|Hin]; [done|].
    rewrite (IH Hnd Hin), filter_cons_True by naive_solver. done.
Qed.

Lemma list_remove_length h l l' :
  list_remove h l = Some l' → length l = S (length l').
Proof.
  revert l'. induction l as [|y l IH]; intros l'; [done|]. cbn.
  destruct (decide (h = y)); [by intros [= ->]|].
  destruct (list_remove h l) as [l0|]; [|done]. intros [= <-]. cbn.
  by rewrite (IH l0).
Qed.

Lemma without_cursors_nil w : without_cursors [] w = w.
Proof.
  destruct w as [cl sl cs ss nm xl fc cbs nc].
  unfold without_cursors, with_callbacks, with_curlist. cbn.
  f_equal.
  - destruct cl as [l|]; [|done]. cbn. f_equal. apply filter_all.
    apply Forall_forall. intros x _. apply not_elem_of_nil.
  - apply filter_all. apply Forall_forall. intros x _. apply not_elem_of_nil.
Qed.

Lemma without_cursors_ext cl cl' w :
  (∀ x, x ∈ cl ↔ x ∈ cl') → without_cursors cl w = without_cursors cl' w.
Proof.
  intros H. unfold without_cursors, with_callbacks, with_curlist. cbn.
  f_equal.
  - destruct (curlist w) as [l|]; [|done]. cbn. f_equal.
    apply list_filter_iff. intros x. by rewrite H.
  - apply list_filter_iff. intros p. rewrite !list_elem_of_bind.
    naive_solver.
Qed.

(** One round of the loop, on an axes from which the cursors [R] are
    gone already. *)
Lemma remcur_body_without w R h :
  NoDup (curlist_of w) → removable w h → h ∉ R →
  remcur_body h (without_cursors R w) = (Ok tt, without_cursors (R ++ [h]) w).
Proof.
  intros Hnd [Hin (c & t & Hc & Ht)] HR.
  destruct (curlist w) as [l|] eqn:Hl;
    [|by unfold curlist_of in Hin; rewrite Hl in Hin; apply elem_of_nil in Hin].
  unfold curlist_of in Hin, Hnd. rewrite Hl in Hin, Hnd. cbn in Hin, Hnd.
  assert (list_remove h (filter (λ x, x ∉ R) l)
          = Some (filter (λ x, x ∉ R ++ [h]) l)) as Hrm.
  { rewrite list_remove_filter.
    - f_equal. rewrite list_filter_filter. apply list_filter_iff.
      intros x. rewrite elem_of_app, list_elem_of_singleton. naive_solver.
    - by apply NoDup_filter.
    - by apply list_elem_of_filter. }
  erewrite remcur_body_run;
    [|exact Hc|exact Ht|unfold without_cursors; cbn; by rewrite Hl|exact Hrm].
  assert ([h] ≫= cids_of w = [cidpress c; cidrelease c; cidmotion c]) as Hh.
  { change (cids_of w h ++ [] = [cidpress c; cidrelease c; cidmotion c]).
    rewrite app_nil_r. unfold cids_of. by rewrite Hc. }
  f_equal. unfold without_cursors, without_callbacks, with_callbacks,
    with_curlist. cbn. rewrite Hl. cbn. f_equal.
  rewrite !list_filter_filter. apply list_filter_iff.
  intros p. rewrite bind_app, elem_of_app, Hh.
  rewrite !elem_of_cons, elem_of_nil. naive_solver.
Qed.

(** One pass of the [for] loop, entered at index [i]: it removes some
    cursors [rem] of the sequence and hands the others on to the next
    pass; when it has a cursor to start with, it removes at least one. *)
Lemma remcur_for_run w : ∀ n i cs R,
  NoDup (curlist_of w) → NoDup cs →
  (∀ h, h ∈ cs → removable w h ∧ h ∉ R) →
  ∃ cs' rem,
    remcur_for n i cs (without_cursors R w)
    = (Ok cs', without_cursors (R ++ rem) w) ∧
    NoDup cs' ∧
    (∀ x, x ∈ cs ↔ x ∈ rem ∨ x ∈ cs') ∧
    (∀ x, x ∈ rem → x ∉ cs') ∧
    (length cs' ≤ length cs)%nat ∧
    ((0 < n)%nat → (i < length cs)%nat → (length cs' < length cs)%nat).
Proof.
  induction n as [|n IH]; intros i cs R Hndw Hnd Hcs.
  - exists cs, []. rewrite app_nil_r. cbn.
    split; [done|]. split; [done|]. split.
    { intros x. rewrite elem_of_nil. naive_solver. }
    split; [by intros x ?%elem_of_nil|]. split; lia.
  - cbn [remcur_for]. destruct (cs !! i) as [ci|] eqn:Hi.
    2:{ exists cs, []. rewrite app_nil_r.
        split; [done|]. split; [done|]. split.
        { intros x. rewrite elem_of_nil. naive_solver. }
        split; [by intros x ?%elem_of_nil|]. split; [lia|].
        intros _ Hlt. apply lookup_ge_None in Hi. lia. }
    assert (ci ∈ cs) as Hci by (by eapply list_elem_of_lookup_2).
    destruct (Hcs ci Hci) as [Hrem HR].
    rewrite (bind_ok _ _ _ _ _ (remcur_body_without w R ci Hndw Hrem HR)).
    destruct (list_remove_elem_of ci cs Hci) as [cs1 Hcs1]. rewrite Hcs1.
    destruct (list_remove_spec _ _ _ Hcs1 Hnd) as (Hnd1 & Hno & Hx1).
    pose proof (list_remove_length _ _ _ Hcs1) as Hlen.
    destruct (IH (S i) cs1 (R ++ [ci]) Hndw Hnd1)
      as (cs' & rem & Hrun & Hnd' & Hx & Hdis & Hle & _).
    { intros h Hh. apply Hx1 in Hh as [Hh Hne]. destruct (Hcs h Hh).
      split; [done|]. rewrite elem_of_app, list_elem_of_singleton.
      naive_solver. }
    exists cs', (ci :: rem). rewrite <- app_assoc in Hrun. cbn in Hrun.
    split; [exact Hrun|]. split; [done|]. split.
    { intros x. rewrite elem_of_cons. specialize (Hx x). specialize (Hx1 x).
      destruct (decide (x = ci)) as [->|]; naive_solver. }
    split.
    { intros x [->|Hxr]%elem_of_cons; [|by apply Hdis].
      intros Hin. apply Hno. apply Hx. by right. }
    split; lia.
Qed.

(** The passes of the [while] loop remove every cursor of the sequence. *)
Lemma remcur_while_run w : ∀ n cs R,
  (length cs ≤ n)%nat →
  NoDup (curlist_of w) → NoDup cs →
  (∀ h, h ∈ cs → removable w h ∧ h ∉ R) →
  remcur_while n cs (without_cursors R w)
  = (Ok tt, without_cursors (R ++ cs) w).
Proof.
  induction n as [|n IH]; intros cs R Hlen Hndw Hnd Hcs.
  - destruct cs; [|cbn in Hlen; lia]. by rewrite app_nil_r.
  - destruct cs as [|c0 cs0]; [by rewrite app_nil_r|].
    change (remcur_while (S n) (c0 :: cs0))
      with (cursors' ← remcur_for (length (c0 :: cs0)) 0 (c0 :: cs0);
            remcur_while n cursors').
    assert (0 < length (c0 :: cs0))%nat as Hpos by (cbn; lia).
    revert Hlen Hnd Hcs Hpos. generalize (c0 :: cs0). clear c0 cs0.
    intros cs Hlen Hnd Hcs Hpos.
    destruct (remcur_for_run w (length cs) 0 cs R Hndw Hnd Hcs)
      as (cs' & rem & Hrun & Hnd' & Hx & Hdis & Hle & Hlt).
    specialize (Hlt Hpos Hpos).
    rewrite (bind_ok _ _ _ _ _ Hrun).
    rewrite IH; [|lia|done|done|].
    + f_equal. apply without_cursors_ext. intros x.
      rewrite !elem_of_app. specialize (Hx x). naive_solver.
    + intros h Hh. destruct (Hcs h) as [Hr HR]; [apply Hx; by right|].
      split; [done|]. rewrite elem_of_app. intros [?|Hin]; [done|].
      by apply (Hdis h).
Qed.

(** X3. [remcur] of a sequence of cursors removes every one of them.  The
    [for] loop walks the working copy by index while [cursors.remove(ci)]
    shortens it, so that one pass deals with every other cursor only; the
    [while] loop repeats the pass until the copy is empty.  For distinct
    cursors of the cursor list that have a tag, on an axes that lists no
    cursor twice, the call returns, every cursor of the sequence is off
    the cursor list, its three callbacks are disconnected, and the other
    cursors and callbacks are left as they were, in their order. *)
Theorem remcur_removes_every_cursor w cl :
  NoDup (curlist_of w) → NoDup cl → (∀ h, h ∈ cl → removable w h) →
  remcur cl w = (Ok tt, without_cursors cl w).
Proof.
  intros Hndw Hnd Hcl.
  pose proof (remcur_while_run w (length cl) cl [] (le_n _) Hndw Hnd) as H.
  rewrite without_cursors_nil in H. apply H.
  intros h Hh. split; [by apply Hcl|apply not_elem_of_nil].
Qed.

Lemma five_cursors_removable h :
  h ∈ [0; 1; 2; 3; 4]%nat → removable five_cursors h.
Proof.
  intros Hh. split; [exact Hh|].
  repeat (apply elem_of_cons in Hh as [->|Hh];
          [eexists _, _; split; vm_compute; reflexivity|]).
  by apply elem_of_nil in Hh.
Defined.

Lemma remcur_removes_every_cursor_witness :
  NoDup (curlist_of five_cursors) ∧
  NoDup [0; 1; 2; 3; 4]%nat ∧
  (∀ h, h ∈ [0; 1; 2; 3; 4]%nat → removable five_cursors h) ∧
  remcur [0; 1; 2; 3; 4]%nat five_cursors
  = (Ok tt, without_cursors [0; 1; 2; 3; 4]%nat five_cursors).
Proof.
  assert (NoDup [0; 1; 2; 3; 4]%nat) as Hnd
    by (apply (bool_decide_unpack _); vm_compute; exact I).
  split; [exact Hnd|]. split; [exact Hnd|].
  split; [exact five_cursors_removable|].
  exact (remcur_removes_every_cursor five_cursors [0; 1; 2; 3; 4]%nat
           Hnd Hnd five_cursors_removable).
Defined.

(** ** The registry invariants under placement *)

Lemma NoDup_snoc_fresh ids : NoDup ids → NoDup (ids ++ [nextDisplayId ids]).
Proof.
  intros H. apply NoDup_app. split; [done|]. split; [|apply NoDup_singleton].
  intros x Hx ->%list_elem_of_singleton. by apply (next_id_fresh ids).
Qed.

Lemma store_ok_fresh w : store_ok w → length (cursors w) ∉ curlist_of w.
Proof.
  intros Hok Hin. unfold store_ok in Hok. rewrite Forall_forall in Hok.
  specialize (Hok _ Hin). lia.
Qed.

Lemma registry_ok_after_init w x m :
  registry_ok w → store_ok w → registry_ok (after_init x vertical m w).
Proof.
  intros [Hcl Hsl (ids & Hids & Hnd) Hsp] Hok. split.
  - change (NoDup (curlist_of w ++ [length (cursors w)])).
    apply NoDup_app. split; [done|]. split; [|apply NoDup_singleton].
    intros h Hh ->%list_elem_of_singleton. by apply (store_ok_fresh w).
  - exact Hsl.
  - exists (ids ++ [nextDisplayId ids]).
    split; [by apply display_ids_after_init|by apply NoDup_snoc_fresh].
  - intros s Hs. destruct (Hsp s Hs) as (d & Hd & Hlo & Hhi & Hne).
    exists d. split; [exact Hd|].
    change (curlist_of (after_init x vertical m w))
      with (curlist_of w ++ [length (cursors w)]).
    rewrite !elem_of_app. naive_solver.
Qed.

Lemma registry_ok_after_span_init w lo hi :
  registry_ok w → store_ok w → registry_ok (after_span_init lo hi w).
Proof.
  intros [Hcl Hsl (ids & Hids & Hnd) Hsp] Hok.
  pose proof (store_ok_fresh w Hok) as Hfresh.
  assert (curlist_of (after_span_init lo hi w)
          = curlist_of w ++ [length (cursors w); S (length (cursors w))])
    as Ecl by reflexivity.
  assert (spanlist_of (after_span_init lo hi w)
          = spanlist_of w ++ [length (spans w)]) as Esl by reflexivity.
  split.
  - rewrite Ecl. apply NoDup_app. split; [done|]. split.
    + intros h Hh Hin. apply elem_of_cons in Hin as [->|Hin]; [done|].
      apply list_elem_of_singleton in Hin as ->.
      unfold store_ok in Hok. rewrite Forall_forall in Hok.
      specialize (Hok _ Hh). lia.
    + apply NoDup_cons. split; [|apply NoDup_singleton].
      intros ?%list_elem_of_singleton. lia.
  - rewrite Esl. apply NoDup_app. split; [done|].
    split; [|apply NoDup_singleton].
    intros s Hs ->%list_elem_of_singleton.
    destruct (Hsp _ Hs) as (d & Hd & _). apply lookup_lt_Some in Hd. lia.
  - eexists. split; [by apply display_ids_after_span_init|].
    change (ids ++ [nextDisplayId ids;
                    nextDisplayId (ids ++ [nextDisplayId ids])])
      with (ids ++ [nextDisplayId ids]
                ++ [nextDisplayId (ids ++ [nextDisplayId ids])]).
    rewrite app_assoc. by do 2 apply NoDup_snoc_fresh.
  - intros s. rewrite Esl, Ecl. intros [Hs| ->%list_elem_of_singleton]%elem_of_app.
    + destruct (Hsp s Hs) as (d & Hd & Hlo & Hhi & Hne).
      exists d. split.
      { change (spans (after_span_init lo hi w)) with (spans w ++
          [mkSpan "r" (length (cursors w)) (S (length (cursors w)))
             (mkPolygon [(lo, 0); (lo, 1); (hi, 1); (hi, 0)] "r")
             (6 + next_cid w)%nat]).
        by apply lookup_app_l_Some. }
      rewrite !elem_of_app. naive_solver.
    + eexists. split; [apply lookup_last|]. cbn.
      rewrite !elem_of_app, !elem_of_cons. split; [naive_solver|].
      split; [naive_solver|lia].
Qed.

(** X4. Placing cursors and spans keeps the registry well formed.  On an
    axes that lists no cursor and no span twice, whose listed cursors
    carry distinct IDs and whose listed spans have two different listed
    cursors, every sequence of [placecursor] and [placespan] calls
    returns and leaves an axes of the same kind: a new cursor never
    takes an ID in use, because its ID is larger than all of them. *)
Theorem placements_keep_the_registry ps w :
  registry_ok w → store_ok w →
  ∃ w', for_each ps place w = (Ok tt, w') ∧ registry_ok w' ∧ store_ok w'.
Proof.
  revert w. induction ps as [|p ps IH]; intros w Hreg Hok; [by exists w|].
  cbn [for_each]. destruct p as [pos|pos].
  - destruct (place_cursor_run pos w Hok) as [x Hx].
    rewrite (bind_ok _ _ _ _ _ Hx). apply IH.
    + by apply registry_ok_after_init.
    + by apply store_ok_after_init.
  - destruct (place_span_run pos w Hok) as (lo & hi & Hx).
    rewrite (bind_ok _ _ _ _ _ Hx). apply IH.
    + by apply registry_ok_after_span_init.
    + by apply store_ok_after_span_init.
Qed.

Lemma placements_keep_the_registry_witness :
  registry_ok cursor_and_span ∧ store_ok cursor_and_span ∧
  ∃ w', for_each [place_span span_center; place_cursor (at_x 4)] place
          cursor_and_span = (Ok tt, w') ∧
        registry_ok w' ∧ store_ok w'.
Proof.
  assert (store_ok cursor_and_span) as Hok.
  { unfold store_ok. vm_compute. repeat constructor. }
  split; [exact cursor_and_span_ok|]. split; [exact Hok|].
  exact (placements_keep_the_registry _ _ cursor_and_span_ok Hok).
Defined.

(** ** Naming cursors and spans *)

Lemma cursor_id_inv c n :
  cursor_id c = Some n →
  ∃ t p g r, tag c = Some t ∧ re_search (text t) = Some (p, g, r) ∧
             py_int g = Some n ∧ is_number g.
Proof.
  unfold cursor_id, tag_text. destruct (tag c) as [t|]; [|done]. cbn.
  unfold parse_id. destruct (re_search (text t)) as [[[p g] r]|] eqn:E; [|done].
  intros Hn. exists t, p, g, r. do 3 (split; [done|]).
  by eapply re_search_number.
Qed.

Lemma new_tag_plain v g :
  plain_tag v → is_number g →
  re_sub (new_tag v g) = tag_string v ∧
  parse_id (new_tag v g) = py_int g.
Proof.
  intros Hv Hg.
  assert (re_search (tag_string v) = None) as Hp by (by destruct v).
  assert (new_tag v g = tag_string v +:+ group0 g) as ->
    by (by destruct v).
  split; [by apply re_sub_app|].
  unfold parse_id. rewrite <- (app_empty_r (group0 g)).
  by rewrite (re_search_app _ _ _ Hp Hg).
Qed.

Lemma set_tag_effect w h c n v :
  cursors w !! h = Some c → cursor_id c = Some n → plain_tag v →
  ∃ c' t',
    DragCursor_set_tag h v w = (Ok tt, set_cursor h c' w) ∧
    tag c' = Some t' ∧ re_sub (text t') = tag_string v ∧
    cursor_id c' = Some n.
Proof.
  intros Hc (t & p & g & r & Ht & Hs & Hn & Hg)%cursor_id_inv Hv.
  destruct (new_tag_plain v g Hv Hg) as [Hsub Hid].
  exists (tag_set v g t c), (with_text (new_tag v g) t).
  split; [exact (set_tag_run _ _ _ _ _ _ _ _ Hc Ht Hs)|].
  split; [done|]. split; [done|].
  unfold cursor_id, tag_text. cbn. by rewrite Hid.
Qed.

(** X5. [set_tag] followed by [get_tag] and [get_id].  For a cursor that
    carries an ID and a tag value without a parenthesised integer of its
    own, [set_tag] returns, [get_tag] then returns the value that was set
    (the empty string for a value that is no string) and [get_id] returns
    the ID the cursor had: renaming keeps the ID. *)
Theorem set_tag_then_get_tag w h c n v :
  cursors w !! h = Some c → cursor_id c = Some n → plain_tag v →
  ∃ w',
    DragCursor_set_tag h v w = (Ok tt, w') ∧
    DragCursor_get_tag h w' = (Ok (tag_string v), w') ∧
    DragCursor_get_id h w' = (Ok n, w').
Proof.
  intros Hc Hn Hv.
  destruct (set_tag_effect _ _ _ _ _ Hc Hn Hv) as (c' & t' & Hrun & Ht' & Hsub & Hid).
  pose proof (lookup_set_cursor w h c' c Hc) as Hc'.
  exists (set_cursor h c' w). split; [exact Hrun|]. split.
  - by rewrite (get_tag_run _ _ _ _ Hc' Ht'), Hsub.
  - exact (get_id_run _ _ _ _ Hc' Hid).
Qed.

Lemma set_tag_then_get_tag_witness :
  ∃ c, cursors cursor_and_span !! 1%nat = Some c ∧
       cursor_id c = Some 2%N ∧ plain_tag (PyStr "onset") ∧
  ∃ w',
    DragCursor_set_tag 1 (PyStr "onset") cursor_and_span = (Ok tt, w') ∧
    DragCursor_get_tag 1 w' = (Ok "onset", w') ∧
    DragCursor_get_id 1 w' = (Ok 2%N, w').
Proof.
  eexists. split; [reflexivity|].
  assert (plain_tag (PyStr "onset")) as Hv by (vm_compute; reflexivity).
  split; [vm_compute; reflexivity|]. split; [exact Hv|].
  exact (set_tag_then_get_tag cursor_and_span 1 _ 2%N (PyStr "onset")
           eq_refl eq_refl Hv).
Defined.

(** X6. [DragSpan.set_tag] names both cursors of the span and keeps their
    IDs, and [DragSpan.get_tag] does not return the name: it reads the tag
    of the low cursor and ends without a [return], so its result is
    [None] whatever the tag. *)
Theorem span_set_tag_names_both_cursors w s d clo chi nlo nhi v :
  spans w !! s = Some d → span_low d ≠ span_high d →
  cursors w !! span_low d = Some clo → cursor_id clo = Some nlo →
  cursors w !! span_high d = Some chi → cursor_id chi = Some nhi →
  plain_tag v →
  ∃ w',
    DragSpan_set_tag s v w = (Ok tt, w') ∧
    DragCursor_get_tag (span_low d) w' = (Ok (tag_string v), w') ∧
    DragCursor_get_tag (span_high d) w' = (Ok (tag_string v), w') ∧
    DragCursor_get_id (span_low d) w' = (Ok nlo, w') ∧
    DragCursor_get_id (span_high d) w' = (Ok nhi, w') ∧
    DragSpan_get_tag s w' = (Ok None, w').
Proof.
  intros Hd Hne Hlo Hnlo Hhi Hnhi Hv.
  destruct (set_tag_effect _ _ _ _ _ Hlo Hnlo Hv)
    as (clo' & tlo' & Hrun1 & Htlo & Hsublo & Hidlo).
  set (w1 := set_cursor (span_low d) clo' w) in *.
  assert (cursors w1 !! span_high d = Some chi) as Hhi1
    by (unfold w1; by rewrite lookup_set_cursor_ne).
  destruct (set_tag_effect _ _ _ _ _ Hhi1 Hnhi Hv)
    as (chi' & thi' & Hrun2 & Hthi & Hsubhi & Hidhi).
  set (w2 := set_cursor (span_high d) chi' w1) in *.
  assert (cursors w2 !! span_high d = Some chi') as Hhi2
    by exact (lookup_set_cursor w1 _ chi' chi Hhi1).
  assert (cursors w2 !! span_low d = Some clo') as Hlo2.
  { unfold w2. rewrite lookup_set_cursor_ne by done.
    exact (lookup_set_cursor w _ clo' clo Hlo). }
  assert (spans w2 !! s = Some d) as Hd2 by exact Hd.
  exists w2. split.
  { unfold DragSpan_set_tag.
    rewrite (bind_ok _ _ _ _ _ (span_at_run _ _ _ Hd)).
    by rewrite (bind_ok _ _ _ _ _ Hrun1). }
  pose proof (get_tag_run _ _ _ _ Hlo2 Htlo) as Hgl. rewrite Hsublo in Hgl.
  split; [exact Hgl|]. split.
  { by rewrite (get_tag_run _ _ _ _ Hhi2 Hthi), Hsubhi. }
  split; [exact (get_id_run _ _ _ _ Hlo2 Hidlo)|].
  split; [exact (get_id_run _ _ _ _ Hhi2 Hidhi)|].
  unfold DragSpan_get_tag.
  rewrite (bind_ok _ _ _ _ _ (span_at_run _ _ _ Hd2)).
  by rewrite (bind_ok _ _ _ _ _ Hgl).
Qed.

Lemma span_set_tag_names_both_cursors_witness :
  ∃ d clo chi,
    spans cursor_and_span !! 0%nat = Some d ∧ span_low d ≠ span_high d ∧
    cursors cursor_and_span !! span_low d = Some clo ∧
    cursor_id clo = Some 2%N ∧
    cursors cursor_and_span !! span_high d = Some chi ∧
    cursor_id chi = Some 3%N ∧
    plain_tag (PyStr "window") ∧
    ∃ w',
      DragSpan_set_tag 0 (PyStr "window") cursor_and_span = (Ok tt, w') ∧
      DragCursor_get_tag (span_low d) w' = (Ok "window", w') ∧
      DragCursor_get_tag (span_high d) w' = (Ok "window", w') ∧
      DragCursor_get_id (span_low d) w' = (Ok 2%N, w') ∧
      DragCursor_get_id (span_high d) w' = (Ok 3%N, w') ∧
      DragSpan_get_tag 0 w' = (Ok None, w').
Proof.
  assert (plain_tag (PyStr "window")) as Hv by (vm_compute; reflexivity).
  eexists _, _, _. split; [reflexivity|].
  assert (∀ a b : nat, a = 1%nat → b = 2%nat → a ≠ b) as Hne by (intros; lia).
  split; [exact (Hne _ _ eq_refl eq_refl)|]. split; [reflexivity|].
  split; [vm_compute; reflexivity|]. split; [reflexivity|].
  split; [vm_compute; reflexivity|]. split; [exact Hv|].
  exact (span_set_tag_names_both_cursors cursor_and_span 0 _ _ _ 2%N 3%N
           (PyStr "window") eq_refl (Hne _ _ eq_refl eq_refl)
           eq_refl eq_refl eq_refl eq_refl Hv).
Defined.

(** ** [setcurtag] *)

Lemma tag_get_text_run w h c t :
  cursors w !! h = Some c → tag c = Some t →
  tag_get_text h w = (Ok (text t), w).
Proof.
  intros Hc Ht. unfold tag_get_text.
  by rewrite (bind_ok _ _ _ _ _ (tag_of_run _ _ _ _ Hc Ht)).
Qed.

(** The loop of the integer branch keeps the last cursor with the ID. *)
Lemma setcurtag_by_id_spec w n cl ids :
  Forall2 (λ h k, cursors w !! h ≫= cursor_id = Some k) cl ids →
  ∀ acc,
  (n ∉ ids → setcurtag_by_id n cl acc w = (Ok acc, w)) ∧
  (∀ i, ids !! i = Some n → n ∉ drop (S i) ids →
        setcurtag_by_id n cl acc w = (Ok (cl !! i), w)).
Proof.
  induction 1 as [|h k cl ids Hk _ IH]; intros acc; [by split|].
  destruct (cursors w !! h) as [c|] eqn:Hc; [|done]. cbn in Hk.
  destruct (cursor_id_inv _ _ Hk) as (t & p & g & r & Ht & Hs & Hn & Hg).
  assert (∀ acc', setcurtag_by_id n (h :: cl) acc' w
                  = setcurtag_by_id n cl
                      (if N.eqb n k then Some h else acc') w) as Hstep.
  { intros acc'. cbn [setcurtag_by_id].
    rewrite (bind_ok _ _ _ _ _ (tag_get_text_run _ _ _ _ Hc Ht)).
    by rewrite Hs, Hn. }
  split.
  - intros Hno. apply not_elem_of_cons in Hno as [Hne Hno].
    rewrite Hstep, (proj2 (N.eqb_neq n k)) by done.
    by apply (proj1 (IH acc)).
  - intros [|i] Hi Hno; rewrite Hstep.
    + injection Hi as ->. rewrite N.eqb_refl. cbn in Hno.
      rewrite drop_0 in Hno. by apply (proj1 (IH (Some h))).
    + cbn in Hi, Hno. by apply (proj2 (IH _)).
Qed.

(** X7. [setcurtag] with an ID that no cursor of the list carries.  The
    loop of the integer branch assigns [cur_obj] only when it finds the
    ID, and the code after it reads [cur_obj.orient]: on an axes whose
    listed cursors all carry an ID other than [n], the call raises
    UnboundLocalError instead of reporting that the cursor was not found,
    and changes nothing. *)
Theorem setcurtag_by_missing_id_raises w ids n new_str keep_id :
  is_Some (curlist w) → display_ids w = Some ids → n ∉ ids →
  setcurtag (by_id n) new_str keep_id w = (Raise UnboundLocalError, w).
Proof.
  intros [cl Hcl] Hids Hn. unfold display_ids, curlist_of in Hids.
  rewrite Hcl in Hids. cbn in Hids. apply mapM_Some_1 in Hids.
  unfold setcurtag.
  erewrite bind_raise; [reflexivity|].
  rewrite (bind_ok _ _ _ _ _ (ax_curlist_run _ _ Hcl)).
  by rewrite (bind_ok _ _ _ _ _
                (proj1 (setcurtag_by_id_spec w n cl ids Hids None) Hn)).
Qed.

Lemma setcurtag_by_missing_id_raises_witness :
  is_Some (curlist cursor_and_span) ∧
  display_ids cursor_and_span = Some three_ids ∧ (4%N ∉ three_ids) ∧
  setcurtag (by_id 4) "peak" true cursor_and_span
  = (Raise UnboundLocalError, cursor_and_span).
Proof.
  assert (is_Some (curlist cursor_and_span)) as Hcl by (by eexists).
  assert (display_ids cursor_and_span = Some three_ids) as Hids
    by (vm_compute; reflexivity).
  assert (4%N ∉ three_ids) as Hn.
  { intros H. by repeat (apply elem_of_cons in H as [H|H]; [discriminate H|]);
      apply elem_of_nil in H. }
  split; [exact Hcl|]. split; [exact Hids|]. split; [exact Hn|].
  exact (setcurtag_by_missing_id_raises _ _ 4%N "peak" true Hcl Hids Hn).
Defined.

(** The loop of the string branch collects the cursors whose whole text
    is the string. *)
Lemma setcurtag_by_text_spec w s cl ts :
  Forall2 (λ h t, cursors w !! h ≫= tag_text = Some t) cl ts →
  ∀ acc, ∃ found,
    setcurtag_by_text s cl acc w = (Ok (acc ++ found), w) ∧
    length found = length (filter (λ t, t = s) ts).
Proof.
  induction 1 as [|h t cl ts Ht _ IH]; intros acc.
  - exists []. by rewrite app_nil_r.
  - destruct (cursors w !! h) as [c|] eqn:Hc; [|done]. cbn in Ht.
    unfold tag_text in Ht. destruct (tag c) as [tb|] eqn:Htb; [|done].
    injection Ht as <-. cbn [setcurtag_by_text].
    rewrite (bind_ok _ _ _ _ _ (tag_get_text_run _ _ _ _ Hc Htb)).
    destruct (String.eqb_spec s (text tb)) as [E|E].
    + destruct (IH (acc ++ [h])) as (found & Hrun & Hlen).
      exists (h :: found). rewrite Hrun, <- app_assoc. split; [done|].
      rewrite (filter_cons_True (λ t, t = s)); [|by symmetry]. cbn.
      by rewrite Hlen.
    + destruct (IH acc) as (found & Hrun & Hlen).
      exists found. split; [done|].
      rewrite (filter_cons_False (λ t, t = s)); [done|]. by intros <-.
Qed.

(** X8. [setcurtag] with a string compares it with the whole text of each
    tag, ID included.  When the string is the text of no cursor of the
    list, or of more than one, the call prints a message and returns:
    nothing is renamed and nothing is raised. *)
Theorem setcurtag_by_text_without_unique_match w ts s new_str keep_id :
  is_Some (curlist w) → tag_texts w = Some ts →
  length (filter (λ t, t = s) ts) ≠ 1%nat →
  setcurtag (by_text s) new_str keep_id w = (Ok tt, w).
Proof.
  intros [cl Hcl] Hts Hlen. unfold tag_texts, curlist_of in Hts.
  rewrite Hcl in Hts. cbn in Hts. apply mapM_Some_1 in Hts.
  destruct (setcurtag_by_text_spec w s cl ts Hts []) as (found & Hrun & Hf).
  assert ((cl ← ax_curlist;
           cur_obj_list ← setcurtag_by_text s cl [];
           match cur_obj_list with
           | [cur_obj] => mret (Some cur_obj)
           | _ => mret None
           end) w = (Ok None, w)) as H.
  { rewrite (bind_ok _ _ _ _ _ (ax_curlist_run _ _ Hcl)).
    rewrite (bind_ok _ _ _ _ _ Hrun). cbn [app].
    destruct found as [|h [|h' found]]; [done| |done].
    cbn in Hf. congruence. }
  unfold setcurtag. by rewrite (bind_ok _ _ _ _ _ H).
Qed.

Lemma setcurtag_by_text_without_unique_match_witness :
  is_Some (curlist cursor_and_span) ∧
  tag_texts cursor_and_span = Some ["(1)"; "(2)"; "(3)"] ∧
  length (filter (λ t, t = "3") ["(1)"; "(2)"; "(3)"]) ≠ 1%nat ∧
  setcurtag (by_text "3") "peak" true cursor_and_span
  = (Ok tt, cursor_and_span).
Proof.
  assert (is_Some (curlist cursor_and_span)) as Hcl by (by eexists).
  assert (tag_texts cursor_and_span = Some ["(1)"; "(2)"; "(3)"]) as Hts
    by (vm_compute; reflexivity).
  assert (length (filter (λ t, t = "3") ["(1)"; "(2)"; "(3)"]) ≠ 1%nat)
    as Hlen by (vm_compute; discriminate).
  split; [exact Hcl|]. split; [exact Hts|]. split; [exact Hlen|].
  exact (setcurtag_by_text_without_unique_match _ _ "3" "peak" true
           Hcl Hts Hlen).
Defined.


Lemma setnewname_run w h c t p g r s :
  cursors w !! h = Some c → tag c = Some t →
  re_search (text t) = Some (p, g, r) →
  setnewname h s true w = (Ok tt, set_cursor h (tag_set (PyStr s) g t c) w).
Proof.
  intros H Ht Hs. unfold setnewname, tag_set_text.
  rewrite (bind_ok _ _ _ _ _ (tag_get_text_run _ _ _ _ H Ht)).
  rewrite Hs. cbn [mret M_ret].
  erewrite bind_ok; [|reflexivity].
  rewrite (bind_ok _ _ _ _ _ (tag_of_run _ _ _ _ H Ht)).
  by rewrite (update_cursor_run _ _ _ _ H).
Qed.

Lemma NoDup_lookup_only {A} (l : list A) i x :
  NoDup l → l !! i = Some x → (x ∉ take i l) ∧ (x ∉ drop (S i) l).
Proof.
  intros Hnd Hi. split.
  - intros [j Hj]%list_elem_of_lookup.
    pose proof (lookup_lt_Some _ _ _ Hj) as Hlt. rewrite length_take in Hlt.
    rewrite lookup_take_lt in Hj by lia.
    pose proof (NoDup_lookup _ _ _ _ Hnd Hi Hj). lia.
  - intros [j Hj]%list_elem_of_lookup. rewrite lookup_drop in Hj.
    pose proof (NoDup_lookup _ _ _ _ Hnd Hi Hj). lia.
Qed.

Lemma display_ids_set_cursor w ids h c c' n :
  display_ids w = Some ids →
  cursors w !! h = Some c → cursor_id c = Some n → cursor_id c' = Some n →
  display_ids (set_cursor h c' w) = Some ids.
Proof.
  unfold display_ids. intros Hids%mapM_Some_1 Hc Hn Hn'.
  apply mapM_Some_2. change (curlist_of (set_cursor h c' w)) with (curlist_of w).
  eapply Forall2_impl; [exact Hids|]. intros h' k Hk. cbn beta in *.
  destruct (decide (h = h')) as [<-|Hne].
  - rewrite (lookup_set_cursor w h c' c Hc). rewrite Hc in Hk. cbn in *.
    congruence.
  - by rewrite lookup_set_cursor_ne.
Qed.

(** X9. Renaming a cursor by its ID and looking it up again.  On an axes
    whose listed cursors carry distinct IDs, [setcurtag(n, name)] on the
    ID of a standalone cursor, for a name without a parenthesised integer
    of its own, returns; afterwards [getcur(n)] still returns that
    cursor, its [get_tag] is the name, and every cursor of the list has
    the ID it had. *)
Theorem renamed_cursor_keeps_its_id w ids n i h c new_str :
  is_Some (curlist w) → display_ids w = Some ids → NoDup ids →
  ids !! i = Some n → curlist_of w !! i = Some h →
  cursors w !! h = Some c → orient c = vertical →
  re_search new_str = None →
  ∃ w',
    setcurtag (by_id n) new_str true w = (Ok tt, w') ∧
    getcur n w' = (Ok (Some h), w') ∧
    DragCursor_get_tag h w' = (Ok new_str, w') ∧
    display_ids w' = Some ids.
Proof.
  intros [cl Hcl] Hids Hnd Hi Hh Hc Ho Hplain.
  assert (curlist_of w = cl) as Ecl by (unfold curlist_of; by rewrite Hcl).
  destruct (NoDup_lookup_only _ _ _ Hnd Hi) as [Hbefore Hafter].
  pose proof Hids as HF. unfold display_ids in HF. rewrite Ecl in HF.
  apply mapM_Some_1 in HF. rewrite Ecl in Hh.
  pose proof (Forall2_lookup_lr _ _ _ _ _ _ HF Hh Hi) as Hn. cbn beta in Hn.
  rewrite Hc in Hn. cbn in Hn.
  destruct (cursor_id_inv _ _ Hn) as (t & p & g & r & Ht & Hs & Hg & Hnum).
  set (c' := tag_set (PyStr new_str) g t c).
  destruct (new_tag_plain (PyStr new_str) g Hplain Hnum) as [Hsub Hid].
  assert (cursor_id c' = Some n) as Hn'.
  { change (parse_id (new_tag (PyStr new_str) g) = Some n). by rewrite Hid. }
  pose proof (lookup_set_cursor w h c' c Hc) as Hc'.
  pose proof (display_ids_set_cursor w ids h c c' n Hids Hc Hn Hn') as Hids'.
  exists (set_cursor h c' w). split; [|split; [|split]].
  - assert ((cl ← ax_curlist;
             cur_obj ← setcurtag_by_id n cl None;
             match cur_obj with
             | Some cur_obj => mret (Some cur_obj)
             | None => raise UnboundLocalError
             end) w = (Ok (Some h), w)) as Hfind.
    { rewrite (bind_ok _ _ _ _ _ (ax_curlist_run _ _ Hcl)).
      rewrite (bind_ok _ _ _ _ _
                 (proj2 (setcurtag_by_id_spec w n cl ids HF None) i Hi Hafter)).
      by rewrite Hh. }
    unfold setcurtag. rewrite (bind_ok _ _ _ _ _ Hfind).
    rewrite (bind_ok _ _ _ _ _ (cursor_at_run _ _ _ Hc)), Ho.
    exact (setnewname_run _ _ _ _ _ _ _ _ Hc Ht Hs).
  - apply (getcur_run _ ids n i h); try done.
    + change (curlist (set_cursor h c' w)) with (curlist w).
      change (curlist_of (set_cursor h c' w)) with (curlist_of w).
      by rewrite Hcl, Ecl.
    + change (curlist_of (set_cursor h c' w)) with (curlist_of w).
      by rewrite Ecl.
  - rewrite (get_tag_run _ _ _ _ Hc' eq_refl). do 2 f_equal. exact Hsub.
  - exact Hids'.
Qed.

Lemma renamed_cursor_keeps_its_id_witness :
  ∃ c,
    is_Some (curlist cursor_and_span) ∧
    display_ids cursor_and_span = Some three_ids ∧ NoDup three_ids ∧
    three_ids !! 0%nat = Some 1%N ∧
    curlist_of cursor_and_span !! 0%nat = Some 0%nat ∧
    cursors cursor_and_span !! 0%nat = Some c ∧ orient c = vertical ∧
    re_search "peak" = None ∧
    ∃ w',
      setcurtag (by_id 1) "peak" true cursor_and_span = (Ok tt, w') ∧
      getcur 1 w' = (Ok (Some 0%nat), w') ∧
      DragCursor_get_tag 0 w' = (Ok "peak", w') ∧
      display_ids w' = Some three_ids.
Proof.
  assert (is_Some (curlist cursor_and_span)) as Hcl by (by eexists).
  assert (display_ids cursor_and_span = Some three_ids) as Hids
    by (vm_compute; reflexivity).
  assert (NoDup three_ids) as Hnd
    by (apply (bool_decide_unpack _); vm_compute; exact I).
  assert (re_search "peak" = None) as Hp by (vm_compute; reflexivity).
  eexists. split; [exact Hcl|]. split; [exact Hids|]. split; [exact Hnd|].
  split; [reflexivity|]. split; [reflexivity|]. split; [reflexivity|].
  split; [reflexivity|]. split; [exact Hp|].
  exact (renamed_cursor_keeps_its_id cursor_and_span three_ids 1%N 0%nat
           0%nat _ "peak" Hcl Hids Hnd eq_refl eq_refl eq_refl eq_refl Hp).
Defined.

(** ** The table of [savecurinfo] *)

Lemma cur_props_shows w h c n :
  cursors w !! h = Some c → cursor_id c = Some n →
  ∃ r, cur_props h w = (Ok r, w) ∧ row_shows r c.
Proof.
  intros Hc Hn.
  destruct (cursor_id_inv _ _ Hn) as (t & p & g & r & Ht & _ & _ & _).
  eexists. split.
  - unfold cur_props, DragCursor_get_xpos, DragCursor_get_color.
    rewrite (bind_ok _ _ _ _ _ (bind_ok _ _ _ _ _ (cursor_at_run _ _ _ Hc))).
    cbn [mret M_ret].
    rewrite (bind_ok _ _ _ _ _ (bind_ok _ _ _ _ _ (cursor_at_run _ _ _ Hc))).
    cbn [mret M_ret]. rewrite (bind_ok _ _ _ _ _ (get_tag_run _ _ _ _ Hc Ht)).
    rewrite (bind_ok _ _ _ _ _ (get_id_run _ _ _ _ Hc Hn)).
    by rewrite (bind_ok _ _ _ _ _ (cursor_at_run _ _ _ Hc)).
  - unfold row_shows, tag_text. rewrite Ht. by cbn.
Qed.

Lemma collect_props_shows w cl ids :
  Forall2 (λ h k, cursors w !! h ≫= cursor_id = Some k) cl ids →
  ∀ acc, ∃ rs,
    collect_props cl acc w = (Ok (acc ++ rs), w) ∧
    Forall2 (λ r h, ∃ c, cursors w !! h = Some c ∧ row_shows r c) rs cl.
Proof.
  induction 1 as [|h k cl ids Hk _ IH]; intros acc.
  - exists []. by rewrite app_nil_r.
  - destruct (cursors w !! h) as [c|] eqn:Hc; [|done]. cbn in Hk.
    destruct (cur_props_shows _ _ _ _ Hc Hk) as (r & Hr & Hshows).
    destruct (IH (acc ++ [r])) as (rs & Hrs & HF).
    exists (r :: rs). cbn [collect_props].
    rewrite (bind_ok _ _ _ _ _ Hr), Hrs, <- app_assoc.
    split; [done|]. constructor; [by exists c|done].
Qed.

Lemma id_le_total : Total id_le.
Proof. unfold id_le. intros x y. lia. Qed.

(** X11. The table of [savecurinfo].  On an axes whose cursor list is not
    empty and whose listed cursors all carry an ID, [savecurinfo] returns
    a table and leaves the axes as it is.  The table has one row for each
    cursor of the list, with the ID, the tag without the IDs, the
    position, the type, the mode and the color of the cursor, and its rows
    are ordered by ID. *)
Theorem saved_table_lists_the_cursors_by_id w ids :
  is_Some (curlist w) → curlist_of w ≠ [] → display_ids w = Some ids →
  ∃ rows rs,
    savecurinfo w = (Ok rows, w) ∧
    Sorted id_le rows ∧ rows ≡ₚ rs ∧
    Forall2 (λ r h, ∃ c, cursors w !! h = Some c ∧ row_shows r c)
      rs (curlist_of w).
Proof.
  intros [cl Hcl] Hne Hids.
  assert (curlist_of w = cl) as Ecl by (unfold curlist_of; by rewrite Hcl).
  unfold display_ids in Hids. rewrite Ecl in Hids, Hne |- *.
  apply mapM_Some_1 in Hids.
  destruct (collect_props_shows w cl ids Hids []) as (rs & Hrs & HF).
  cbn [app] in Hrs.
  exists (merge_sort id_le rs), rs. split.
  - unfold savecurinfo. rewrite (bind_ok _ _ _ _ _ (ax_curlist_run _ _ Hcl)).
    rewrite (bind_ok _ _ _ _ _ Hrs).
    destruct rs as [|r rs]; [|done].
    apply Forall2_nil_inv_l in HF. done.
  - split; [|split; [apply merge_sort_Permutation|done]].
    pose proof id_le_total. by apply Sorted_merge_sort.
Qed.

Lemma saved_table_lists_the_cursors_by_id_witness :
  is_Some (curlist retagged_world) ∧ curlist_of retagged_world ≠ [] ∧
  display_ids retagged_world = Some [9; 2; 3; 4]%N ∧
  ∃ rows rs,
    savecurinfo retagged_world = (Ok rows, retagged_world) ∧
    Sorted id_le rows ∧ rows ≡ₚ rs ∧
    Forall2 (λ r h, ∃ c, cursors retagged_world !! h = Some c ∧ row_shows r c)
      rs (curlist_of retagged_world).
Proof.
  assert (is_Some (curlist retagged_world)) as Hcl
    by (exists [0; 1; 2; 3]%nat; vm_compute; reflexivity).
  assert (curlist_of retagged_world ≠ []) as Hne
    by (vm_compute; discriminate).
  assert (display_ids retagged_world = Some [9; 2; 3; 4]%N) as Hids
    by (vm_compute; reflexivity).
  split; [exact Hcl|]. split; [exact Hne|]. split; [exact Hids|].
  exact (saved_table_lists_the_cursors_by_id retagged_world _ Hcl Hne Hids).
Defined.

(** ** Loading into an axes that holds markers *)

Lemma nextDisplayId_max ids : nextDisplayId ids = (max_id ids + 1)%N.
Proof. by destruct ids. Qed.

Lemma next_after_next ids :
  nextDisplayId (ids ++ [nextDisplayId ids]) = (nextDisplayId ids + 1)%N.
Proof. rewrite !nextDisplayId_max, max_id_app. lia. Qed.

Lemma display_ids_app w w' ids cs ns :
  display_ids w = Some ids →
  cursors w' = cursors w ++ cs →
  curlist_of w' = curlist_of w ++ seq (length (cursors w)) (length cs) →
  Forall2 (λ c n, cursor_id c = Some n) cs ns →
  display_ids w' = Some (ids ++ ns).
Proof.
  unfold display_ids. intros Hids Hcs Hcl Hns. rewrite Hcl, mapM_app.
  assert (mapM (λ h, cursors w' !! h ≫= cursor_id) (curlist_of w) = Some ids)
    as ->.
  { apply mapM_Some_2. apply mapM_Some_1 in Hids.
    eapply Forall2_impl; [exact Hids|]. intros h k Hk. cbn beta in *.
    rewrite Hcs.
    destruct (cursors w !! h) as [c|] eqn:Hc; [|by cbn in Hk].
    by rewrite (lookup_app_l_Some _ _ _ _ Hc). }
  assert (mapM (λ h, cursors w' !! h ≫= cursor_id)
            (seq (length (cursors w)) (length cs)) = Some ns) as ->; [|done].
  apply mapM_Some_2. apply Forall2_same_length_lookup_2.
  { by rewrite length_seq, (Forall2_length _ _ _ Hns). }
  intros i h n [-> Hi]%lookup_seq Hn.
  destruct (lookup_lt_is_Some_2 cs i Hi) as [c Hc].
  rewrite Hcs, lookup_app_r, Nat.add_comm, Nat.add_sub, Hc by lia. cbn.
  exact (Forall2_lookup_lr _ _ _ _ _ _ Hns Hc Hn).
Qed.

Lemma new_cursor_id v w ids c :
  display_ids w = Some ids → plain_tag v →
  tag_text c = Some (new_tag v (next_digits w)) →
  cursor_id c = Some (nextDisplayId ids).
Proof.
  intros Hids Hv Ht. unfold cursor_id. rewrite Ht. cbn.
  rewrite (proj2 (new_tag_plain v _ Hv (next_digits_number w))).
  unfold next_digits.
  by rewrite (display_ids_existing _ _ Hids), py_int_py_str.
Qed.

(** For tags without a token of their own, the cursors the loop adds get
    the IDs that follow the largest one in use. *)
Lemma loaded_ids rows : ∀ last w ids,
  store_ok w → display_ids w = Some ids →
  Forall (λ r, plain_tag (row_tag r)) rows →
  from_option (λ l, is_span_row l = true ∧ plain_tag (row_tag l)) True last →
  ∃ cs,
    cursors (loaded rows last w) = cursors w ++ cs ∧
    display_ids (loaded rows last w)
    = Some (ids ++ following (nextDisplayId ids) (length cs)).
Proof.
  induction rows as [|row rows IH]; intros last w ids Hok Hids Hplain Hlast.
  - exists []. cbn. by rewrite !app_nil_r.
  - apply Forall_cons in Hplain as [Hrow Hplain]. cbn [loaded].
    destruct (is_cursor_row row) eqn:Ec; [|destruct (is_span_row row) eqn:Es].
    + destruct (loaded_cursor_spec row w Ec)
        as (c & Hcs & Hcl & _ & _ & _ & Ht).
      pose proof (new_cursor_id _ _ _ _ Hids Hrow Ht) as Hn.
      destruct (IH last (loaded_cursor row w) (ids ++ [nextDisplayId ids]))
        as (cs & H1 & H2); [by apply store_ok_loaded_cursor| |done|done|].
      { apply (display_ids_app w _ ids [c]); [done..|]. by repeat constructor. }
      exists (c :: cs). rewrite H1, H2, Hcs, <- !app_assoc.
      by rewrite next_after_next.
    + destruct last as [l|].
      * destruct Hlast as [Hl Hpl].
        destruct (loaded_span_spec l row w Hl Es)
          as (clo & chi & d & Hcs & Hcl & _ & _ & _ & _ & _ & _ & _
              & Htlo & Hthi).
        pose proof (new_cursor_id _ _ _ _ Hids Hpl Htlo) as Hnlo.
        pose proof (new_cursor_id _ _ _ _
                      (display_ids_after_init (row_xpos l) vertspan
                         "interact" w ids Hok Hids) Hrow Hthi) as Hnhi.
        rewrite next_after_next in Hnhi.
        destruct (IH None (loaded_span l row w)
                    (ids ++ [nextDisplayId ids; (nextDisplayId ids + 1)%N]))
          as (cs & H1 & H2); [by apply store_ok_loaded_span| |done|done|].
        { apply (display_ids_app w _ ids [clo; chi]); [done..|].
          by repeat constructor. }
        exists (clo :: chi :: cs). rewrite H1, H2, Hcs, <- !app_assoc.
        split; [done|]. cbn [length following app]. do 4 f_equal.
        change [nextDisplayId ids; (nextDisplayId ids + 1)%N]
          with ([nextDisplayId ids] ++ [(nextDisplayId ids + 1)%N]).
        rewrite app_assoc, <- (next_after_next ids) at 1.
        by rewrite next_after_next, next_after_next.
      * by apply (IH (Some row) w ids).
    + by apply IH.
Qed.

(** X10. Loading adds to what the axes holds.  On an axes whose listed
    cursors carry an ID and whose listed spans have their two cursors,
    [loadcurinfo] returns for every table.  The cursors and spans of the
    axes stay as they are, in the store and in the lists, and the new
    ones come after them.  The spans are built from the rows of type
    ['vertspan'] taken two by two as they come, whatever stands between
    the two rows of a pair; a last row without partner gives no span.
    When no tag of the table holds a parenthesised integer, the new
    cursors get the IDs that follow the largest ID in use. *)
Theorem load_appends_to_the_axes rows w ids sp :
  store_ok w → display_ids w = Some ids → span_positions w = Some sp →
  ∃ w' cs ss,
    loadcurinfo rows w = (Ok rows, w') ∧
    cursors w' = cursors w ++ cs ∧
    curlist_of w' = curlist_of w ++ seq (length (cursors w)) (length cs) ∧
    spans w' = spans w ++ ss ∧
    spanlist_of w' = spanlist_of w ++ seq (length (spans w)) (length ss) ∧
    span_positions w' = Some (sp ++ paired (row_xpos <$> span_rows rows)) ∧
    (Forall (λ r, plain_tag (row_tag r)) rows →
     display_ids w'
     = Some (ids ++ following (nextDisplayId ids) (length cs))).
Proof.
  intros Hok Hids Hsp.
  destruct (loaded_pairs rows None w sp I Hsp)
    as (cs & ss & H1 & H2 & H3 & H4 & H5).
  exists (loaded rows None w), cs, ss.
  split; [by apply loadcurinfo_run|]. do 5 (split; [done|]).
  intros Hplain.
  destruct (loaded_ids rows None w ids Hok Hids Hplain I) as (cs' & H1' & H6).
  rewrite H1 in H1'. apply app_inv_head in H1'. by subst cs'.
Qed.

Lemma load_appends_to_the_axes_witness :
  store_ok cursor_and_span ∧
  display_ids cursor_and_span = Some three_ids ∧
  span_positions cursor_and_span = Some [(-3, 3)] ∧
  Forall (λ r, plain_tag (row_tag r)) mixed_table ∧
  span_positions (loadcurinfo mixed_table cursor_and_span).2
  = Some [(-3, 3); (10, 20)] ∧
  display_ids (loadcurinfo mixed_table cursor_and_span).2
  = Some [1; 2; 3; 4; 5; 6]%N ∧
  ∃ w' cs ss,
    loadcurinfo mixed_table cursor_and_span = (Ok mixed_table, w') ∧
    cursors w' = cursors cursor_and_span ++ cs ∧
    curlist_of w'
    = curlist_of cursor_and_span
        ++ seq (length (cursors cursor_and_span)) (length cs) ∧
    spans w' = spans cursor_and_span ++ ss ∧
    spanlist_of w'
    = spanlist_of cursor_and_span
        ++ seq (length (spans cursor_and_span)) (length ss) ∧
    span_positions w'
    = Some ([(-3, 3)] ++ paired (row_xpos <$> span_rows mixed_table)) ∧
    (Forall (λ r, plain_tag (row_tag r)) mixed_table →
     display_ids w'
     = Some (three_ids ++ following (nextDisplayId three_ids) (length cs))).
Proof.
  assert (store_ok cursor_and_span) as Hok
    by (unfold store_ok; vm_compute; repeat constructor).
  assert (display_ids cursor_and_span = Some three_ids) as Hids
    by (vm_compute; reflexivity).
  assert (span_positions cursor_and_span = Some [(-3, 3)]) as Hsp
    by (vm_compute; reflexivity).
  split; [exact Hok|]. split; [exact Hids|]. split; [exact Hsp|].
  split; [repeat constructor; vm_compute; reflexivity|].
  split; [vm_compute; reflexivity|]. split; [vm_compute; reflexivity|].
  exact (load_appends_to_the_axes mixed_table cursor_and_span three_ids
           [(-3, 3)] Hok Hids Hsp).
Defined.

Lemma loaded_known rows : ∀ last w,
  loaded rows last w = loaded (filter (λ r, known_type r = true) rows) last w.
Proof.
  induction rows as [|r rows IH]; intros last w; [done|].
  cbn [loaded].
  destruct (is_cursor_row r) eqn:Ec; [|destruct (is_span_row r) eqn:Es].
  - rewrite filter_cons_True by (unfold known_type; by rewrite Ec).
    cbn [loaded]. rewrite Ec. apply IH.
  - rewrite filter_cons_True by (unfold known_type; by rewrite Ec, Es).
    cbn [loaded]. rewrite Ec, Es. destruct last; apply IH.
  - rewrite filter_cons_False by (unfold known_type; by rewrite Ec, Es).
    apply IH.
Qed.

(** X12. [loadcurinfo] passes over rows whose type is neither
    ['vertical'] nor ['vertspan']: it returns, and builds what it builds
    from the table without these rows.  Such a row between the two rows
    of a span does not come between them: the buffered row stays. *)
Theorem load_skips_rows_of_other_types rows w :
  store_ok w →
  ∃ w',
    loadcurinfo rows w = (Ok rows, w') ∧
    loadcurinfo (filter (λ r, known_type r = true) rows) w
    = (Ok (filter (λ r, known_type r = true) rows), w').
Proof.
  intros Hok. exists (loaded rows None w).
  split; [by apply loadcurinfo_run|].
  rewrite (loaded_known rows). by apply loadcurinfo_run.
Qed.

Lemma load_skips_rows_of_other_types_witness :
  store_ok new_axes ∧
  ∃ w',
    loadcurinfo table_with_stranger new_axes = (Ok table_with_stranger, w') ∧
    loadcurinfo (filter (λ r, known_type r = true) table_with_stranger)
      new_axes
    = (Ok (filter (λ r, known_type r = true) table_with_stranger), w').
Proof.
  assert (store_ok new_axes) as Hok by constructor.
  split; [exact Hok|].
  exact (load_skips_rows_of_other_types table_with_stranger new_axes Hok).
Defined.

(** ** Arming the mouse *)

Lemma list_filter_iff_in {A} (P1 P2 : A → Prop)
    `{!∀ x, Decision (P1 x), !∀ x, Decision (P2 x)} (l : list A) :
  (∀ x, x ∈ l → (P1 x ↔ P2 x)) → filter P1 l = filter P2 l.
Proof.
  induction l as [|a l IH]; intros Hiff; [done|].
  rewrite !filter_cons.
  rewrite IH by (intros x Hx; apply Hiff; by right).
  destruct (decide (P1 a)) as [H1|H1], (decide (P2 a)) as [H2|H2];
    try done; exfalso; [apply H2|apply H1]; apply (Hiff a); by try left.
Qed.

Lemma filter_none {A} (P : A → Prop) `{!∀ x, Decision (P x)} (l : list A) :
  Forall (λ x, ¬ P x) l → filter P l = [].
Proof.
  induction 1 as [|x l Hx _ IH]; [done|]. by rewrite filter_cons_False.
Qed.

Lemma arm_run a w :
  arm a w =
  (Ok tt,
   with_fig_cidpress (Some (next_cid w))
     (with_callbacks
        (match fig_cidpress w with
         | Some cid => filter (λ p, p.1 ≠ cid) (callbacks w)
         | None => callbacks w
         end ++ [(next_cid w, onclick_of a)])
        (S (next_cid w)) w)).
Proof.
  destruct a; cbn [arm onclick_of]; unfold curonclick, spanonclick, arm_onclick;
    cbn [bind_fig read_fig]; mrun; by destruct (fig_cidpress w).
Qed.

Lemma onclick_of_is_onclick a : is_onclick (onclick_of a) = true.
Proof. by destruct a. Qed.

Lemma arm_step a w :
  armed_ok w →
  ∃ w', arm a w = (Ok tt, w') ∧
        onclicks w' = [(next_cid w, onclick_of a)] ∧
        fig_cidpress w' = Some (next_cid w) ∧
        other_callbacks w' = other_callbacks w ∧
        armed_ok w'.
Proof.
  intros [Hbelow Hfig]. eexists. split; [apply arm_run|].
  set (kept := match fig_cidpress w with
               | Some cid => filter (λ p, p.1 ≠ cid) (callbacks w)
               | None => callbacks w
               end).
  assert (∀ p, p ∈ kept ↔ p ∈ callbacks w ∧ is_onclick p.2 = false) as Hkept.
  { intros p. unfold kept. destruct (fig_cidpress w) as [cid|] eqn:E.
    - rewrite list_elem_of_filter. split.
      + intros [Hne Hp]. split; [done|]. destruct (is_onclick p.2) eqn:Eo; [|done].
        apply (Hfig p Hp) in Eo. congruence.
      + intros [Hp Ho]. split; [|done]. intros Hcid.
        rewrite (proj2 (Hfig p Hp)) in Ho by (by rewrite Hcid). done.
    - split.
      + intros Hp. split; [done|]. destruct (is_onclick p.2) eqn:Eo; [|done].
        by apply (Hfig p Hp) in Eo.
      + by intros [Hp _]. }
  assert (filter (λ p, is_onclick p.2 = true) kept = []) as Hno.
  { apply filter_none, Forall_forall. intros p Hp Ho.
    apply Hkept in Hp as [_ Hp]. congruence. }
  assert (filter (λ p, is_onclick p.2 = false) kept = other_callbacks w) as Hoth.
  { unfold other_callbacks, kept. destruct (fig_cidpress w) as [cid|] eqn:E; [|done].
    rewrite list_filter_filter. apply list_filter_iff_in. intros p Hp.
    split; [naive_solver|]. intros Ho. split; [done|]. intros Hcid.
    rewrite (proj2 (Hfig p Hp)) in Ho by (by rewrite Hcid). done. }
  split; [|split; [done|split]].
  - unfold onclicks. cbn [callbacks with_fig_cidpress with_callbacks].
    rewrite filter_app, Hno, app_nil_l.
    rewrite filter_cons_True by apply onclick_of_is_onclick. done.
  - unfold other_callbacks at 1. cbn [callbacks with_fig_cidpress with_callbacks].
    rewrite filter_app, Hoth.
    rewrite (filter_cons_False _ (_, _)); [by rewrite app_nil_r|].
    cbn. by rewrite onclick_of_is_onclick.
  - split.
    + cbn [callbacks next_cid with_fig_cidpress with_callbacks].
      apply Forall_app. split.
      * apply Forall_forall. intros p [Hp _]%Hkept.
        rewrite Forall_forall in Hbelow. specialize (Hbelow p Hp). lia.
      * repeat constructor.
    + cbn [callbacks fig_cidpress with_fig_cidpress with_callbacks].
      intros p [Hp| ->%list_elem_of_singleton]%elem_of_app.
      * apply Hkept in Hp as [Hp Ho]. rewrite Ho.
        rewrite Forall_forall in Hbelow. specialize (Hbelow p Hp).
        split; [done|]. intros [= E]. lia.
      * cbn. by rewrite onclick_of_is_onclick.
Qed.

(** X13. Arming the mouse again replaces the callback.  [curonclick] and
    [spanonclick] disconnect the callback whose id is in [fig.cidpress]
    before they connect their own and store its id there.  Hence after
    any sequence of these calls on the current axes, exactly one [onclick]
    callback is connected, that of the last call, however many calls
    went before; the callbacks of the cursors and spans are untouched. *)
Theorem rearming_replaces_the_onclick_callback calls a w :
  armed_ok w →
  ∃ w' cid,
    for_each (calls ++ [a]) arm w = (Ok tt, w') ∧
    onclicks w' = [(cid, onclick_of a)] ∧
    fig_cidpress w' = Some cid ∧
    other_callbacks w' = other_callbacks w ∧
    armed_ok w'.
Proof.
  revert w. induction calls as [|c calls IH]; intros w Hw.
  - destruct (arm_step a w Hw) as (w' & Hrun & Hon & Hfig & Hoth & Hok).
    exists w', (next_cid w). cbn [app for_each].
    by rewrite (bind_ok _ _ _ _ _ Hrun).
  - destruct (arm_step c w Hw) as (w1 & Hrun & _ & _ & Hoth & Hok).
    destruct (IH w1 Hok) as (w' & cid & Hrun' & Hon & Hfig & Hoth' & Hok').
    exists w', cid. cbn [app for_each]. rewrite (bind_ok _ _ _ _ _ Hrun).
    split; [done|]. split; [done|]. split; [done|]. split; [congruence|done].
Qed.

Lemma cursor_and_span_armed_ok : armed_ok cursor_and_span.
Proof.
  split.
  - apply (bool_decide_unpack _). by vm_compute.
  - intros p Hp.
    change (callbacks cursor_and_span) with
      (cursor_callbacks 0 0 ++ cursor_callbacks 1 3 ++ cursor_callbacks 2 6
         ++ [(9%nat, span_on_press 0)]) in Hp.
    cbn in Hp.
    repeat (apply elem_of_cons in Hp as [->|Hp]; [by split|]).
    by apply elem_of_nil in Hp.
Qed.

Lemma rearming_replaces_the_onclick_callback_witness :
  armed_ok cursor_and_span ∧
  ∃ w' cid,
    for_each ([arm_cursors; arm_spans; arm_spans] ++ [arm_cursors]) arm
      cursor_and_span = (Ok tt, w') ∧
    onclicks w' = [(cid, onclick_of arm_cursors)] ∧
    fig_cidpress w' = Some cid ∧
    other_callbacks w' = other_callbacks cursor_and_span ∧
    armed_ok w'.
Proof.
  split; [exact cursor_and_span_armed_ok|].
  exact (rearming_replaces_the_onclick_callback
           [arm_cursors; arm_spans; arm_spans] arm_cursors cursor_and_span
           cursor_and_span_armed_ok).
Defined.

(** ** [setcursormode] by ID *)

(** The selection loop collects every cursor of the list with the ID. *)
Lemma select_by_id_spec w n cl ids :
  Forall2 (λ h k, cursors w !! h ≫= cursor_id = Some k) cl ids →
  ∀ acc,
  (n ∉ ids → select_by_id n cl acc w = (Ok acc, w)) ∧
  (∀ i, ids !! i = Some n → n ∉ take i ids → n ∉ drop (S i) ids →
        ∃ h, cl !! i = Some h ∧
             select_by_id n cl acc w = (Ok (acc ++ [h]), w)).
Proof.
  induction 1 as [|h k cl ids Hk _ IH]; intros acc; [by split|].
  destruct (cursors w !! h) as [c|] eqn:Hc; [|done]. cbn in Hk.
  pose proof (get_id_run _ _ _ _ Hc Hk) as Hid.
  assert (∀ acc', select_by_id n (h :: cl) acc' w
                  = select_by_id n cl
                      (if N.eqb n k then acc' ++ [h] else acc') w) as Hstep.
  { intros acc'. cbn [select_by_id]. by rewrite (bind_ok _ _ _ _ _ Hid). }
  split.
  - intros Hno. apply not_elem_of_cons in Hno as [Hne Hno].
    rewrite Hstep, (proj2 (N.eqb_neq n k)) by done. by apply (proj1 (IH acc)).
  - intros [|i] Hi Hbefore Hafter; rewrite Hstep.
    + injection Hi as ->. rewrite N.eqb_refl. cbn in Hafter.
      rewrite drop_0 in Hafter. exists h. split; [done|].
      by apply (proj1 (IH (acc ++ [h]))).
    + cbn in Hi, Hbefore, Hafter.
      apply not_elem_of_cons in Hbefore as [Hne Hbefore].
      rewrite (proj2 (N.eqb_neq n k)) by done. by apply (proj2 (IH acc)).
Qed.

(** X14. [setcursormode] with one ID.  On an axes whose listed cursors
    carry distinct IDs, the call changes the cursor with this ID and no
    other object: its mode is the new mode, and its line style is ['--']
    for ['interact'] and ['-.'] for ['fixed'].  With an ID that no cursor
    carries the call returns and changes nothing. *)
Theorem setcursormode_by_id w ids m n :
  is_Some (curlist w) → display_ids w = Some ids → NoDup ids →
  (n ∉ ids → setcursormode m (one_id n) w = (Ok tt, w)) ∧
  (∀ i h c,
     ids !! i = Some n → curlist_of w !! i = Some h →
     cursors w !! h = Some c →
     setcursormode m (one_id n) w = (Ok tt, set_cursor h (mode_set m c) w)).
Proof.
  intros [cl Hcl] Hids Hnd.
  assert (curlist_of w = cl) as Ecl by (unfold curlist_of; by rewrite Hcl).
  unfold display_ids in Hids. rewrite Ecl in Hids. apply mapM_Some_1 in Hids.
  assert (∀ found,
            select_by_id n cl [] w = (Ok found, w) →
            setcursormode m (one_id n) w
            = for_each found (λ ci, DragCursor_set_mode ci m) w) as Hsel.
  { intros found Hf. unfold setcursormode.
    erewrite bind_ok; [reflexivity|]. cbn [select_ids].
    rewrite (bind_ok _ _ _ _ _ (ax_curlist_run _ _ Hcl)).
    by rewrite (bind_ok _ _ _ _ _ Hf). }
  split.
  - intros Hn.
    by rewrite (Hsel [] (proj1 (select_by_id_spec w n cl ids Hids []) Hn)).
  - intros i h c Hi Hh Hc. rewrite Ecl in Hh.
    destruct (NoDup_lookup_only _ _ _ Hnd Hi) as [Hbefore Hafter].
    destruct (proj2 (select_by_id_spec w n cl ids Hids []) i Hi Hbefore Hafter)
      as (h' & Hh' & Hf).
    assert (h' = h) as -> by congruence.
    rewrite (Hsel _ Hf). cbn [app for_each].
    by rewrite (bind_ok _ _ _ _ _ (set_mode_run _ _ _ m Hc)).
Qed.

Lemma setcursormode_by_id_witness :
  is_Some (curlist cursor_and_span) ∧
  display_ids cursor_and_span = Some three_ids ∧ NoDup three_ids ∧
  setcursormode "fixed" (one_id 9) cursor_and_span
  = (Ok tt, cursor_and_span) ∧
  ∃ c, cursors cursor_and_span !! 1%nat = Some c ∧
       setcursormode "fixed" (one_id 2) cursor_and_span
       = (Ok tt, set_cursor 1 (mode_set "fixed" c) cursor_and_span).
Proof.
  assert (is_Some (curlist cursor_and_span)) as Hcl by (by eexists).
  assert (display_ids cursor_and_span = Some three_ids) as Hids
    by (vm_compute; reflexivity).
  assert (NoDup three_ids) as Hnd
    by (apply (bool_decide_unpack _); vm_compute; exact I).
  assert (9%N ∉ three_ids) as Hn.
  { intros H. by repeat (apply elem_of_cons in H as [H|H]; [discriminate H|]);
      apply elem_of_nil in H. }
  split; [exact Hcl|]. split; [exact Hids|]. split; [exact Hnd|].
  split.
  - exact (proj1 (setcursormode_by_id cursor_and_span three_ids "fixed" 9%N
                    Hcl Hids Hnd) Hn).
  - eexists. split; [reflexivity|].
    exact (proj2 (setcursormode_by_id cursor_and_span three_ids "fixed" 2%N
                    Hcl Hids Hnd) 1%nat 1%nat _ eq_refl eq_refl eq_refl).
Defined.

(** ** Dragging a cursor *)

Lemma motion_outside w h c event :
  cursors w !! h = Some c → in_this_axes event = false →
  DragCursor_on_motion h event w = (Ok tt, w).
Proof.
  intros Hc Hin. unfold DragCursor_on_motion.
  rewrite (bind_ok _ _ _ _ _ (cursor_at_run _ _ _ Hc)).
  destruct (_press c) as [[[[x0 y0] xp] yp]|]; [|done]. by rewrite Hin.
Qed.

Lemma in_this_axes_true event :
  in_this_axes event = true → inaxes event = Some this_axes.
Proof. unfold in_this_axes. by destruct (inaxes event) as [[]|]. Qed.

(** The motion events of a drag, for a standalone cursor that holds a
    capture: the cursor follows those that arrive in the axes. *)
Lemma motions_run h t0 c0 : ∀ moves w c p,
  cursors w !! h = Some c → _press c = Some p → orient c = vertical →
  (c = c0 ∧ tag c = Some t0 ∨ ∃ x, c = moved x t0 c0) →
  _press c0 = Some p → orient c0 = vertical →
  for_each moves (DragCursor_on_motion h) w
  = (Ok tt,
     set_cursor h
       (match last (moves_in_axes moves) with
        | Some x => moved x t0 c0
        | None => c
        end) w).
Proof.
  induction moves as [|ev moves IH]; intros w c p Hc Hp Ho Hshape Hp0 Ho0.
  - cbn. by rewrite (set_cursor_same _ _ _ Hc).
  - cbn [for_each]. unfold moves_in_axes. rewrite filter_cons.
    destruct (in_this_axes ev) eqn:Hin.
    + rewrite decide_True by done. cbn [fmap list_fmap].
      assert (∃ t, tag c = Some t ∧ moved (xdata ev) t c = moved (xdata ev) t0 c0)
        as (t & Ht & Hmoved).
      { destruct Hshape as [[-> Ht]|[x ->]].
        - by exists t0.
        - eexists. split; [reflexivity|]. reflexivity. }
      rewrite (bind_ok _ _ _ _ _
                 (eq_trans (on_motion_run _ _ _ _ _ _ Hc Hp Ht
                              (in_this_axes_true _ Hin))
                    (f_equal (λ o, match o with
                                   | vertspan =>
                                       match spanobj c with
                                       | Some s => DragSpan_updatespan s
                                       | None => raise AttributeError
                                       end
                                   | vertical => mret tt
                                   end
                                     (set_cursor h (moved (xdata ev) t c) w))
                       Ho))).
      rewrite Hmoved.
      set (c1 := moved (xdata ev) t0 c0).
      rewrite (IH _ c1 p (lookup_set_cursor w h c1 c Hc)); try done.
      * rewrite set_cursor_set_cursor. fold (moves_in_axes moves).
        rewrite last_cons. by destruct (last (moves_in_axes moves)).
      * right. by exists (xdata ev).
    + rewrite decide_False by done.
      rewrite (bind_ok _ _ _ _ _ (motion_outside _ _ _ _ Hc Hin)).
      by apply (IH w c p).
Qed.

(** X15. A drag.  A press of a button other than the right one on the
    line of a standalone cursor that is not in mode ['fixed'], with no
    navigation tool active, then any motion events, then a release: the
    cursor and its tag end where the last motion event that arrived in
    the axes was (where they were without such an event), the cursor
    holds no capture, and nothing else on the axes has changed.  Motion
    events outside the axes are ignored. *)
Theorem drag_moves_the_cursor w h c t press moves release :
  cursors w !! h = Some c → tag c = Some t →
  orient c = vertical → mode c ≠ "fixed" → navigate_mode w = None →
  inaxes press = Some this_axes → h ∈ on_lines press → button press ≠ 3 →
  (DragCursor_on_press h press ;;
   for_each moves (DragCursor_on_motion h) ;;
   DragCursor_on_release h release) w
  = (Ok tt, set_cursor h (dragged (moves_in_axes moves) t c) w).
Proof.
  intros Hc Ht Ho Hm Hnav Hin Hhit Hb.
  pose proof (on_press_run _ _ _ _ Hc Hin Hm Hnav Hhit) as Hpress.
  rewrite (proj2 (Z.eqb_neq _ _) Hb) in Hpress. cbn [andb] in Hpress.
  rewrite (bind_ok _ _ _ _ _ Hpress).
  set (c0 := pressed press c). set (w0 := set_cursor h c0 w).
  assert (cursors w0 !! h = Some c0) as Hc0 by exact (lookup_set_cursor w h c0 c Hc).
  rewrite (bind_ok _ _ _ _ _
             (motions_run h t c0 moves w0 c0 _ Hc0 eq_refl Ho
                (or_introl (conj eq_refl Ht)) eq_refl Ho)).
  unfold w0. rewrite set_cursor_set_cursor.
  set (c1 := match last (moves_in_axes moves) with
             | Some x => moved x t c0
             | None => c0
             end).
  unfold DragCursor_on_release.
  rewrite (update_cursor_run _ _ _ _ (lookup_set_cursor w h c1 c Hc)).
  rewrite set_cursor_set_cursor. do 2 f_equal.
  unfold c1, dragged. by destruct (last (moves_in_axes moves)).
Qed.

Lemma drag_moves_the_cursor_witness :
  ∃ c t,
    cursors cursor_and_span !! 0%nat = Some c ∧ tag c = Some t ∧
    orient c = vertical ∧ mode c ≠ "fixed" ∧
    navigate_mode cursor_and_span = None ∧
    inaxes left_press_on_0 = Some this_axes ∧
    0%nat ∈ on_lines left_press_on_0 ∧ button left_press_on_0 ≠ 3 ∧
    moves_in_axes three_moves = [4; 7] ∧
    (DragCursor_on_press 0 left_press_on_0 ;;
     for_each three_moves (DragCursor_on_motion 0) ;;
     DragCursor_on_release 0 left_press_on_0) cursor_and_span
    = (Ok tt, set_cursor 0 (dragged [4; 7] t c) cursor_and_span).
Proof.
  assert ("interact" ≠ "fixed") as Hm by discriminate.
  assert (0%nat ∈ [0%nat]) as Hhit by apply list_elem_of_here.
  assert ((1 : Z) ≠ 3) as Hb by discriminate.
  eexists _, _. split; [reflexivity|]. split; [reflexivity|].
  split; [reflexivity|]. split; [exact Hm|]. split; [reflexivity|].
  split; [reflexivity|]. split; [exact Hhit|]. split; [exact Hb|].
  split; [reflexivity|].
  exact (drag_moves_the_cursor cursor_and_span 0 _ _ left_press_on_0
           three_moves left_press_on_0 eq_refl eq_refl eq_refl Hm eq_refl
           eq_refl Hhit Hb).
Defined.

(** ** [getcurpos] *)

Lemma py_in_empty s : py_in "" s = true.
Proof. by destruct s. Qed.

Lemma getcurpos_loop_run w sub cl : ∀ ts xs acc,
  Forall2 (λ h t, cursors w !! h ≫= tag_text = Some t) cl ts →
  Forall2 (λ h x, position <$> cursors w !! h = Some x) cl xs →
  getcurpos_loop sub cl acc w = (Ok (acc ++ positions_with sub ts xs), w).
Proof.
  induction cl as [|h cl IH]; intros ts xs acc Hts Hxs.
  - apply Forall2_nil_inv_l in Hts as ->. apply Forall2_nil_inv_l in Hxs as ->.
    cbn. by rewrite app_nil_r.
  - apply Forall2_cons_inv_l in Hts as (t & ts' & Ht & Hts & ->).
    apply Forall2_cons_inv_l in Hxs as (x & xs' & Hx & Hxs & ->).
    destruct (cursors w !! h) as [c|] eqn:Hc; [|done]. cbn in Ht, Hx.
    unfold tag_text in Ht. destruct (tag c) as [tb|] eqn:Htb; [|done].
    injection Ht as <-. injection Hx as <-.
    cbn [getcurpos_loop].
    rewrite (bind_ok _ _ _ _ _ (tag_get_text_run _ _ _ _ Hc Htb)).
    unfold positions_with. cbn [zip zip_with]. rewrite filter_cons.
    destruct (py_in sub (text tb)) eqn:Hin.
    + rewrite decide_True by done.
      unfold DragCursor_get_xpos.
      rewrite (bind_ok _ _ _ _ _ (bind_ok _ _ _ _ _ (cursor_at_run _ _ _ Hc))).
      cbn [mret M_ret]. rewrite (IH ts' xs') by done.
      by rewrite <- app_assoc.
    + rewrite decide_False by (cbn; by rewrite Hin). by apply IH.
Qed.

Lemma positions_with_empty ts xs :
  length ts = length xs → positions_with "" ts xs = xs.
Proof.
  intros Hlen. unfold positions_with.
  rewrite filter_all; [apply snd_zip; lia|].
  apply Forall_forall. intros p _. apply py_in_empty.
Qed.

(** X16. [getcurpos] returns, in the order of the cursor list, the
    positions of the cursors whose whole tag text, ID included, contains
    the string; with the empty string these are the positions of all
    cursors of the list.  The axes is left as it is. *)
Theorem getcurpos_selects_by_text w ts xs sub_str :
  is_Some (curlist w) → tag_texts w = Some ts → positions w = Some xs →
  getcurpos sub_str w = (Ok (positions_with sub_str ts xs), w) ∧
  getcurpos "" w = (Ok xs, w).
Proof.
  intros [cl Hcl] Hts Hxs.
  assert (curlist_of w = cl) as Ecl by (unfold curlist_of; by rewrite Hcl).
  unfold tag_texts in Hts. unfold positions in Hxs. rewrite Ecl in Hts, Hxs.
  pose proof (length_mapM _ _ _ Hts) as Hl1.
  pose proof (length_mapM _ _ _ Hxs) as Hl2.
  apply mapM_Some_1 in Hts. apply mapM_Some_1 in Hxs.
  unfold getcurpos. rewrite !(bind_ok _ _ _ _ _ (ax_curlist_run _ _ Hcl)).
  rewrite !(getcurpos_loop_run w _ cl ts xs [] Hts Hxs). cbn [app].
  split; [done|]. rewrite positions_with_empty; [done|lia].
Qed.

Lemma getcurpos_selects_by_text_witness :
  is_Some (curlist named_world) ∧
  tag_texts named_world = Some ["peak(1)"; "window(2)"; "window(3)"] ∧
  positions named_world = Some [5; 10; 20] ∧
  positions_with "window" ["peak(1)"; "window(2)"; "window(3)"] [5; 10; 20]
  = [10; 20] ∧
  getcurpos "window" named_world
  = (Ok (positions_with "window" ["peak(1)"; "window(2)"; "window(3)"]
           [5; 10; 20]), named_world) ∧
  getcurpos "" named_world = (Ok [5; 10; 20], named_world).
Proof.
  assert (is_Some (curlist named_world)) as Hcl
    by (exists [0; 1; 2]%nat; vm_compute; reflexivity).
  assert (tag_texts named_world
          = Some ["peak(1)"; "window(2)"; "window(3)"]) as Hts
    by (vm_compute; reflexivity).
  assert (positions named_world = Some [5; 10; 20]) as Hxs
    by (vm_compute; reflexivity).
  split; [exact Hcl|]. split; [exact Hts|]. split; [exact Hxs|].
  split; [vm_compute; reflexivity|].
  exact (getcurpos_selects_by_text named_world
           ["peak(1)"; "window(2)"; "window(3)"] [5; 10; 20] "window"
           Hcl Hts Hxs).
Defined.

(** ** A click of the middle button *)

(** A press that is on no line and on no span does nothing in the
    handlers of the cursors and spans. *)
Lemma press_misses w cb event :
  target_ok w cb → is_onclick cb = false →
  connected_to cb = button_press_event →
  on_lines event = [] → on_spans event = [] →
  call cb event w = (Ok tt, w).
Proof.
  intros Hok Hno Hconn Hl Hs. destruct cb as [h|h|h|s| |]; try done.
  - destruct Hok as [c Hc]. cbn [call]. unfold DragCursor_on_press.
    rewrite (bind_ok _ _ _ _ _ (cursor_at_run _ _ _ Hc)).
    destruct (negb (in_this_axes event)); [done|].
    destruct (String.eqb (mode c) "fixed"); [done|].
    change ((get_world ≫= ?f) w) with (f w w). cbn beta.
    destruct (navigate_mode w); [done|].
    rewrite Hl, bool_decide_eq_false_2 by apply not_elem_of_nil. done.
  - destruct Hok as (d & Hd & [lo Hlo]). cbn [call]. unfold DragSpan_on_press.
    rewrite (bind_ok _ _ _ _ _ (span_at_run _ _ _ Hd)).
    destruct (negb (in_this_axes event)); [done|].
    change ((get_world ≫= ?f) w) with (f w w). cbn beta.
    destruct (navigate_mode w); [done|].
    rewrite (bind_ok _ _ _ _ _ (cursor_at_run _ _ _ Hlo)).
    destruct (String.eqb (mode lo) "fixed"); [done|].
    rewrite Hs, bool_decide_eq_false_2 by apply not_elem_of_nil. done.
Qed.

Lemma target_ok_after_init w cb x o m :
  target_ok w cb → target_ok (after_init x o m w) cb.
Proof.
  destruct cb as [h|h|h|s| |]; cbn; try done;
    try (intros [c Hc]; exists c; by apply lookup_app_l_Some).
  intros (d & Hd & [c Hc]). exists d. split; [done|]. exists c.
  by apply lookup_app_l_Some.
Qed.

Lemma target_ok_after_span_init w cb lo hi :
  target_ok w cb → target_ok (after_span_init lo hi w) cb.
Proof.
  destruct cb as [h|h|h|s| |]; cbn; try done;
    try (intros [c Hc]; exists c; by apply lookup_app_l_Some).
  intros (d & Hd & [c Hc]). exists d.
  split; [by apply lookup_app_l_Some|]. exists c. by apply lookup_app_l_Some.
Qed.

Lemma onclick_call a event w :
  store_ok w → is_Some (inaxes event) → button event = 2 →
  ∃ w', call (onclick_of a) event w = (Ok tt, w') ∧ placed_by a event w w' ∧
        ∀ cb, target_ok w cb → target_ok w' cb.
Proof.
  intros Hok [ax Hax] Hb. destruct a; cbn [call onclick_of placed_by].
  - exists (after_init (xdata event) vertical "interact" w).
    split; [|split; [done|intros cb; apply target_ok_after_init]].
    unfold curonclick_handler. rewrite Hax, Hb. cbn.
    by rewrite (bind_ok _ _ _ _ _
                  (eq_trans (placecursor_run _ w)
                     (init_run _ vertical "interact" w Hok not_vertspan))).
  - assert (∃ lo hi, placespan (span_around (xdata event)) w
                     = (Ok (length (spans w)), after_span_init lo hi w))
      as (lo & hi & Hrun).
    { rewrite placespan_run. cbn zeta. eexists _, _. by apply span_init_run. }
    exists (after_span_init lo hi w).
    split; [|split; [by exists lo, hi|intros cb; apply target_ok_after_span_init]].
    unfold spanonclick_handler. rewrite Hax, Hb. cbn.
    by rewrite (bind_ok _ _ _ _ _ Hrun).
Qed.

(** The callbacks of a press that misses, in the order of the canvas:
    nothing happens up to the [onclick] callback, it places its object,
    and nothing happens after it. *)
Lemma presses_run a cid event : ∀ (l : list (nat * callback)) w,
  (∀ p, p ∈ l → target_ok w p.2 ∧ connected_to p.2 = button_press_event) →
  store_ok w → is_Some (inaxes event) → button event = 2 →
  on_lines event = [] → on_spans event = [] →
  (filter (λ p, is_onclick p.2 = true) l = [] →
   for_each l (λ p, call p.2 event) w = (Ok tt, w)) ∧
  (filter (λ p, is_onclick p.2 = true) l = [(cid, onclick_of a)] →
   ∃ w', for_each l (λ p, call p.2 event) w = (Ok tt, w') ∧
         placed_by a event w w').
Proof.
  induction l as [|p l IH]; intros w Hl Hok Hax Hb Hln Hsp.
  - split; [done|]. by intros ?.
  - assert (∀ q, q ∈ l →
                 target_ok w q.2 ∧ connected_to q.2 = button_press_event)
      as Hl' by (intros q Hq; apply Hl; by right).
    destruct (Hl p) as [Hp Hconn]; [by left|].
    cbn [for_each]. rewrite filter_cons.
    destruct (is_onclick p.2) eqn:Ho.
    + rewrite decide_True by done. split; [done|]. intros [= -> Hrest].
      destruct (onclick_call a event w Hok Hax Hb) as (w' & Hrun & Hplaced & Ht).
      cbn [snd] in *. rewrite (bind_ok _ _ _ _ _ Hrun).
      exists w'. split; [|done].
      assert (store_ok w') as Hok'.
      { destruct a; cbn in Hplaced.
        - subst w'. by apply store_ok_after_init.
        - destruct Hplaced as (lo & hi & ->).
          by apply store_ok_after_span_init. }
      assert (∀ q, q ∈ l →
                   target_ok w' q.2 ∧ connected_to q.2 = button_press_event)
        as Hl''.
      { intros q Hq. destruct (Hl' q Hq). split; [by apply Ht|done]. }
      exact (proj1 (IH w' Hl'' Hok' Hax Hb Hln Hsp) Hrest).
    + rewrite decide_False by done.
      rewrite (bind_ok _ _ _ _ _ (press_misses w p.2 event Hp Ho Hconn Hln Hsp)).
      exact (IH w Hl' Hok Hax Hb Hln Hsp).
Qed.

(** X17. A click of the middle button after [curonclick] or
    [spanonclick].  On an axes with one connected [onclick] callback,
    whose other callbacks belong to objects of the store, a press of the
    middle button that is on no line and in no span, delivered by the
    canvas to all callbacks of the press event, does one thing: the armed
    handler places its object, for [curonclick] a cursor at the x of the
    pointer with the next ID.  The handler asks only whether the pointer
    is in some axes, so this also holds for a click in another axes of
    the figure. *)
Theorem middle_click_places_one_object a cid event w :
  store_ok w → (∀ p, p ∈ callbacks w → target_ok w p.2) →
  onclicks w = [(cid, onclick_of a)] →
  is_Some (inaxes event) → button event = 2 →
  on_lines event = [] → on_spans event = [] →
  ∃ w', process button_press_event event w = (Ok tt, w') ∧
        placed_by a event w w'.
Proof.
  intros Hok Ht Hon Hax Hb Hln Hsp. unfold process.
  change ((get_world ≫= ?f) w) with (f w w). cbn beta.
  set (l := filter (λ p, connected_to p.2 = button_press_event) (callbacks w)).
  assert (∀ p, p ∈ l →
               target_ok w p.2 ∧ connected_to p.2 = button_press_event) as Hl.
  { intros p [Hconn Hp]%list_elem_of_filter. split; [by apply Ht|done]. }
  apply (proj2 (presses_run a cid event l w Hl Hok Hax Hb Hln Hsp)).
  unfold l. rewrite list_filter_filter. rewrite <- Hon. unfold onclicks.
  apply list_filter_iff. intros p. split; [by intros []|].
  intros Ho. split; [done|]. by destruct p as [c []].
Qed.

Lemma armed_world_targets p :
  p ∈ callbacks armed_world → target_ok armed_world p.2.
Proof.
  intros Hp.
  change (callbacks armed_world) with
    (cursor_callbacks 0 0 ++ cursor_callbacks 1 3 ++ cursor_callbacks 2 6
       ++ [(9%nat, span_on_press 0); (10%nat, curonclick_onclick)]) in Hp.
  cbn in Hp.
  repeat (apply elem_of_cons in Hp as [->|Hp];
          [cbn; first [done | by eexists
                      | eexists; split; [reflexivity|by eexists]]|]).
  by apply elem_of_nil in Hp.
Qed.

Lemma middle_click_places_one_object_witness :
  store_ok armed_world ∧
  (∀ p, p ∈ callbacks armed_world → target_ok armed_world p.2) ∧
  onclicks armed_world = [(10%nat, onclick_of arm_cursors)] ∧
  is_Some (inaxes middle_click) ∧ button middle_click = 2 ∧
  on_lines middle_click = [] ∧ on_spans middle_click = [] ∧
  ∃ w', process button_press_event middle_click armed_world = (Ok tt, w') ∧
        placed_by arm_cursors middle_click armed_world w'.
Proof.
  assert (store_ok armed_world) as Hok.
  { unfold store_ok. vm_compute. repeat constructor. }
  assert (is_Some (inaxes middle_click)) as Hax by (by eexists).
  split; [exact Hok|]. split; [exact armed_world_targets|].
  split; [reflexivity|]. split; [exact Hax|]. split; [reflexivity|].
  split; [reflexivity|]. split; [reflexivity|].
  exact (middle_click_places_one_object arm_cursors 10%nat middle_click
           armed_world Hok armed_world_targets eq_refl Hax eq_refl
           eq_refl eq_refl).
Defined.
